(** * nn.c: feed-forward networks trained with RPROP or gradient descent

    A shallow embedding of [src/nn.c].  Networks are records of lists, C
    loops are folds over index ranges, and the machine arithmetic on
    [float] is an interface ([FloatOps]) so that every generic theorem
    holds for whatever arithmetic the compiler provides.  Two instances
    are used for closed examples: exact rationals and the real numbers. *)

From Stdlib Require Import ZArith QArith Qreduction Reals Lra Lia.
From stdpp Require Import base list gmap.

Local Open Scope Z_scope.

(** ** Arithmetic on [float]

    [of_int] is the int-to-float conversion, [flt a b] is [a < b] and
    [fle a b] is [a <= b]; [fhalf] is the literal [.5]. *)
Class FloatOps (F : Type) := {
  of_int : Z → F;
  fadd : F → F → F;
  fsub : F → F → F;
  fmul : F → F → F;
  fdiv : F → F → F;
  fneg : F → F;
  flt : F → F → bool;
  fle : F → F → bool;
  fhalf : F
}.

(** [exp] of the C library, needed by the transfer function only. *)
Class FloatExp (F : Type) := { fexp : F → F }.

(** Negation commutes with rounding: subtracting a negated product is
    adding the product, and conversely.  True of IEEE arithmetic. *)
Class FloatLaws (F : Type) `{FloatOps F} := {
  fadd_neg_mul : ∀ w s d : F, fadd w (fmul (fneg s) d) = fsub w (fmul s d);
  fsub_neg_mul : ∀ w s d : F, fsub w (fmul (fneg s) d) = fadd w (fmul s d)
}.

(** ** Loops *)

(** [for (i = 0; i < n; i++) body] *)
Definition for_loop {S : Type} (n : nat) (body : nat → S → S) (s : S) : S :=
  foldl (λ s i, body i s) s (seq 0 n).

(** [for (i = hi; i > 0; i--) body] *)
Definition for_down {S : Type} (hi : nat) (body : nat → S → S) (s : S) : S :=
  foldl (λ s i, body i s) s (rev (seq 1 hi)).

(** [size_t] arithmetic is modulo 2^64. *)
Definition to_size_t (z : Z) : Z := z mod 2 ^ 64.

(** An [int] holds the integers of [-2^31 .. 2^31 - 1].  A result outside
    that range is undefined in C; the usual targets keep its low 32 bits,
    read as a signed number, and [to_int] does the same. *)
Definition to_int (z : Z) : Z := (z + 2 ^ 31) mod 2 ^ 32 - 2 ^ 31.

Definition fits_int (z : Z) : Prop := - 2 ^ 31 ≤ z < 2 ^ 31.

(** [sizeof(float)*n] elements requested from [malloc]: a negative [int]
    count converts to a huge [size_t]; the numeric model only uses
    the count when it is non-negative. *)
Definition count_of (z : Z) : nat := Z.to_nat z.

Definition b2z (b : bool) : Z := if b then 1 else 0.

Section Net.
Context {F : Type} {FO : FloatOps F}.

(** ** Data model (struct AnnLayer, struct Ann) *)

(** Modelled from the spec: the declarations of [struct AnnLayer] and
    [struct Ann] are in nn.h, which is not among the sources; the fields
    are the ones nn.c reads and writes, with the meaning the data model of
    the spec gives them.  A NULL array is the empty list, and the field
    [layers] of a net is the length of its array of layers. *)
Record AnnLayer := mkLayer {
  units : Z;
  output : list F;
  error : list F;
  weight : list F;
  gradient : list F;
  sgradient : list F;
  pgradient : list F;
  delta : list F
}.

Record Ann := mkAnn {
  flags : Z;
  rprop_nminus : F;
  rprop_nplus : F;
  rprop_maxupdate : F;
  rprop_minupdate : F;
  learn_rate : F;
  layer : list AnnLayer
}.

Definition fzero : F := of_int 0.
Definition fone : F := of_int 1.

(** Array read; reading out of range is undefined in C and yields 0 here. *)
Definition rd (a : list F) (i : nat) : F := default fzero (a !! i).

(** [AnnResetLayer] *)
Definition AnnResetLayer (l : AnnLayer) : AnnLayer :=
  mkLayer 0 [] [] [] [] [] [] [].

Definition null_layer : AnnLayer := mkLayer 0 [] [] [] [] [] [] [].

(** [net->layer[i]] *)
Definition lay (net : Ann) (i : nat) : AnnLayer :=
  default null_layer (layer net !! i).

(** Modelled from the spec: the accessor macros [LAYERS(net)],
    [UNITS(net,l)], [WEIGHTS(net,l)] and [OUTPUT_UNITS(net)] of nn.h:
    the layer count, the unit count of a layer (bias unit included), the
    size [units(l) * units(l-1)] of the weight arrays of layer [l], and
    the unit count of layer 0.  [OUTPUT(net,l,i)], [OUTPUT_NODE(net,i)]
    and [INPUT_NODE(net,i)] are entry [i] of the outputs of layer [l], of
    layer 0 and of the last layer. *)
Definition LAYERS (net : Ann) : nat := length (layer net).
Definition UNITS (net : Ann) (l : nat) : Z := units (lay net l).
Definition WEIGHTS (net : Ann) (l : nat) : Z := UNITS net l * UNITS net (l - 1).
Definition OUTPUT_UNITS (net : Ann) : Z := UNITS net 0.

(** Field updates *)
Definition set_output (v : list F) (l : AnnLayer) : AnnLayer :=
  mkLayer (units l) v (error l) (weight l) (gradient l) (sgradient l)
          (pgradient l) (delta l).
Definition set_error (v : list F) (l : AnnLayer) : AnnLayer :=
  mkLayer (units l) (output l) v (weight l) (gradient l) (sgradient l)
          (pgradient l) (delta l).
Definition set_weight (v : list F) (l : AnnLayer) : AnnLayer :=
  mkLayer (units l) (output l) (error l) v (gradient l) (sgradient l)
          (pgradient l) (delta l).
Definition set_gradient (v : list F) (l : AnnLayer) : AnnLayer :=
  mkLayer (units l) (output l) (error l) (weight l) v (sgradient l)
          (pgradient l) (delta l).
Definition set_sgradient (v : list F) (l : AnnLayer) : AnnLayer :=
  mkLayer (units l) (output l) (error l) (weight l) (gradient l) v
          (pgradient l) (delta l).
Definition set_pgradient (v : list F) (l : AnnLayer) : AnnLayer :=
  mkLayer (units l) (output l) (error l) (weight l) (gradient l) (sgradient l)
          v (delta l).
Definition set_delta (v : list F) (l : AnnLayer) : AnnLayer :=
  mkLayer (units l) (output l) (error l) (weight l) (gradient l) (sgradient l)
          (pgradient l) v.

Definition set_layers (ls : list AnnLayer) (net : Ann) : Ann :=
  mkAnn (flags net) (rprop_nminus net) (rprop_nplus net) (rprop_maxupdate net)
        (rprop_minupdate net) (learn_rate net) ls.

(** The scalar fields of a net. *)
Definition hyper (net : Ann) : Z * F * F * F * F * F :=
  (flags net, rprop_nminus net, rprop_nplus net, rprop_maxupdate net,
   rprop_minupdate net, learn_rate net).

(** [net->layer[i] := f (net->layer[i])] *)
Definition upd_layer (i : nat) (f : AnnLayer → AnnLayer) (net : Ann) : Ann :=
  set_layers (alter f i (layer net)) net.

(** ** AnnCountWeights

    [nextunits--] and [units*nextunits] are [int] arithmetic; the
    product is converted to [size_t] when it is added, and the sum is
    kept in a [size_t]. *)
Definition AnnCountWeights (net : Ann) : Z :=
  for_down (LAYERS net - 1)
    (λ i weights,
       let nextunits := units (lay net (i - 1)) in
       let units := units (lay net i) in
       let nextunits :=
         if (1 <? i)%nat then to_int (nextunits - 1) else nextunits in
       to_size_t (weights + to_int (units * nextunits)))
    0.

(** The count in closed form: every layer [i >= 1] contributes its units
    times the units of layer [i-1], less one when layer [i-1] is not the
    output layer (that is, when layer [i-1] carries a bias unit). *)
Definition weights_of_layer (net : Ann) (i : nat) : Z :=
  UNITS net i * (UNITS net (i - 1) - b2z (1 <? i)%nat).

(** No [int] overflows while the weights are counted: for every layer
    [i >= 1] the product fits an [int], and so does the count of layer
    [i-1] less its bias unit where the code decrements it. *)
Definition count_fits (net : Ann) : Prop :=
  ∀ i, (1 ≤ i < LAYERS net)%nat →
       ((1 < i)%nat → fits_int (UNITS net (i - 1) - 1)) ∧
       fits_int (weights_of_layer net i).

Definition sum_Z (l : list Z) : Z := foldr Z.add 0 l.

Definition count_sum (net : Ann) : Z :=
  sum_Z (map (weights_of_layer net) (seq 1 (LAYERS net - 1))).

(** Every layer but the output layer carries a bias unit
    ([AnnCreateNet] passes [bias = i > 0]). *)
Definition carries_bias (i : nat) : bool := (0 <? i)%nat.

(** The count as the specification words it: over the non-input layers
    [d = 0 .. L-2], units of [d] times the units of the layer feeding it
    ([d+1]), less one when that layer carries a bias unit and is not the
    input layer. *)
Definition count_spec_term (net : Ann) (d : nat) : Z :=
  UNITS net d *
  (UNITS net (d + 1) -
   b2z (carries_bias (d + 1) && negb (d + 1 =? LAYERS net - 1)%nat)).

Definition count_spec (net : Ann) : Z :=
  sum_Z (map (count_spec_term net) (seq 0 (LAYERS net - 1))).

(** The same words with "previous" read as the preceding index: layer
    [d-1], which does not exist for the output layer. *)
Definition count_spec_index_term (net : Ann) (d : nat) : Z :=
  match d with
  | O => 0
  | S p => UNITS net d *
           (UNITS net p - b2z (carries_bias p && negb (p =? LAYERS net - 1)%nat))
  end.

Definition count_spec_index (net : Ann) : Z :=
  sum_Z (map (count_spec_index_term net) (seq 0 (LAYERS net - 1))).

(** ** What nn.h provides

    The header is not part of the sources at hand.  Its numeric constants
    and the macro [INPUT_UNITS] are taken as parameters; nothing is
    assumed about them. *)
Class NNHeader := {
  DEFAULT_RPROP_NMINUS : F;
  DEFAULT_RPROP_NPLUS : F;
  DEFAULT_RPROP_MAXUPDATE : F;
  DEFAULT_RPROP_MINUPDATE : F;
  RPROP_INITIAL_DELTA : F;
  DEFAULT_LEARN_RATE : F;
  NN_ALGO_BPROP : Z;
  NN_ALGO_GD : Z;
  INPUT_UNITS : Ann → Z
}.

(** Modelled from the spec: the macros [MIN] and [MAX] of nn.h, which is
    not among the sources; the spec writes [min(delta * increaseFactor,
    maxStep)] and [max(delta * decreaseFactor, minStep)]. *)
Definition MIN (a b : F) : F := if flt a b then a else b.
Definition MAX (a b : F) : F := if flt b a then a else b.

(** Modelled from the spec: the macro [WEIGHT(net,l,i,j)] of nn.h; the
    matrices are row-major by destination unit, one row of [units(l)]
    entries per destination [j], as [AnnSimulate] walks them. *)
Definition WEIGHT_index (net : Ann) (l i j : nat) : nat :=
  (j * count_of (UNITS net l) + i)%nat.

(** [for (j = lo; j < hi; j++) body] *)
Definition for_from {S : Type} (lo hi : nat) (body : nat → S → S) (s : S) : S :=
  foldl (λ s i, body i s) s (seq lo (hi - lo)).

(** ** Forward propagation *)

(** The loop [for (; k < units; k++) A += W*O] where [W] walks the
    weights from [weight + off], [O] the outputs from their start, and
    [A] starts at 0. *)
Definition dot (units : nat) (w : list F) (off : nat) (o : list F) : F :=
  for_loop units (λ k A, fadd A (fmul (rd w (off + k)) (rd o k))) fzero.

Section Transfer.
Context {FE : FloatExp F}.

(** [sigmoid]: [(float)1/(1+exp(-x))] *)
Definition sigmoid (x : F) : F := fdiv fone (fadd fone (fexp (fneg x))).

(** The body of the [j] loop of [AnnSimulate]: activation of destination
    unit [j] of layer [i-1] from the outputs and weights of layer [i]. *)
Definition sim_unit (i j : nat) (net : Ann) : Ann :=
  let units := count_of (units (lay net i)) in
  let w := weight (lay net i) in
  let o := output (lay net i) in
  let A := dot units w (j * units) o in
  upd_layer (i - 1) (λ l, set_output (<[j := sigmoid A]> (output l)) l) net.

(** The body of the [i] loop of [AnnSimulate]. *)
Definition sim_layer (i : nat) (net : Ann) : Ann :=
  let nextunits := units (lay net (i - 1)) in
  let nextunits := if (1 <? i)%nat then nextunits - 1 else nextunits in
  for_loop (count_of nextunits) (sim_unit i) net.

Definition AnnSimulate (net : Ann) : Ann :=
  for_down (LAYERS net - 1) sim_layer net.

(** The forward pass read layer by layer.  [activation src j] is what
    unit [j] of the next layer receives from layer [src]; [fwd src dst b]
    is [dst] once its first [units - b] outputs have been recomputed from
    [src]; [sim_list] runs through the layers from the input end, [pos]
    being the index of the head of the list. *)
Definition activation (src : AnnLayer) (j : nat) : F :=
  let u := count_of (units src) in
  sigmoid (dot u (weight src) (j * u) (output src)).

Definition fwd_outputs (src : AnnLayer) (n : nat) (o : list F) : list F :=
  for_loop n (λ j o, <[j := activation src j]> o) o.

Definition fwd (src dst : AnnLayer) (bias : bool) : AnnLayer :=
  set_output
    (fwd_outputs src (count_of (units dst - b2z bias)) (output dst)) dst.

Fixpoint sim_list (pos : nat) (ls : list AnnLayer) : list AnnLayer :=
  match ls with
  | [] => []
  | dst :: rest =>
      match sim_list (S pos) rest with
      | [] => [dst]
      | src :: rest' => fwd src dst (0 <? pos)%nat :: src :: rest'
      end
  end.

(** One step of the layer loop of [AnnSimulate], on the list of layers. *)
Definition sim_step (i : nat) (ls : list AnnLayer) : list AnnLayer :=
  alter (λ l, fwd (default null_layer (ls !! i)) l (1 <? i)%nat) (i - 1)%nat ls.

End Transfer.

(** ** Errors and gradients *)

Definition AnnGlobalError (net : Ann) (desired : list F) : F :=
  let outputs := count_of (OUTPUT_UNITS net) in
  let e := for_loop outputs
             (λ i e, let t := fsub (rd desired i) (rd (output (lay net 0)) i) in
                     fadd e (fmul t t)) fzero in
  fmul fhalf e.

Definition AnnCalculateOutputError (net : Ann) (desired : list F) : Ann :=
  let units := OUTPUT_UNITS net in
  let factor := fdiv (of_int 2) (of_int units) in
  for_loop (count_of units)
    (λ j net,
       upd_layer 0
         (λ l, set_error
                 (<[j := fmul factor (fsub (rd (output l) j) (rd desired j))]>
                    (error l)) l) net)
    net.

(** The body of the [i] loop of [AnnCalculateGradients] for unit [i] of
    layer [j]; [prev_layer] is layer [j+1]. *)
Definition grad_unit (j i : nat) (net : Ann) : Ann :=
  let prevunits := count_of (units (lay net (j + 1))) in
  let ei := rd (error (lay net j)) i in
  let oi := rd (output (lay net j)) i in
  let derivative := fmul oi (fsub fone oi) in
  let error_signal := fmul ei derivative in
  let net :=
    for_loop prevunits
      (λ k net,
         upd_layer (j + 1)
           (λ l, set_gradient
                   (<[(i * prevunits + k)%nat :=
                        fmul error_signal (rd (output l) k)]> (gradient l)) l)
           net) net in
  for_loop prevunits
    (λ k net,
       upd_layer (j + 1)
         (λ l, set_error
                 (<[k := fadd (rd (error l) k)
                           (fmul error_signal
                              (rd (weight l) (i * prevunits + k)))]>
                    (error l)) l)
         net) net.

Definition AnnCalculateGradients (net : Ann) (desired : list F) : Ann :=
  let layers := (LAYERS net - 1)%nat in
  let net := AnnCalculateOutputError net desired in
  for_loop layers
    (λ j net,
       let prevunits := count_of (units (lay net (j + 1))) in
       let units := units (lay net j) in
       let units := if (1 <? j)%nat then units - 1 else units in
       let net :=
         for_loop prevunits
           (λ i net,
              upd_layer (j + 1)
                (λ l, set_error (<[i := fzero]> (error l)) l) net) net in
       for_loop (count_of units) (grad_unit j) net)
    net.

(** ** Per-weight passes

    [AnnSetDeltas], [AnnResetSgradient], [AnnUpdateSgradient],
    [AnnUpdateDeltasGD] and [AnnAdjustWeights] share one loop nest: for
    every layer [j >= 1], for every [i < units(j) * units(j-1)]. *)
Definition each_weight (body : nat → nat → Ann → Ann) (net : Ann) : Ann :=
  for_from 1 (LAYERS net)
    (λ j net,
       let units := UNITS net j in
       let weights := count_of (units * UNITS net (j - 1)) in
       for_loop weights (body j) net)
    net.

Definition AnnSetDeltas (net : Ann) (val : F) : Ann :=
  each_weight
    (λ j i, upd_layer j (λ l, set_delta (<[i := val]> (delta l)) l)) net.

Definition AnnResetSgradient (net : Ann) : Ann :=
  each_weight
    (λ j i, upd_layer j (λ l, set_sgradient (<[i := fzero]> (sgradient l)) l))
    net.

Definition AnnUpdateSgradient (net : Ann) : Ann :=
  each_weight
    (λ j i,
       upd_layer j
         (λ l, set_sgradient
                 (<[i := fadd (rd (sgradient l) i) (rd (gradient l) i)]>
                    (sgradient l)) l))
    net.

Definition AnnUpdateDeltasGD (net : Ann) : Ann :=
  each_weight
    (λ j i,
       upd_layer j
         (λ l, set_delta
                 (<[i := fadd (rd (delta l) i) (rd (gradient l) i)]>
                    (delta l)) l))
    net.

Definition AnnAdjustWeights (net : Ann) (setlen : Z) : Ann :=
  each_weight
    (λ j i net,
       upd_layer j
         (λ l, set_weight
                 (<[i := fsub (rd (weight l) i)
                           (fmul (fdiv (learn_rate net) (of_int setlen))
                                 (rd (delta l) i))]>
                    (weight l)) l) net)
    net.

(** ** RPROP *)

Definition sign (n : F) : F :=
  if flt fzero n then of_int 1
  else if flt n fzero then of_int (-1)
  else of_int 0.

(** One weight of the RPROP rule, on the four numbers it reads; the
    result is the new weight, delta and pgradient. *)
Definition rprop_rule (net : Ann) (w d pg sg : F) : F * F * F :=
  let t := fmul pg sg in
  let delta := d in
  if flt fzero t then
    let delta := MIN (fmul delta (rprop_nplus net)) (rprop_maxupdate net) in
    let wdelta := fmul (fneg (sign sg)) delta in
    (fadd w wdelta, delta, sg)
  else if flt t fzero then
    let past_wdelta := fmul (fneg (sign pg)) delta in
    let delta := MAX (fmul delta (rprop_nminus net)) (rprop_minupdate net) in
    (fsub w past_wdelta, delta, of_int 0)
  else
    let wdelta := fmul (fneg (sign sg)) delta in
    (fadd w wdelta, d, sg).

(** The body of the [i] loop of [AnnAdjustWeightsResilientBP]. *)
Definition rprop_weight (j i : nat) (net : Ann) : Ann :=
  let l := lay net j in
  let '(w', d', pg') :=
    rprop_rule net (rd (weight l) i) (rd (delta l) i)
               (rd (pgradient l) i) (rd (sgradient l) i) in
  upd_layer j
    (λ l, set_pgradient (<[i := pg']> (pgradient l))
            (set_delta (<[i := d']> (delta l))
               (set_weight (<[i := w']> (weight l)) l))) net.

Definition AnnAdjustWeightsResilientBP (net : Ann) : Ann :=
  for_from 1 (LAYERS net)
    (λ j net,
       let units := UNITS net j in
       let weights :=
         count_of (units * UNITS net (j - 1) - b2z (0 <? j - 1)%nat) in
       for_loop weights (rprop_weight j) net)
    net.

(** ** Reading the RPROP loop

    What the proofs below say about a layer part-way through the loop. *)

(** [l'] is [l] after the rule has been applied to the weights below [n]. *)
Record rprop_upto (net : Ann) (l l' : AnnLayer) (n : nat) : Prop := {
  ru_units : units l' = units l;
  ru_output : output l' = output l;
  ru_error : error l' = error l;
  ru_gradient : gradient l' = gradient l;
  ru_sgradient : sgradient l' = sgradient l;
  ru_len_w : length (weight l') = length (weight l);
  ru_len_d : length (delta l') = length (delta l);
  ru_len_p : length (pgradient l') = length (pgradient l);
  ru_done : ∀ k, (k < n)%nat →
    (k < length (weight l))%nat → (k < length (delta l))%nat →
    (k < length (pgradient l))%nat →
    (rd (weight l') k, rd (delta l') k, rd (pgradient l') k) =
    rprop_rule net (rd (weight l) k) (rd (delta l) k) (rd (pgradient l) k)
               (rd (sgradient l) k);
  ru_todo : ∀ k, (n ≤ k)%nat →
    rd (weight l') k = rd (weight l) k ∧ rd (delta l') k = rd (delta l) k ∧
    rd (pgradient l') k = rd (pgradient l) k
}.

(** One weight: what [rprop_weight] does to the layer it works on. *)
Definition rprop_in_layer (net : Ann) (i : nat) (l : AnnLayer) : AnnLayer :=
  let '(w', d', pg') :=
    rprop_rule net (rd (weight l) i) (rd (delta l) i) (rd (pgradient l) i)
               (rd (sgradient l) i) in
  set_pgradient (<[i := pg']> (pgradient l))
    (set_delta (<[i := d']> (delta l)) (set_weight (<[i := w']> (weight l)) l)).

(** The bound of the inner loop for layer [j], as the code computes it. *)
Definition rprop_bound (net : Ann) (j : nat) : nat :=
  count_of (UNITS net j * UNITS net (j - 1) - b2z (0 <? j - 1)%nat).

(** The bound of the inner loop of the per-weight passes. *)
Definition weights_bound (net : Ann) (j : nat) : nat :=
  count_of (UNITS net j * UNITS net (j - 1)).

(** ** Epochs and the training loop *)
Section Training.
Context {FE : FloatExp F} {HD : NNHeader}.

(** [INPUT_NODE(net,i) = input[i]] for [i < INPUT_UNITS(net)] *)
Definition AnnSetInput (net : Ann) (input : list F) : Ann :=
  let inputs := count_of (INPUT_UNITS net) in
  for_loop inputs
    (λ i net,
       upd_layer (LAYERS net - 1)
         (λ l, set_output (<[i := rd input i]> (output l)) l) net)
    net.

Definition AnnSimulateError (net : Ann) (input desired : list F) : Ann * F :=
  let net := AnnSetInput net input in
  let net := AnnSimulate net in
  (net, AnnGlobalError net desired).

(** The data set is a flat array; [input += inputs] moves the pointer,
    which is [drop] on the remaining array. *)
Definition AnnResilientBPEpoch (net : Ann) (input desired : list F)
    (setlen : Z) : Ann * F :=
  let inputs := count_of (INPUT_UNITS net) in
  let outputs := count_of (OUTPUT_UNITS net) in
  let net := AnnResetSgradient net in
  let '(net, error, _, _) :=
    for_loop (count_of setlen)
      (λ j '(net, error, input, desired),
         let '(net, e) := AnnSimulateError net input desired in
         let error := fadd error e in
         let net := AnnCalculateGradients net desired in
         let net := AnnUpdateSgradient net in
         (net, error, drop inputs input, drop outputs desired))
      (net, fzero, input, desired) in
  let net := AnnAdjustWeightsResilientBP net in
  (net, fdiv error (of_int setlen)).

(** The body of the example loop of [AnnGDEpoch]. *)
Definition gd_example (setlen : Z) (inputs outputs : nat)
    (st : Ann * F * list F * list F) : Ann * F * list F * list F :=
  let '(net, error, input, desidered) := st in
  let net := AnnSetDeltas net fzero in
  let '(net, e) := AnnSimulateError net input desidered in
  let error := fadd error e in
  let net := AnnCalculateGradients net desidered in
  let net := AnnUpdateDeltasGD net in
  let net := AnnAdjustWeights net setlen in
  (net, error, drop inputs input, drop outputs desidered).

Definition AnnGDEpoch (net : Ann) (input desidered : list F) (setlen : Z)
    : Ann * F :=
  let inputs := count_of (INPUT_UNITS net) in
  let outputs := count_of (OUTPUT_UNITS net) in
  let '(net, error, _, _) :=
    for_loop (count_of setlen) (λ j, gd_example setlen inputs outputs)
      (net, fzero, input, desidered) in
  (net, fdiv error (of_int setlen)).

(** [while (i++ < maxepochs && e >= maxerr)]: the body runs for
    [i = 0 .. maxepochs-1] as long as [e >= maxerr]; [n] counts the
    epochs still allowed. *)
Fixpoint train_loop (n : nat) (net : Ann) (input desired : list F)
    (maxerr : F) (setlen algo : Z) (e : F) : Ann * F :=
  match n with
  | O => (net, e)
  | S n' =>
      if fle maxerr e then
        let '(net, e) :=
          if algo =? NN_ALGO_BPROP then
            AnnResilientBPEpoch net input desired setlen
          else if algo =? NN_ALGO_GD then
            AnnGDEpoch net input desired setlen
          else (net, e) in
        train_loop n' net input desired maxerr setlen algo e
      else (net, e)
  end.

Definition AnnTrain (net : Ann) (input desired : list F) (maxerr : F)
    (maxepochs setlen algo : Z) : Ann * F :=
  train_loop (count_of maxepochs) net input desired maxerr setlen algo
    (fadd maxerr (of_int 1)).

(** ** Construction (every allocation succeeding)

    What the arrays hold once [malloc] has succeeded everywhere; the
    failure paths are the subject of [Alloc] below.  [AnnAlloc] leaves
    [learn_rate] uninitialised: [junk] is whatever the fresh block held. *)
Definition AnnAlloc (layers : nat) (junk : F) : Ann :=
  mkAnn 0 DEFAULT_RPROP_NMINUS DEFAULT_RPROP_NPLUS DEFAULT_RPROP_MAXUPDATE
        DEFAULT_RPROP_MINUPDATE junk
        (for_loop layers (λ i ls, alter AnnResetLayer i ls)
           (replicate layers null_layer)).

Definition zeros (n : nat) : list F := replicate n fzero.

Definition AnnInitLayer (net : Ann) (i : nat) (units : Z) (bias : bool) : Ann :=
  let units := if bias then units + 1 else units in
  let n := count_of units in
  let nw := count_of (units * UNITS net (i - 1)) in
  let arr (old : list F) := if (0 <? i)%nat then zeros nw else old in
  let output := zeros n in
  let output :=
    if bias then <[count_of (units - 1) := fone]> output else output in
  upd_layer i
    (λ l, mkLayer units output (zeros n) (arr (weight l)) (arr (gradient l))
            (arr (sgradient l)) (arr (pgradient l)) (arr (delta l))) net.

Definition AnnSetRandomWeights (rnd : nat → F) (net : Ann) : Ann :=
  fst
    (for_from 1 (LAYERS net)
       (λ i st,
          for_loop (count_of (UNITS net (i - 1)))
            (λ k st,
               for_loop (count_of (UNITS net i))
                 (λ j '(net, c),
                    (upd_layer i
                       (λ l, set_weight
                               (<[WEIGHT_index net i j k := rnd c]> (weight l))
                               l) net,
                     S c))
                 st)
            st)
       (net, 0%nat)).

Definition set_learn_rate (v : F) (net : Ann) : Ann :=
  mkAnn (flags net) (rprop_nminus net) (rprop_nplus net) (rprop_maxupdate net)
        (rprop_minupdate net) v (layer net).

(** [units] lists the unit counts from the output to the input layer;
    [rnd c] is the value of the [c]-th random weight drawn. *)
Definition AnnCreateNet (layers : nat) (units : list Z) (rnd : nat → F)
    (junk : F) : Ann :=
  let net := AnnAlloc layers junk in
  let net :=
    for_loop layers
      (λ i net, AnnInitLayer net i (default 0 (units !! i)) (0 <? i)%nat) net in
  let net := AnnSetRandomWeights rnd net in
  let net := AnnSetDeltas net RPROP_INITIAL_DELTA in
  set_learn_rate DEFAULT_LEARN_RATE net.

(** [if (src) memcpy(dst, src, sizeof(float)*n)] *)
Definition memcpy (dst src : list F) (n : Z) : list F :=
  match src with
  | [] => dst
  | _ => take (count_of n) src ++ drop (count_of n) dst
  end.

(** The body of the layer loop of [AnnClone]. *)
Definition clone_layer (net : Ann) (j : nat) (copy : Ann) : Ann :=
  let units := UNITS net j in
  let bias := (0 <? j)%nat in
  let copy := AnnInitLayer copy j (units - b2z bias) bias in
  let lsrc := lay net j in
  let copy :=
    upd_layer j
      (λ ldst, set_error (memcpy (error ldst) (error lsrc) units)
                 (set_output (memcpy (output ldst) (output lsrc) units) ldst))
      copy in
  if (0 <? j)%nat then
    let weights := WEIGHTS net j in
    upd_layer j
      (λ ldst,
         set_sgradient (memcpy (sgradient ldst) (sgradient lsrc) weights)
           (set_delta (memcpy (delta ldst) (delta lsrc) weights)
              (set_pgradient (memcpy (pgradient ldst) (pgradient lsrc) weights)
                 (set_gradient (memcpy (gradient ldst) (gradient lsrc) weights)
                    (set_weight (memcpy (weight ldst) (weight lsrc) weights)
                       ldst)))))
      copy
  else copy.

Definition AnnClone (net : Ann) (junk : F) : Ann :=
  let copy := AnnAlloc (LAYERS net) junk in
  let copy := for_loop (LAYERS net) (clone_layer net) copy in
  mkAnn (flags net) (rprop_nminus net) (rprop_nplus net) (rprop_maxupdate net)
        (rprop_minupdate net) (learn_rate copy) (layer copy).

End Training.

End Net.

Arguments AnnLayer : clear implicits.
Arguments Ann : clear implicits.
Arguments NNHeader F : clear implicits.

(** ** Bias units

    Every layer but the output layer ends with a bias unit; its output
    is the last entry of the layer's output array. *)
Definition bias_ok {F : Type} {FO : FloatOps F} (net : Ann F) : Prop :=
  ∀ i, (1 ≤ i < LAYERS net)%nat →
       output (lay net i) !! count_of (UNITS net i - 1) = Some fone.

(** [net'] has the layers of [net], with the same unit counts and the
    same outputs. *)
Definition same_outputs {F : Type} (net net' : Ann F) : Prop :=
  LAYERS net' = LAYERS net ∧
  ∀ i, units (lay net' i) = units (lay net i) ∧
       output (lay net' i) = output (lay net i).


(** ** The gradient-descent epoch as the specification words it

    For each example in order: reset the deltas, set the input and
    simulate, add the example's global error, compute the gradients, add
    them to the deltas, adjust the weights.  Example [j] starts at offset
    [j * inputs] of the inputs and [j * outputs] of the desired outputs. *)
Section Protocol.
Context {F : Type} {FO : FloatOps F} {FE : FloatExp F} {HD : NNHeader F}.





End Protocol.

(** A net as [AnnCreateNet] builds it: output and error arrays of
    [units] entries, no weight arrays in layer 0, weight arrays of
    [units(i) * units(i-1)] entries in the other layers. *)
Definition wf_layer {F : Type} (i : nat) (prevunits : Z) (l : AnnLayer F)
    : Prop :=
  length (output l) = count_of (units l) ∧
  length (error l) = count_of (units l) ∧
  match i with
  | O => weight l = [] ∧ gradient l = [] ∧ sgradient l = [] ∧
         pgradient l = [] ∧ delta l = []
  | S _ =>
      let nw := count_of (units l * prevunits) in
      length (weight l) = nw ∧ length (gradient l) = nw ∧
      length (sgradient l) = nw ∧ length (pgradient l) = nw ∧
      length (delta l) = nw
  end.

Definition wf_net {F : Type} (net : Ann F) : Prop :=
  ∀ i l, layer net !! i = Some l → wf_layer i (UNITS net (i - 1)) l.

(** ** Two arithmetics for closed examples *)

(** Exact rationals, kept in lowest terms so that equal numbers are equal
    terms.  On the dyadic values used below every operation agrees with
    binary floating point. *)
#[global] Instance Q_ops : FloatOps Q := {|
  of_int := inject_Z;
  fadd a b := Qred (a + b);
  fsub a b := Qred (a - b);
  fmul a b := Qred (a * b);
  fdiv a b := Qred (a / b);
  fneg a := Qred (- a);
  flt a b := negb (Qle_bool b a);
  fle a b := Qle_bool a b;
  fhalf := (1 # 2)%Q
|}.

#[global] Instance Q_laws : FloatLaws Q.
Proof.
  split; intros w s d; simpl; apply Qred_complete;
    rewrite !Qred_correct; ring.
Qed.

(** Real numbers, with the real exponential. *)
#[global] Instance R_ops : FloatOps R := {|
  of_int := IZR;
  fadd := Rplus;
  fsub := Rminus;
  fmul := Rmult;
  fdiv := Rdiv;
  fneg := Ropp;
  flt a b := if Rlt_dec a b then true else false;
  fle a b := if Rle_dec a b then true else false;
  fhalf := (1 / 2)%R
|}.

#[global] Instance R_exp : FloatExp R := {| fexp := exp |}.

#[global] Instance R_laws : FloatLaws R.
Proof. split; intros w s d; simpl; ring. Qed.

(** Header values for the examples: the defaults the spec quotes, and
    [INPUT_UNITS] as the input layer without its bias unit. *)
Definition Q_header : NNHeader Q := {|
  DEFAULT_RPROP_NMINUS := (1 # 2)%Q;
  DEFAULT_RPROP_NPLUS := (6 # 5)%Q;
  DEFAULT_RPROP_MAXUPDATE := (50 # 1)%Q;
  DEFAULT_RPROP_MINUPDATE := (1 # 1000000)%Q;
  RPROP_INITIAL_DELTA := (1 # 10)%Q;
  DEFAULT_LEARN_RATE := (1 # 10)%Q;
  NN_ALGO_BPROP := 0;
  NN_ALGO_GD := 1;
  INPUT_UNITS := λ net, UNITS net (LAYERS net - 1) - 1
|}.

Definition R_header : NNHeader R := {|
  DEFAULT_RPROP_NMINUS := (1 / 2)%R;
  DEFAULT_RPROP_NPLUS := (6 / 5)%R;
  DEFAULT_RPROP_MAXUPDATE := 50%R;
  DEFAULT_RPROP_MINUPDATE := (1 / 1000000)%R;
  RPROP_INITIAL_DELTA := (1 / 10)%R;
  DEFAULT_LEARN_RATE := (1 / 10)%R;
  NN_ALGO_BPROP := 0;
  NN_ALGO_GD := 1;
  INPUT_UNITS := λ net, UNITS net (LAYERS net - 1) - 1
|}.

(** ** Construction seen by the allocator

    The same [AnnAlloc], [AnnInitLayer], [AnnFree], [AnnCreateNet] and
    [AnnClone], keeping only what concerns memory: which blocks are live
    and which pointers the structures hold.  An oracle decides the outcome
    of each successive [malloc]; [nfail] counts the requests refused. *)
Module Alloc.

Record heap := mkHeap {
  live : gset nat;
  oracle : list bool;
  nfail : nat
}.

(** A pointer is [None] (NULL) or the name of a block. *)
Definition ptr := option nat.

Definition malloc (h : heap) : ptr * heap :=
  match oracle h with
  | false :: o => (None, mkHeap (live h) o (S (nfail h)))
  | true :: o =>
      let a := fresh (live h) in (Some a, mkHeap ({[a]} ∪ live h) o (nfail h))
  | [] =>
      let a := fresh (live h) in (Some a, mkHeap ({[a]} ∪ live h) [] (nfail h))
  end.

(** [free(NULL)] does nothing. *)
Definition free (p : ptr) (h : heap) : heap :=
  match p with
  | None => h
  | Some a => mkHeap (live h ∖ {[a]}) (oracle h) (nfail h)
  end.

Record alayer := mkALayer {
  a_units : Z;
  a_output : ptr;
  a_error : ptr;
  a_weight : ptr;
  a_gradient : ptr;
  a_pgradient : ptr;
  a_delta : ptr;
  a_sgradient : ptr
}.

Record anet := mkANet {
  a_self : nat;
  a_layer : nat;
  a_layers : list alayer
}.

Definition areset : alayer := mkALayer 0 None None None None None None None.

Definition AnnAlloc (layers : nat) (h : heap) : option anet * heap :=
  match malloc h with
  | (None, h) => (None, h)
  | (Some net, h) =>
      match malloc h with
      | (None, h) => (None, free (Some net) h)
      | (Some lb, h) => (Some (mkANet net lb (replicate layers areset)), h)
      end
  end.

Definition AnnFreeLayer (l : alayer) (h : heap) : alayer * heap :=
  let h := free (a_output l) h in
  let h := free (a_error l) h in
  let h := free (a_weight l) h in
  let h := free (a_gradient l) h in
  let h := free (a_pgradient l) h in
  let h := free (a_delta l) h in
  let h := free (a_sgradient l) h in
  (areset, h).

(** The net structure is gone afterwards; only the heap remains. *)
Definition AnnFree (net : anet) (h : heap) : heap :=
  let h := foldl (λ h l, snd (AnnFreeLayer l h)) h (a_layers net) in
  let h := free (Some (a_layer net)) h in
  free (Some (a_self net)) h.

Definition is_null (p : ptr) : bool :=
  match p with None => true | Some _ => false end.

(** Returns [true] (non-zero) on out of memory. *)
Definition AnnInitLayer (net : anet) (i : nat) (units : Z) (bias : bool)
    (h : heap) : bool * anet * heap :=
  let units := if bias then units + 1 else units in
  let old := default areset (a_layers net !! i) in
  let '(output, h) := malloc h in
  let '(error, h) := malloc h in
  let '(weight, gradient, pgradient, delta, sgradient, h) :=
    if (0 <? i)%nat then
      let '(weight, h) := malloc h in
      let '(gradient, h) := malloc h in
      let '(pgradient, h) := malloc h in
      let '(delta, h) := malloc h in
      let '(sgradient, h) := malloc h in
      (weight, gradient, pgradient, delta, sgradient, h)
    else
      (a_weight old, a_gradient old, a_pgradient old, a_delta old,
       a_sgradient old, h) in
  let l := mkALayer units output error weight gradient pgradient delta
                    sgradient in
  let i_ := (0 <? i)%nat in
  if is_null output || is_null error ||
     (i_ && is_null weight) || (i_ && is_null gradient) ||
     (i_ && is_null pgradient) || (i_ && is_null sgradient) ||
     (i_ && is_null delta)
  then
    let '(l, h) := AnnFreeLayer l h in
    (true, mkANet (a_self net) (a_layer net) (<[i := areset]> (a_layers net)), h)
  else
    (false, mkANet (a_self net) (a_layer net) (<[i := l]> (a_layers net)), h).

(** The layer loop of [AnnCreateNet] and of [AnnClone], over the layers
    still to initialise; [units_of i] is the count passed for layer [i]. *)
Fixpoint init_layers (todo : list nat) (units_of : nat → Z) (net : anet)
    (h : heap) : option anet * heap :=
  match todo with
  | [] => (Some net, h)
  | i :: todo =>
      let '(oom, net, h) := AnnInitLayer net i (units_of i) (0 <? i)%nat h in
      if oom then (None, AnnFree net h)
      else init_layers todo units_of net h
  end.

Definition AnnCreateNet (layers : nat) (units : list Z) (h : heap)
    : option anet * heap :=
  match AnnAlloc layers h with
  | (None, h) => (None, h)
  | (Some net, h) =>
      init_layers (seq 0 layers) (λ i, default 0 (units !! i)) net h
  end.

(** [src_units] are the unit counts of the layers of the source net. *)
Definition AnnClone (src_units : list Z) (h : heap) : option anet * heap :=
  match AnnAlloc (length src_units) h with
  | (None, h) => (None, h)
  | (Some copy, h) =>
      init_layers (seq 0 (length src_units))
        (λ j, default 0 (src_units !! j) - b2z (0 <? j)%nat) copy h
  end.

(** The blocks a structure points to. *)
Definition oset (p : ptr) : gset nat :=
  match p with Some a => {[a]} | None => ∅ end.

Definition layer_blocks (l : alayer) : gset nat :=
  oset (a_output l) ∪ oset (a_error l) ∪ oset (a_weight l) ∪
  oset (a_gradient l) ∪ oset (a_pgradient l) ∪ oset (a_delta l) ∪
  oset (a_sgradient l).

Definition net_blocks (net : anet) : gset nat :=
  {[a_self net]} ∪ {[a_layer net]} ∪ ⋃ (layer_blocks <$> a_layers net).

(** A layer is complete when every array it needs is allocated. *)
Definition layer_complete (i : nat) (l : alayer) : Prop :=
  is_Some (a_output l) ∧ is_Some (a_error l) ∧
  (0 < i → is_Some (a_weight l) ∧ is_Some (a_gradient l) ∧
           is_Some (a_pgradient l) ∧ is_Some (a_delta l) ∧
           is_Some (a_sgradient l))%nat.

Definition net_complete (layers : nat) (net : anet) : Prop :=
  length (a_layers net) = layers ∧
  ∀ i l, a_layers net !! i = Some l → layer_complete i l.

(** 1 for a request that was refused, 0 for one that was served. *)
Definition served (p : ptr) : nat := match p with Some _ => 0 | None => 1 end.

(** The state of the layer loop before layer [k]: the layers below [k]
    are complete, the others reset, and the net owns exactly the blocks
    allocated since the heap held [live0]. *)
Definition building (n : nat) (live0 : gset nat) (k : nat) (net : anet)
    (h : heap) : Prop :=
  length (a_layers net) = n ∧
  (∀ i l, (i < k)%nat → a_layers net !! i = Some l → layer_complete i l) ∧
  (∀ i, (k ≤ i < n)%nat → a_layers net !! i = Some areset) ∧
  live h = net_blocks net ∪ live0 ∧ net_blocks net ## live0.

End Alloc.

(** * More of nn.c

    The remaining numeric functions of the file, on the same data model. *)

(** [a == b] on [float], as [AnnTestClassError] uses it. *)
Class FloatEq (F : Type) := { feq : F → F → bool }.

(** [<] on [float] is irreflexive and transitive, NaN included. *)
Class FloatOrder (F : Type) `{FloatOps F} := {
  flt_irrefl : ∀ a : F, flt a a = false;
  flt_trans : ∀ a b c : F, flt a b = true → flt b c = true → flt a c = true
}.

(** Addition as it is in exact arithmetic: associative and commutative.
    Addition on [float] is not. *)
Class FloatAddLaws (F : Type) `{FloatOps F} := {
  fadd_assoc : ∀ a b c : F, fadd (fadd a b) c = fadd a (fadd b c);
  fadd_comm : ∀ a b : F, fadd a b = fadd b a
}.

(** The literal [0.001] that nn.c names [GTRIVIAL_DELTA]. *)
Class TrivialDelta (F : Type) := { GTRIVIAL_DELTA : F }.

(** ** Which arrays an operation may write

    A mask names the arrays of a layer that may differ; [frame m l l']
    says that [l'] has the unit count of [l], arrays of the same lengths,
    and the same contents in every array outside the mask. *)
Record mask := mkMask {
  m_output : bool;
  m_error : bool;
  m_weight : bool;
  m_gradient : bool;
  m_sgradient : bool;
  m_pgradient : bool;
  m_delta : bool
}.

Definition same_unless {A : Type} (b : bool) (x y : list A) : Prop :=
  length y = length x ∧ (b = false → y = x).

Definition frame {F : Type} (m : mask) (l l' : AnnLayer F) : Prop :=
  units l' = units l ∧
  same_unless (m_output m) (output l) (output l') ∧
  same_unless (m_error m) (error l) (error l') ∧
  same_unless (m_weight m) (weight l) (weight l') ∧
  same_unless (m_gradient m) (gradient l) (gradient l') ∧
  same_unless (m_sgradient m) (sgradient l) (sgradient l') ∧
  same_unless (m_pgradient m) (pgradient l) (pgradient l') ∧
  same_unless (m_delta m) (delta l) (delta l').

Definition net_frame {F : Type} (m : mask) (net net' : Ann F) : Prop :=
  hyper net' = hyper net ∧ LAYERS net' = LAYERS net ∧
  ∀ i, frame m (lay net i) (lay net' i).

(** A mask that allows less. *)
Definition mask_le (m m' : mask) : Prop :=
  (m_output m = true → m_output m' = true) ∧
  (m_error m = true → m_error m' = true) ∧
  (m_weight m = true → m_weight m' = true) ∧
  (m_gradient m = true → m_gradient m' = true) ∧
  (m_sgradient m = true → m_sgradient m' = true) ∧
  (m_pgradient m = true → m_pgradient m' = true) ∧
  (m_delta m = true → m_delta m' = true).

Definition only_output : mask := mkMask true false false false false false false.
Definition only_error : mask := mkMask false true false false false false false.
Definition only_weight : mask := mkMask false false true false false false false.
Definition only_sgradient : mask :=
  mkMask false false false false true false false.
Definition error_gradient : mask :=
  mkMask false true false true false false false.
Definition output_gradient : mask :=
  mkMask true false false true false false false.
Definition rprop_arrays : mask := mkMask false false true false false true true.
Definition only_delta : mask := mkMask false false false false false false true.
Definition accumulation : mask := mkMask true true false true true false false.
Definition gd_arrays : mask := mkMask true true true true false false true.
Definition any_array : mask := mkMask true true true true true true true.

Section More.
Context {F : Type} {FO : FloatOps F}.

(** ** What a forward pass reads

    [sim_written net i] is the number of outputs of layer [i] that
    [AnnSimulate] writes: none in the last layer, all but the bias slot
    in the others.  [same_inputs w net s] says that [s] has the layers of
    [net] with the same unit counts and weights, output arrays of the
    same lengths, and the same outputs from index [w i] on in layer [i]. *)
Definition sim_written (net : Ann F) (i : nat) : nat :=
  if (S i <? LAYERS net)%nat then count_of (UNITS net i - b2z (0 <? i)%nat)
  else 0%nat.

Definition same_inputs (w : nat → nat) (net s : Ann F) : Prop :=
  LAYERS s = LAYERS net ∧
  ∀ i, units (lay s i) = units (lay net i) ∧
       weight (lay s i) = weight (lay net i) ∧
       length (output (lay s i)) = length (output (lay net i)) ∧
       ∀ k, (w i ≤ k)%nat → output (lay s i) !! k = output (lay net i) !! k.

(** ** The forward pass of the build with [USE_AVX]

    [avx_horizontal_sum x] adds the eight lanes of [x] pairwise, as the
    intrinsics of the function do: lanes [i] and [i+4], then the sums of
    lanes 0 and 2 and of lanes 1 and 3, then the two halves. *)
Definition avx_horizontal_sum (x : nat → F) : F :=
  let sumQuad i := fadd (x i) (x (i + 4)%nat) in
  let sumDual i := fadd (sumQuad i) (sumQuad (i + 2)%nat) in
  fadd (sumDual 0%nat) (sumDual 1%nat).

(** The activation loop with [USE_AVX]: [units/8] blocks of eight
    products summed by [avx_horizontal_sum], then the remaining products
    one by one from [k = 8*psteps]. *)
Definition dot_avx (units : Z) (w : list F) (off : nat) (o : list F) : F :=
  let psteps := count_of (units ÷ 8) in
  let A :=
    for_loop psteps
      (λ x A,
         let prod i := fmul (rd w (off + (8 * x + i))) (rd o (8 * x + i)) in
         fadd A (avx_horizontal_sum prod))
      fzero in
  for_from (8 * psteps) (count_of units)
    (λ k A, fadd A (fmul (rd w (off + k)) (rd o k))) A.

Section TransferAVX.
Context {FE : FloatExp F}.

Definition sim_unit_avx (i j : nat) (net : Ann F) : Ann F :=
  let units := units (lay net i) in
  let w := weight (lay net i) in
  let o := output (lay net i) in
  let A := dot_avx units w (j * count_of units) o in
  upd_layer (i - 1) (λ l, set_output (<[j := sigmoid A]> (output l)) l) net.

Definition sim_layer_avx (i : nat) (net : Ann F) : Ann F :=
  let nextunits := units (lay net (i - 1)) in
  let nextunits := if (1 <? i)%nat then nextunits - 1 else nextunits in
  for_loop (count_of nextunits) (sim_unit_avx i) net.

Definition AnnSimulate_avx (net : Ann F) : Ann F :=
  for_down (LAYERS net - 1) sim_layer_avx net.

End TransferAVX.

(** [relu] *)
Definition relu (x : F) : F := if flt fzero x then x else of_int 0.


(** ** What [AnnCreateNet] builds

    Layer [i] gets the count passed for it, plus one for the bias unit
    when [i > 0]; [created_layer units i w d] is that layer with weights
    [w] and deltas [d]: outputs and errors 0 but for the bias output,
    which is 1, and gradients 0. *)
Definition created_units (units : list Z) (i : nat) : Z :=
  default 0 (units !! i) + b2z (0 <? i)%nat.

Definition created_weights (units : list Z) (i : nat) : nat :=
  if (0 <? i)%nat
  then count_of (created_units units i * created_units units (i - 1))
  else 0%nat.

Definition created_layer (units : list Z) (i : nat) (w d : list F)
    : AnnLayer F :=
  let u := created_units units i in
  let n := count_of u in
  let z := zeros (created_weights units i) in
  mkLayer u
    (if (0 <? i)%nat then <[count_of (u - 1) := fone]> (zeros n) else zeros n)
    (zeros n) w z z z d.

Section Create.
Context {HD : NNHeader F}.

(** [AnnCreateNet4], [AnnCreateNet3], [AnnCreateNet2]: the array of unit
    counts runs from the output layer to the input layer. *)
Definition AnnCreateNet4 (iunits hunits hunits2 ounits : Z) (rnd : nat → F)
    (junk : F) : Ann F :=
  AnnCreateNet 4 [ounits; hunits2; hunits; iunits] rnd junk.

Definition AnnCreateNet3 (iunits hunits ounits : Z) (rnd : nat → F)
    (junk : F) : Ann F :=
  AnnCreateNet 3 [ounits; hunits; iunits] rnd junk.

Definition AnnCreateNet2 (iunits ounits : Z) (rnd : nat → F) (junk : F)
    : Ann F :=
  AnnCreateNet 2 [ounits; iunits] rnd junk.

End Create.

(** ** AnnCalculateGradientsTrivial *)
Section Trivial.
Context {FE : FloatExp F} {TD : TrivialDelta F}.

(** [net->layer[j].weight[i] += GTRIVIAL_DELTA] *)
Definition bump_weight (j i : nat) (net : Ann F) : Ann F :=
  upd_layer j
    (λ l, set_weight (<[i := fadd (rd (weight l) i) GTRIVIAL_DELTA]> (weight l)) l)
    net.

(** The body of the [i] loop: the error before and after moving weight
    [i] of layer [j] by [GTRIVIAL_DELTA], the weight put back. *)
Definition trivial_weight (desired : list F) (j i : nat) (net : Ann F)
    : Ann F :=
  let net := AnnSimulate net in
  let e1 := AnnGlobalError net desired in
  let t := rd (weight (lay net j)) i in
  let net := bump_weight j i net in
  let net := AnnSimulate net in
  let e2 := AnnGlobalError net desired in
  let net := upd_layer j (λ l, set_weight (<[i := t]> (weight l)) l) net in
  upd_layer j
    (λ l, set_gradient
            (<[i := fdiv (fsub e2 e1) GTRIVIAL_DELTA]> (gradient l)) l)
    net.

Definition AnnCalculateGradientsTrivial (net : Ann F) (desired : list F)
    : Ann F :=
  each_weight (trivial_weight desired) net.

(** The quotient the function is after: the change of the global error
    of [net] when weight [i] of layer [j] alone moves by
    [GTRIVIAL_DELTA], over [GTRIVIAL_DELTA]. *)
Definition finite_difference (net : Ann F) (desired : list F) (j i : nat) : F :=
  fdiv
    (fsub (AnnGlobalError (AnnSimulate (bump_weight j i net)) desired)
          (AnnGlobalError (AnnSimulate net) desired))
    GTRIVIAL_DELTA.

End Trivial.

(** ** Testing *)
Section Test.
Context {FQ : FloatEq F}.

(** [for (i = 0; i < outputs; i++) if (desired[i] == 1) break;] from
    index [i] with [n] iterations left; the result is the final [i]. *)
Fixpoint class_scan (desired : list F) (n i : nat) : nat :=
  match n with
  | O => i
  | S n' =>
      if feq (rd desired i) (of_int 1) then i
      else class_scan desired n' (S i)
  end.

(** The loop that looks for the largest output; the state is
    [(outid, max)]. *)
Definition class_max (out : list F) (outputs : nat) : nat * F :=
  for_from 1 outputs
    (λ i '(outid, max),
       let o := rd out i in
       if flt max o then (i, o) else (outid, max))
    (0%nat, rd out 0).

Definition AnnTestClassError (net : Ann F) (desired : list F) : Z :=
  let outputs := count_of (OUTPUT_UNITS net) in
  let classid := class_scan desired outputs 0 in
  let outid := fst (class_max (output (lay net 0)) outputs) in
  b2z (negb (outid =? classid)%nat).

Context {FE : FloatExp F} {HD : NNHeader F}.

(** The body of the example loop of [AnnTestError]; [classerr] tells
    whether the caller passed a place for the class error. *)
Definition test_example (classerr : bool) (inputs outputs : nat)
    (st : Ann F * F * Z * list F * list F) : Ann F * F * Z * list F * list F :=
  let '(net, error, class_errors, input, desired) := st in
  let '(net, e) := AnnSimulateError net input desired in
  let error := fadd error e in
  let class_errors :=
    if classerr then (class_errors + AnnTestClassError net desired)%Z
    else class_errors in
  (net, error, class_errors, drop inputs input, drop outputs desired).

(** [avgerr] and [classerr] tell which of the two result pointers are
    not NULL; a result is [None] when its pointer is NULL. *)
Definition AnnTestError (net : Ann F) (input desired : list F) (setlen : Z)
    (avgerr classerr : bool) : Ann F * option F * option F :=
  let inputs := count_of (INPUT_UNITS net) in
  let outputs := count_of (OUTPUT_UNITS net) in
  let '(net, error, class_errors, _, _) :=
    for_loop (count_of setlen) (λ j, test_example classerr inputs outputs)
      (net, fzero, 0%Z, input, desired) in
  (net,
   if avgerr then Some (fdiv error (of_int setlen)) else None,
   if classerr then
     Some (fdiv (fmul (of_int class_errors) (of_int 100)) (of_int setlen))
   else None).

(** The outputs that setting an input and simulating may write: as for
    [AnnSimulate], and the first [INPUT_UNITS] of the last layer. *)
Definition test_written (net : Ann F) (i : nat) : nat :=
  if (S i <? LAYERS net)%nat then sim_written net i
  else count_of (INPUT_UNITS net).

(** [INPUT_UNITS] looks at the layer count and the unit counts only. *)
Definition input_units_by_shape (net : Ann F) : Prop :=
  ∀ s, LAYERS s = LAYERS net →
       (∀ i, units (lay s i) = units (lay net i)) →
       INPUT_UNITS s = INPUT_UNITS net.

(** ** The RPROP epoch and the training loop, step by step *)

(** The net and the accumulated error after the first [n] examples of an
    RPROP epoch, starting from a net whose set-wise gradients are reset. *)
Fixpoint rprop_protocol (inputs outputs : nat) (net : Ann F)
    (input desired : list F) (n : nat) : Ann F * F :=
  match n with
  | O => (AnnResetSgradient net, fzero)
  | S j =>
      let '(net_j, error) := rprop_protocol inputs outputs net input desired j in
      let x := drop (j * inputs) input in
      let d := drop (j * outputs) desired in
      let net1 := AnnSimulate (AnnSetInput net_j x) in
      (AnnUpdateSgradient (AnnCalculateGradients net1 d),
       fadd error (AnnGlobalError net1 d))
  end.

(** One pass of the body of the loop of [AnnTrain]. *)
Definition train_epoch (input desired : list F) (setlen algo : Z)
    (st : Ann F * F) : Ann F * F :=
  if (algo =? NN_ALGO_BPROP)%Z then
    AnnResilientBPEpoch st.1 input desired setlen
  else if (algo =? NN_ALGO_GD)%Z then
    AnnGDEpoch st.1 input desired setlen
  else st.

(** The net and the last error after [k] passes, from the state [st]. *)
Fixpoint train_states (input desired : list F) (setlen algo : Z)
    (st : Ann F * F) (k : nat) : Ann F * F :=
  match k with
  | O => st
  | S k' =>
      train_epoch input desired setlen algo
        (train_states input desired setlen algo st k')
  end.

End Test.

(** ** Back-propagation, layer by layer *)

(** The error signal of unit [i] of the current layer. *)
Definition error_signal (cur : AnnLayer F) (i : nat) : F :=
  let ei := rd (error cur) i in
  let oi := rd (output cur) i in
  fmul ei (fmul oi (fsub fone oi)).

(** Row [i] of the gradients, and the contribution of unit [i] to the
    errors of the previous layer. *)
Definition grad_row (sig : F) (o : list F) (p i : nat) (g : list F) : list F :=
  for_loop p (λ k g, <[(i * p + k)%nat := fmul sig (rd o k)]> g) g.

Definition err_acc (sig : F) (w : list F) (p i : nat) (e : list F) : list F :=
  for_loop p
    (λ k e, <[k := fadd (rd e k) (fmul sig (rd w (i * p + k)))]> e) e.

(** What one pass of the layer loop of [AnnCalculateGradients] makes of
    the previous layer [prev], [cur] being the current layer and [n] the
    number of its units the loop visits. *)
Definition back (cur : AnnLayer F) (n : nat) (prev : AnnLayer F) : AnnLayer F :=
  let p := count_of (units prev) in
  let e0 := for_loop p (λ i e, <[i := fzero]> e) (error prev) in
  set_error
    (for_loop n
       (λ i e, err_acc (error_signal cur i) (weight prev) p i e) e0)
    (set_gradient
       (for_loop n
          (λ i g, grad_row (error_signal cur i) (output prev) p i g)
          (gradient prev))
       prev).

(** The number of units of layer [j] the loop visits. *)
Definition back_bound (net : Ann F) (j : nat) : nat :=
  count_of (UNITS net j - b2z (1 <? j)%nat).

End More.

(** ** What back-propagation reads

    [err_written net i] and [grad_written net i] are the numbers of
    leading errors and gradients of layer [i] that
    [AnnCalculateGradients] writes.  [same_gradient_inputs net s] says
    that [s] has the layers of [net] with the same unit counts, weights
    and outputs, error and gradient arrays of the same lengths, and the
    same errors and gradients from those indices on. *)
Definition err_written {F : Type} (net : Ann F) (i : nat) : nat :=
  count_of (UNITS net i).

Definition grad_written {F : Type} (net : Ann F) (i : nat) : nat :=
  match i with
  | O => 0%nat
  | S j => (count_of (UNITS net j - b2z (1 <? j)%nat) *
            count_of (UNITS net (S j)))%nat
  end.

Definition same_gradient_inputs {F : Type} (net s : Ann F) : Prop :=
  LAYERS s = LAYERS net ∧
  ∀ i, units (lay s i) = units (lay net i) ∧
       weight (lay s i) = weight (lay net i) ∧
       output (lay s i) = output (lay net i) ∧
       length (error (lay s i)) = length (error (lay net i)) ∧
       length (gradient (lay s i)) = length (gradient (lay net i)) ∧
       (∀ k, (err_written net i ≤ k)%nat →
             error (lay s i) !! k = error (lay net i) !! k) ∧
       (∀ k, (grad_written net i ≤ k)%nat →
             gradient (lay s i) !! k = gradient (lay net i) !! k).


(** The new interfaces at the two example arithmetics. *)
#[global] Instance Q_eq : FloatEq Q := {| feq a b := Qeq_bool a b |}.

#[global] Instance Q_order : FloatOrder Q.
Proof.
  split.
  - intros a. simpl. rewrite (proj2 (Qle_bool_iff a a)); [reflexivity|].
    apply Qle_refl.
  - intros a b c. simpl. rewrite !negb_true_iff.
    intros Hab Hbc.
    destruct (Qle_bool c a) eqn:Hca; [|reflexivity].
    apply Qle_bool_iff in Hca.
    assert (Hba : ¬ (b <= a)%Q) by (rewrite <- Qle_bool_iff; congruence).
    assert (Hcb : ¬ (c <= b)%Q) by (rewrite <- Qle_bool_iff; congruence).
    apply Qnot_le_lt in Hba, Hcb.
    exfalso. apply (Qlt_irrefl a).
    eapply Qlt_le_trans; [exact Hba|].
    eapply Qle_trans; [apply Qlt_le_weak; exact Hcb | exact Hca].
Qed.

#[global] Instance Q_add_laws : FloatAddLaws Q.
Proof.
  split.
  - intros a b c. simpl. apply Qred_complete.
    rewrite !Qred_correct. symmetry. apply Qplus_assoc.
  - intros a b. simpl. apply Qred_complete. apply Qplus_comm.
Qed.

#[global] Instance R_add_laws : FloatAddLaws R.
Proof. split; intros; simpl; ring. Qed.

#[global] Instance R_eq : FloatEq R := {|
  feq a b := if Req_dec_T a b then true else false
|}.

#[global] Instance Q_delta : TrivialDelta Q := {|
  GTRIVIAL_DELTA := (1 # 1000)%Q
|}.

#[global] Instance R_delta : TrivialDelta R := {|
  GTRIVIAL_DELTA := (1 / 1000)%R
|}.

(** ** Example networks *)

(** A created net with one output, two hidden and two input units; with
    the bias units the layers hold 1, 3 and 3 units. *)
Definition net_133 : Ann Q :=
  AnnCreateNet (HD := Q_header) 3 [1; 2; 2]
    (λ c, inject_Z (Z.of_nat c + 1)) (7 # 1)%Q.


(** A three-layer net (1, 2 and 2 units) after a forward pass, with the
    gradient array of layer 2 holding 7 everywhere; the last unit of
    layer 1 is its bias unit, with output 1. *)
Definition net_grad : Ann Q :=
  let q (z : Z) : Q := inject_Z z in
  mkAnn 0 (1 # 2)%Q (3 # 2)%Q (q 50) (1 # 1024)%Q (1 # 8)%Q
    [ mkLayer 1 [(1 # 2)%Q] [q 0] [] [] [] [] [];
      mkLayer 2 [(1 # 2)%Q; q 1] [q 0; q 0] [q 1; q 1] [q 0; q 0] [q 0; q 0]
              [q 0; q 0] [q 0; q 0];
      mkLayer 2 [q 1; q 1] [q 0; q 0] [q 1; q 1; q 1; q 1]
              [q 7; q 7; q 7; q 7] [q 0; q 0; q 0; q 0]
              [q 0; q 0; q 0; q 0] [q 0; q 0; q 0; q 0] ].

(** A two-layer net over the reals: one input unit holding 0 and the
    bias unit, two output units both holding 1 before the pass; each
    output unit weighs the input by 1 and the bias by 0. *)
Definition net_sim : Ann R :=
  mkAnn 0 (1 / 2)%R (6 / 5)%R 50%R (1 / 1000000)%R (1 / 10)%R
    [ mkLayer 2 [1%R; 1%R] [0%R; 0%R] [] [] [] [] [];
      mkLayer 2 [0%R; 1%R] [0%R; 0%R] [1%R; 0%R; 1%R; 0%R]
              [0%R; 0%R; 0%R; 0%R] [0%R; 0%R; 0%R; 0%R]
              [0%R; 0%R; 0%R; 0%R] [0%R; 0%R; 0%R; 0%R] ].

(** Two layers of 65537 and 65536 units, the arrays left out: only the
    unit counts matter to [AnnCountWeights]. *)
Definition net_wide : Ann Q :=
  mkAnn 0 (1 # 2)%Q (3 # 2)%Q (50 # 1)%Q (1 # 1024)%Q (1 # 8)%Q
    [ mkLayer 65537 [] [] [] [] [] [] [];
      mkLayer 65536 [] [] [] [] [] [] [] ].

(** A heap with no live block whose allocator serves six requests and
    refuses the seventh. *)
Definition heap_fail7 : Alloc.heap :=
  Alloc.mkHeap ∅ [true; true; true; true; true; true; false] 0.

(** ** More example networks *)

(** [net_sim] with other values in the outputs that a forward pass
    overwrites. *)
Definition net_sim_stale : Ann R :=
  mkAnn 0 (1 / 2)%R (6 / 5)%R 50%R (1 / 1000000)%R (1 / 10)%R
    [ mkLayer 2 [5%R; 7%R] [0%R; 0%R] [] [] [] [] [];
      mkLayer 2 [0%R; 1%R] [0%R; 0%R] [1%R; 0%R; 1%R; 0%R]
              [0%R; 0%R; 0%R; 0%R] [0%R; 0%R; 0%R; 0%R]
              [0%R; 0%R; 0%R; 0%R] [0%R; 0%R; 0%R; 0%R] ].

(** [net_grad] with other values in the errors and gradients that
    back-propagation overwrites. *)
Definition net_grad_stale : Ann Q :=
  let q (z : Z) : Q := inject_Z z in
  mkAnn 0 (1 # 2)%Q (3 # 2)%Q (q 50) (1 # 1024)%Q (1 # 8)%Q
    [ mkLayer 1 [(1 # 2)%Q] [q 9] [] [] [] [] [];
      mkLayer 2 [(1 # 2)%Q; q 1] [q 9; q 9] [q 1; q 1] [q 3; q 3] [q 0; q 0]
              [q 0; q 0] [q 0; q 0];
      mkLayer 2 [q 1; q 1] [q 9; q 9] [q 1; q 1; q 1; q 1]
              [q 0; q 0; q 0; q 0] [q 0; q 0; q 0; q 0]
              [q 0; q 0; q 0; q 0] [q 0; q 0; q 0; q 0] ].

(** A net with two output units, the second with the larger output. *)
Definition net_class : Ann Q :=
  let q (z : Z) : Q := inject_Z z in
  mkAnn 0 (1 # 2)%Q (3 # 2)%Q (q 50) (1 # 1024)%Q (1 # 8)%Q
    [ mkLayer 2 [(1 # 4)%Q; (3 # 4)%Q] [q 0; q 0] [] [] [] [] [];
      mkLayer 2 [q 0; q 1] [q 0; q 0] [q 1; q 1; q 1; q 1]
              [q 0; q 0; q 0; q 0] [q 0; q 0; q 0; q 0]
              [q 0; q 0; q 0; q 0] [q 0; q 0; q 0; q 0] ].

(** A heap with no live block whose allocator never refuses. *)
Definition heap_free : Alloc.heap := Alloc.mkHeap ∅ [] 0.

(** * Properties *)

Section Loops.
Context {S : Type}.
Implicit Types (body : nat → S → S) (s : S).

Lemma for_loop_0 body s : for_loop 0 body s = s.
Proof. reflexivity. Qed.

Lemma for_loop_S n body s :
  for_loop (Datatypes.S n) body s = body n (for_loop n body s).
Proof.
  unfold for_loop. rewrite seq_S, foldl_app. reflexivity.
Qed.

Lemma for_down_0 body s : for_down 0 body s = s.
Proof. reflexivity. Qed.

Lemma for_down_S n body s :
  for_down (Datatypes.S n) body s = for_down n body (body (Datatypes.S n) s).
Proof.
  unfold for_down. rewrite seq_S, rev_app_distr. reflexivity.
Qed.

Lemma for_from_nil lo hi body s : (hi ≤ lo)%nat → for_from lo hi body s = s.
Proof.
  intros Hle. unfold for_from. replace (hi - lo)%nat with 0%nat by lia.
  reflexivity.
Qed.

Lemma for_from_S lo hi body s :
  (lo ≤ hi)%nat →
  for_from lo (Datatypes.S hi) body s = body hi (for_from lo hi body s).
Proof.
  intros Hle. unfold for_from.
  replace (Datatypes.S hi - lo)%nat with (Datatypes.S (hi - lo)) by lia.
  rewrite seq_S, foldl_app. simpl.
  replace (lo + (hi - lo))%nat with hi by lia. reflexivity.
Qed.

(** A loop whose body preserves an invariant preserves it. *)
Lemma for_loop_inv (P : S → Prop) n body s :
  P s → (∀ i s, (i < n)%nat → P s → P (body i s)) → P (for_loop n body s).
Proof.
  intros Hs Hstep. induction n as [|n IH]; [exact Hs|].
  rewrite for_loop_S. apply Hstep; [lia|]. apply IH.
  intros i s' Hi. apply Hstep. lia.
Qed.

Lemma for_from_inv (P : S → Prop) lo hi body s :
  P s → (∀ i s, (lo ≤ i < hi)%nat → P s → P (body i s)) →
  P (for_from lo hi body s).
Proof.
  intros Hs Hstep. induction hi as [|hi IH].
  - rewrite for_from_nil by lia. exact Hs.
  - destruct (decide (lo ≤ hi)%nat) as [Hle|Hgt].
    + rewrite for_from_S by exact Hle. apply Hstep; [lia|].
      apply IH. intros i s' Hi. apply Hstep. lia.
    + rewrite for_from_nil by lia. exact Hs.
Qed.

Lemma for_down_inv (P : S → Prop) n body s :
  P s → (∀ i s, (1 ≤ i ≤ n)%nat → P s → P (body i s)) → P (for_down n body s).
Proof.
  revert s. induction n as [|n IH]; intros s Hs Hstep; [exact Hs|].
  rewrite for_down_S. apply IH.
  - apply Hstep; [lia|exact Hs].
  - intros i s' Hi. apply Hstep. lia.
Qed.

End Loops.

(** ** Counting weights *)
Section CountWeights.
Context {F : Type} {FO : FloatOps F}.
Implicit Types net : Ann F.

Lemma to_size_t_idem z : to_size_t (to_size_t z) = to_size_t z.
Proof. unfold to_size_t. apply Z.mod_mod. lia. Qed.

Lemma to_size_t_add_l a b : to_size_t (to_size_t a + b) = to_size_t (a + b).
Proof. unfold to_size_t. apply Zplus_mod_idemp_l. Qed.

Lemma sum_Z_app l1 l2 : sum_Z (l1 ++ l2) = sum_Z l1 + sum_Z l2.
Proof.
  unfold sum_Z. induction l1 as [|x l1 IH]; simpl; [reflexivity|].
  rewrite IH. lia.
Qed.

Lemma to_int_fits z : fits_int z → to_int z = z.
Proof.
  unfold fits_int, to_int. intros Hz.
  rewrite Z.mod_small by lia. lia.
Qed.

Lemma count_body_term net i :
  ((1 < i)%nat → fits_int (UNITS net (i - 1) - 1)) →
  fits_int (weights_of_layer net i) →
  (let nextunits := units (lay net (i - 1)) in
   let units := units (lay net i) in
   let nextunits :=
     if (1 <? i)%nat then to_int (nextunits - 1) else nextunits in
   to_int (units * nextunits)) = weights_of_layer net i.
Proof.
  unfold weights_of_layer, UNITS, b2z. cbv zeta. intros Hd Hp.
  destruct (Nat.ltb_spec 1 i) as [Hlt|Hge].
  - rewrite (to_int_fits _ (Hd Hlt)). apply to_int_fits, Hp.
  - rewrite Z.sub_0_r in Hp. rewrite Z.sub_0_r. apply to_int_fits, Hp.
Qed.

Lemma count_loop net n acc :
  (∀ i, (1 ≤ i ≤ n)%nat →
        ((1 < i)%nat → fits_int (UNITS net (i - 1) - 1)) ∧
        fits_int (weights_of_layer net i)) →
  acc = to_size_t acc →
  for_down n
    (λ i weights,
       let nextunits := units (lay net (i - 1)) in
       let units := units (lay net i) in
       let nextunits :=
         if (1 <? i)%nat then to_int (nextunits - 1) else nextunits in
       to_size_t (weights + to_int (units * nextunits))) acc
  = to_size_t (acc + sum_Z (map (weights_of_layer net) (seq 1 n))).
Proof.
  revert acc. induction n as [|n IH]; intros acc Hfit Hacc.
  - simpl. rewrite Z.add_0_r. exact Hacc.
  - rewrite for_down_S.
    rewrite IH by (try (symmetry; apply to_size_t_idem);
                   intros i Hi; apply Hfit; lia).
    destruct (Hfit (Datatypes.S n) ltac:(lia)) as [Hd Hp].
    pose proof (count_body_term net (Datatypes.S n) Hd Hp) as Hb.
    cbv beta zeta in Hb |- *. rewrite Hb. rewrite to_size_t_add_l.
    rewrite seq_S, map_app, sum_Z_app. simpl.
    f_equal. lia.
Qed.

(** While no [int] overflows, the count is the closed-form sum, in
    [size_t] arithmetic. *)
Lemma AnnCountWeights_mod net :
  count_fits net →
  AnnCountWeights net = to_size_t (count_sum net).
Proof.
  intros Hfit. unfold AnnCountWeights, count_sum.
  rewrite count_loop; [reflexivity | | reflexivity].
  intros i Hi. apply Hfit. lia.
Qed.

(** C4, as amended: when no [int] overflows on the way (for every layer
    [i >= 1] the product of its units and the units of layer [i-1] less
    the bias fits an [int], as does that decremented count) and the
    total fits a [size_t], [AnnCountWeights] returns the sum over the
    layers [i = 1 .. L-1] (all but the output layer) of the units of
    layer [i] times the units of layer [i-1], the latter less one when
    layer [i-1] carries a bias unit, that is when it is not the output
    layer. *)
Theorem AnnCountWeights_sum net :
  count_fits net →
  0 ≤ count_sum net < 2 ^ 64 →
  AnnCountWeights net = count_sum net.
Proof.
  intros Hint Hfit. rewrite AnnCountWeights_mod by exact Hint.
  unfold to_size_t. apply Z.mod_small. exact Hfit.
Qed.

End CountWeights.

Lemma count_fits_net_133 : count_fits net_133.
Proof.
  intros i Hi. change (LAYERS net_133) with 3%nat in Hi.
  destruct i as [|[|[|i]]]; [lia | | | lia];
    (split; [intros _|]); unfold fits_int; vm_compute;
    (split; [discriminate | reflexivity]).
Qed.

Lemma AnnCountWeights_sum_witness :
  count_fits net_133 ∧ 0 ≤ count_sum net_133 < 2 ^ 64 ∧
  AnnCountWeights net_133 = count_sum net_133.
Proof.
  assert (H : 0 ≤ count_sum net_133 < 2 ^ 64)
    by (vm_compute; split; [discriminate | reflexivity]).
  split; [exact count_fits_net_133|]. split; [exact H|].
  apply (AnnCountWeights_sum net_133 count_fits_net_133 H).
Defined.

(** Why the products must fit: with 65537 and 65536 units in two layers
    the total fits a [size_t], but the product does not fit an [int] and
    the count is the wrapped product, not the sum. *)
Lemma AnnCountWeights_int_overflow :
  0 ≤ count_sum net_wide < 2 ^ 64 ∧
  count_sum net_wide = 4295032832 ∧
  AnnCountWeights net_wide = 65536 ∧
  ¬ count_fits net_wide.
Proof.
  split; [vm_compute; split; [discriminate | reflexivity]|].
  split; [reflexivity|]. split; [reflexivity|].
  intros H. destruct (H 1%nat) as [_ [_ Hp]].
  - change (LAYERS net_wide) with 2%nat. lia.
  - vm_compute in Hp. discriminate.
Qed.

(** C4, as stated, fails on a created three-layer net: the code counts 9
    weights, the sum over the non-input layers counts 11 when "previous"
    is the layer feeding a layer, and 3 when it is the preceding index. *)
Lemma AnnCountWeights_not_spec :
  (2 ≤ LAYERS net_133)%nat ∧
  AnnCountWeights net_133 = 9 ∧
  count_spec net_133 = 11 ∧
  count_spec_index net_133 = 3 ∧
  AnnCountWeights net_133 ≠ count_spec net_133 ∧
  AnnCountWeights net_133 ≠ count_spec_index net_133.
Proof.
  repeat split; try (vm_compute; lia); vm_compute; discriminate.
Qed.

(** ** Layers of a net: reading after an update *)
Section Frame.
Context {F : Type} {FO : FloatOps F}.
Implicit Types (net : Ann F) (l : AnnLayer F) (a : list F).


Lemma LAYERS_upd_layer j f net : LAYERS (upd_layer j f net) = LAYERS net.
Proof. unfold LAYERS, upd_layer. simpl. apply length_alter. Qed.

Lemma hyper_upd_layer j f net : hyper (upd_layer j f net) = hyper net.
Proof. reflexivity. Qed.

Lemma lay_upd_layer_eq j f net :
  (j < LAYERS net)%nat → lay (upd_layer j f net) j = f (lay net j).
Proof.
  intros Hj. unfold lay, upd_layer, LAYERS in *. simpl.
  rewrite list_lookup_alter_eq.
  destruct (lookup_lt_is_Some_2 _ _ Hj) as [l Hl]. rewrite Hl. reflexivity.
Qed.

Lemma lay_upd_layer_ne j k f net :
  j ≠ k → lay (upd_layer j f net) k = lay net k.
Proof.
  intros Hne. unfold lay, upd_layer. simpl.
  rewrite list_lookup_alter_ne by exact Hne. reflexivity.
Qed.

Lemma upd_layer_ge j f net : (LAYERS net ≤ j)%nat → upd_layer j f net = net.
Proof.
  intros Hj. unfold upd_layer, LAYERS in *. destruct net as [a b c d e g ls].
  unfold set_layers. simpl in *. f_equal.
  apply list_eq. intros k. destruct (decide (j = k)) as [->|Hne].
  - rewrite list_lookup_alter_eq. rewrite (lookup_ge_None_2 ls k) by lia.
    reflexivity.
  - apply list_lookup_alter_ne. exact Hne.
Qed.

Lemma UNITS_upd_layer j k f net :
  (∀ l, units (f l) = units l) → UNITS (upd_layer j f net) k = UNITS net k.
Proof.
  intros Hf. unfold UNITS. destruct (decide (j = k)) as [->|Hne].
  - destruct (decide (k < LAYERS net)%nat) as [Hlt|Hge].
    + rewrite lay_upd_layer_eq by exact Hlt. apply Hf.
    + rewrite upd_layer_ge by lia. reflexivity.
  - rewrite lay_upd_layer_ne by exact Hne. reflexivity.
Qed.

Lemma rd_insert_eq a i v : (i < length a)%nat → rd (<[i := v]> a) i = v.
Proof. intros Hi. unfold rd. rewrite list_lookup_insert_eq by exact Hi. reflexivity. Qed.

Lemma rd_insert_ne a i k v : i ≠ k → rd (<[i := v]> a) k = rd a k.
Proof. intros Hne. unfold rd. rewrite list_lookup_insert_ne by exact Hne. reflexivity. Qed.

End Frame.

(** ** The RPROP update *)
Section RPROP.
Context {F : Type} {FO : FloatOps F}.
Implicit Types (net : Ann F) (l : AnnLayer F).

Lemma rprop_rule_hyper net net' w d pg sg :
  hyper net' = hyper net → rprop_rule net' w d pg sg = rprop_rule net w d pg sg.
Proof.
  unfold hyper. intros Hh. injection Hh as _ Hm Hp Hx Hn _.
  unfold rprop_rule. rewrite Hm, Hp, Hx, Hn. reflexivity.
Qed.

Lemma rprop_upto_0 net l : rprop_upto net l l 0.
Proof. constructor; try reflexivity; [lia | done]. Qed.

Lemma rprop_weight_lay j i net :
  (j < LAYERS net)%nat →
  lay (rprop_weight j i net) j = rprop_in_layer net i (lay net j).
Proof.
  intros Hj. unfold rprop_weight, rprop_in_layer.
  destruct (rprop_rule _ _ _ _ _) as [[w' d'] pg'].
  rewrite lay_upd_layer_eq by exact Hj. reflexivity.
Qed.

Lemma rprop_weight_other j i k net :
  j ≠ k → lay (rprop_weight j i net) k = lay net k.
Proof.
  intros Hne. unfold rprop_weight.
  destruct (rprop_rule _ _ _ _ _) as [[w' d'] pg'].
  apply lay_upd_layer_ne. exact Hne.
Qed.

Lemma rprop_weight_hyper j i net : hyper (rprop_weight j i net) = hyper net.
Proof.
  unfold rprop_weight. destruct (rprop_rule _ _ _ _ _) as [[w' d'] pg'].
  reflexivity.
Qed.

Lemma rprop_weight_LAYERS j i net : LAYERS (rprop_weight j i net) = LAYERS net.
Proof.
  unfold rprop_weight. destruct (rprop_rule _ _ _ _ _) as [[w' d'] pg'].
  apply LAYERS_upd_layer.
Qed.

Lemma rprop_upto_S net0 net l l' n :
  hyper net = hyper net0 →
  rprop_upto net0 l l' n → rprop_upto net0 l (rprop_in_layer net n l') (S n).
Proof.
  intros Hh [Hu Ho He Hg Hs Hlw Hld Hlp Hdone Htodo].
  destruct (Htodo n (le_n n)) as (Hw & Hd & Hp).
  unfold rprop_in_layer. rewrite Hw, Hd, Hp, Hs.
  rewrite (rprop_rule_hyper net0 net) by exact Hh.
  destruct (rprop_rule net0 _ _ _ _) as [[w' d'] pg'] eqn:Hrule.
  constructor; simpl; try assumption.
  - rewrite length_insert. exact Hlw.
  - rewrite length_insert. exact Hld.
  - rewrite length_insert. exact Hlp.
  - intros k Hk Hkw Hkd Hkp. destruct (decide (k = n)) as [->|Hne].
    + rewrite !rd_insert_eq by lia. symmetry. exact Hrule.
    + rewrite !rd_insert_ne by congruence. apply Hdone; lia.
  - intros k Hk. rewrite !rd_insert_ne by lia. apply Htodo. lia.
Qed.

(** The inner loop on layer [j]. *)
Lemma rprop_inner net0 j n :
  (j < LAYERS net0)%nat →
  let net' := for_loop n (rprop_weight j) net0 in
  hyper net' = hyper net0 ∧ LAYERS net' = LAYERS net0 ∧
  (∀ k, k ≠ j → lay net' k = lay net0 k) ∧
  rprop_upto net0 (lay net0 j) (lay net' j) n.
Proof.
  intros Hj. induction n as [|n IH]; simpl.
  - split_and!; try done. apply rprop_upto_0.
  - rewrite for_loop_S. destruct IH as (Hh & HL & Hother & Hup).
    split_and!.
    + rewrite rprop_weight_hyper. exact Hh.
    + rewrite rprop_weight_LAYERS. exact HL.
    + intros k Hk. rewrite rprop_weight_other by congruence. apply Hother, Hk.
    + rewrite rprop_weight_lay by lia. apply rprop_upto_S; assumption.
Qed.

(** The outer loop, layers [1 .. m-1] done. *)
Lemma rprop_outer net0 m :
  (m ≤ LAYERS net0)%nat →
  let net' :=
    for_from 1 m
      (λ j net,
         let units := UNITS net j in
         let weights :=
           count_of (units * UNITS net (j - 1) - b2z (0 <? j - 1)%nat) in
         for_loop weights (rprop_weight j) net) net0 in
  hyper net' = hyper net0 ∧ LAYERS net' = LAYERS net0 ∧
  (∀ k, (k < 1 ∨ m ≤ k)%nat → lay net' k = lay net0 k) ∧
  (∀ j, (1 ≤ j < m)%nat →
        rprop_upto net0 (lay net0 j) (lay net' j) (rprop_bound net0 j)).
Proof.
  induction m as [|m IH]; intros Hm.
  - simpl. split_and!; try done. intros j Hj. lia.
  - destruct (decide (1 ≤ m)%nat) as [H1|H0].
    2:{ simpl. rewrite for_from_nil by lia. split_and!; try done.
        intros j Hj; lia. }
    simpl. rewrite for_from_S by exact H1.
    destruct IH as (Hh & HL & Hout & Hin); [lia|].
    set (net1 := for_from 1 m _ net0) in *.
    assert (Hb : count_of (UNITS net1 m * UNITS net1 (m - 1) -
                           b2z (0 <? m - 1)%nat) = rprop_bound net0 m).
    { unfold rprop_bound, UNITS. rewrite (Hout m) by lia.
      destruct (decide (m - 1 < 1)%nat).
      - rewrite (Hout (m - 1)%nat) by lia. reflexivity.
      - destruct (Hin (m - 1)%nat) as [Hu _ _ _ _ _ _ _ _ _]; [lia|].
        rewrite Hu. reflexivity. }
    cbv zeta. rewrite Hb.
    destruct (rprop_inner net1 m (rprop_bound net0 m)) as (Hh2 & HL2 & Ho2 & Hup2);
      [lia|].
    split_and!.
    + rewrite Hh2. exact Hh.
    + rewrite HL2. exact HL.
    + intros k Hk. rewrite Ho2 by lia. apply Hout. lia.
    + intros j Hj. destruct (decide (j = m)) as [->|Hne].
      * rewrite <- (Hout m) by lia.
        destruct Hup2 as [Hu Ho He Hg Hs Hlw Hld Hlp Hdone Htodo].
        constructor; try assumption.
        intros k Hk Hkw Hkd Hkp.
        rewrite <- (rprop_rule_hyper net0 net1) by exact Hh.
        apply Hdone; assumption.
      * rewrite Ho2 by exact Hne. apply Hin. lia.
Qed.


End RPROP.

Section RPROP_rule.
Context {F : Type} {FO : FloatOps F} {FL : FloatLaws F}.
Implicit Types (net : Ann F).



End RPROP_rule.



(** ** Back-propagation on a net with a hidden layer *)

(** C2 at a failing input.  Layer 1 of [net_grad] carries a bias unit
    (its unit 1, output 1).  [AnnCalculateGradients] shortens the
    destination loop only for [j > 1], so for [j = 1] it also runs for
    the bias unit: row 1 of layer 2's gradient (entries 2 and 3) is
    overwritten, from 7 to 0, where the comment in the code and the
    specification exclude bias units as destinations. *)
Lemma AnnCalculateGradients_bias_destination :
  let q (z : Z) : Q := inject_Z z in
  let net' := AnnCalculateGradients net_grad [q 0] in
  UNITS net_grad 1 = 2 ∧
  rd (output (lay net_grad 1)) 1 = q 1 ∧
  gradient (lay net_grad 2) = [q 7; q 7; q 7; q 7] ∧
  gradient (lay net' 2) = [(1 # 16)%Q; (1 # 16)%Q; q 0; q 0] ∧
  error (lay net' 1) = [(1 # 4)%Q; (1 # 4)%Q].
Proof. cbv zeta. split_and!; vm_compute; reflexivity. Qed.

(** ** Training with an unknown algorithm code *)
Section Train.
Context {F : Type} {FO : FloatOps F} {FE : FloatExp F} {HD : NNHeader F}.
Implicit Types (net : Ann F) (input desired : list F).

Lemma train_loop_other n net input desired maxerr setlen algo e :
  algo ≠ NN_ALGO_BPROP → algo ≠ NN_ALGO_GD →
  train_loop n net input desired maxerr setlen algo e = (net, e).
Proof.
  intros Hb Hg. apply Z.eqb_neq in Hb, Hg.
  induction n as [|n IH]; simpl; [reflexivity|].
  rewrite Hb, Hg. destruct (fle maxerr e); [exact IH | reflexivity].
Qed.

(** C10: with an algorithm code that is neither [NN_ALGO_BPROP] nor
    [NN_ALGO_GD], [AnnTrain] returns the net exactly as it received it
    (every array and every hyperparameter) together with [maxerr + 1]. *)
Theorem AnnTrain_other_algo net input desired maxerr maxepochs setlen algo :
  algo ≠ NN_ALGO_BPROP → algo ≠ NN_ALGO_GD →
  AnnTrain net input desired maxerr maxepochs setlen algo =
  (net, fadd maxerr (of_int 1)).
Proof.
  intros Hb Hg. unfold AnnTrain. apply train_loop_other; assumption.
Qed.

End Train.

Lemma AnnTrain_other_algo_witness :
  2 ≠ NN_ALGO_BPROP (NNHeader := R_header) ∧
  2 ≠ NN_ALGO_GD (NNHeader := R_header) ∧
  AnnTrain (HD := R_header) net_sim [0%R] [1%R; 1%R] (1 / 100)%R 1000 1 2 =
  (net_sim, ((1 / 100) + 1)%R).
Proof.
  assert (Hb : 2 ≠ NN_ALGO_BPROP (NNHeader := R_header)) by (simpl; lia).
  assert (Hg : 2 ≠ NN_ALGO_GD (NNHeader := R_header)) by (simpl; lia).
  split; [exact Hb|]. split; [exact Hg|].
  exact (AnnTrain_other_algo (HD := R_header) net_sim [0%R] [1%R; 1%R]
           (1 / 100)%R 1000 1 2 Hb Hg).
Defined.

(** ** Cloning *)
Section Clone.
Context {F : Type} {FO : FloatOps F} {HD : NNHeader F}.
Implicit Types (net copy : Ann F).

Lemma AnnInitLayer_hyper copy i u b :
  hyper (AnnInitLayer copy i u b) = hyper copy.
Proof. reflexivity. Qed.

Lemma clone_layer_hyper net j copy :
  hyper (clone_layer net j copy) = hyper copy.
Proof. unfold clone_layer. destruct (0 <? j)%nat; reflexivity. Qed.

(** The clone's learning rate is whatever its fresh block held: the
    source's is never copied. *)
Lemma AnnClone_learn_rate net junk : learn_rate (AnnClone net junk) = junk.
Proof.
  unfold AnnClone. simpl.
  assert (H : hyper (for_loop (LAYERS net) (clone_layer net)
                       (AnnAlloc (LAYERS net) junk))
              = hyper (AnnAlloc (LAYERS net) junk)).
  { apply (for_loop_inv (λ c, hyper c = hyper (AnnAlloc (LAYERS net) junk)));
      [reflexivity|].
    intros i s _ Hs. rewrite clone_layer_hyper. exact Hs. }
  unfold hyper in H. injection H as _ _ _ _ _ H. exact H.
Qed.

End Clone.

(** C5 at a failing input: cloning the created net [net_133] (learning
    rate 1/10) into memory that held 7 yields a copy with the same
    layers, flags and RPROP parameters but learning rate 7. *)
Lemma AnnClone_drops_learn_rate :
  let copy := AnnClone (HD := Q_header) net_133 (7 # 1)%Q in
  layer copy = layer net_133 ∧
  learn_rate net_133 = (1 # 10)%Q ∧
  learn_rate copy = (7 # 1)%Q ∧
  learn_rate copy ≠ learn_rate net_133.
Proof.
  cbv zeta. split_and!; try (vm_compute; reflexivity).
  vm_compute. discriminate.
Qed.

(** ** The forward pass *)
Section Simulate.
Context {F : Type} {FO : FloatOps F} {FE : FloatExp F}.
Implicit Types (net : Ann F) (l src dst : AnnLayer F) (ls : list (AnnLayer F)).

Lemma set_layers_layer net : set_layers (layer net) net = net.
Proof. destruct net. reflexivity. Qed.

Lemma set_output_output l : set_output (output l) l = l.
Proof. destruct l. reflexivity. Qed.

Lemma fwd_outputs_S src n (o : list F) :
  fwd_outputs src (S n) o = <[n := activation src n]> (fwd_outputs src n o).
Proof. unfold fwd_outputs. rewrite for_loop_S. reflexivity. Qed.

Lemma fwd_outputs_length src n (o : list F) :
  length (fwd_outputs src n o) = length o.
Proof.
  induction n as [|n IH]; [reflexivity|].
  rewrite fwd_outputs_S, length_insert. exact IH.
Qed.

(** The recomputed outputs, entry by entry: the first [n] hold the
    activations, the others are as before. *)
Lemma fwd_outputs_lookup src n (o : list F) k :
  fwd_outputs src n o !! k =
  if decide (k < n)%nat then (λ _, activation src k) <$> o !! k else o !! k.
Proof.
  induction n as [|n IH].
  - destruct (decide (k < 0)%nat); [lia | reflexivity].
  - rewrite fwd_outputs_S, list_lookup_insert, fwd_outputs_length.
    destruct (decide (n = k ∧ (n < length o)%nat)) as [[-> Hlt]|Hn].
    + destruct (decide (k < S k)%nat); [|lia].
      destruct (lookup_lt_is_Some_2 o k Hlt) as [x ->]. reflexivity.
    + rewrite IH. destruct (decide (k < n)%nat), (decide (k < S n)%nat);
        try lia; try reflexivity.
      assert (k = n) as -> by lia.
      rewrite (lookup_ge_None_2 o n) by lia. reflexivity.
Qed.

Lemma fwd_outputs_idem src n (o : list F) :
  fwd_outputs src n (fwd_outputs src n o) = fwd_outputs src n o.
Proof.
  apply list_eq. intros k. rewrite !fwd_outputs_lookup.
  destruct (decide (k < n)%nat); [|reflexivity].
  destruct (o !! k); reflexivity.
Qed.

Lemma fwd_idem src dst b : fwd src (fwd src dst b) b = fwd src dst b.
Proof. unfold fwd. simpl. rewrite fwd_outputs_idem. reflexivity. Qed.

(** The inner loop writes the first [n] outputs of layer [i-1]. *)
Lemma sim_layer_loop i n net :
  (1 ≤ i)%nat →
  for_loop n (sim_unit i) net =
  upd_layer (i - 1)
    (λ l, set_output (fwd_outputs (lay net i) n (output l)) l) net.
Proof.
  intros Hi. induction n as [|n IH].
  - unfold upd_layer. simpl.
    rewrite list_alter_id by (intros l; apply set_output_output).
    symmetry. apply set_layers_layer.
  - rewrite for_loop_S, IH. unfold sim_unit.
    rewrite lay_upd_layer_ne by lia.
    unfold upd_layer, set_layers. simpl. f_equal.
    rewrite list_alter_alter_eq. apply list_alter_ext; [|reflexivity].
    intros l _. simpl. rewrite fwd_outputs_S. reflexivity.
Qed.

Lemma sim_body i net :
  (1 ≤ i)%nat →
  sim_layer i net = set_layers (sim_step i (layer net)) net.
Proof.
  intros Hi. unfold sim_layer. cbv zeta. rewrite sim_layer_loop by exact Hi.
  unfold upd_layer, sim_step. f_equal.
  apply list_alter_ext; [|reflexivity].
  intros l Hl. unfold fwd, lay. rewrite Hl. simpl.
  destruct (1 <? i)%nat; simpl; rewrite ?Z.sub_0_r; reflexivity.
Qed.

Lemma for_down_foldr {S : Type} n (body : nat → S → S) s :
  for_down n body s = foldr body s (seq 1 n).
Proof.
  revert s. induction n as [|n IH]; intros s; [reflexivity|].
  rewrite for_down_S, IH, seq_S, foldr_app. reflexivity.
Qed.

Lemma sim_list_length p ls : length (sim_list p ls) = length ls.
Proof.
  revert p. induction ls as [|dst rest IH]; intros p; [reflexivity|].
  simpl. specialize (IH (S p)).
  destruct (sim_list (S p) rest) as [|src rest']; simpl in *; lia.
Qed.

(** The steps [L-1, ..., |pre|+1] leave [pre] alone and run the pass on
    the rest. *)
Lemma sim_foldr suf pre :
  foldr sim_step (pre ++ suf) (seq (S (length pre)) (length suf - 1))
  = pre ++ sim_list (length pre) suf.
Proof.
  revert pre. induction suf as [|dst suf IH]; intros pre; [reflexivity|].
  destruct suf as [|src rest]; [reflexivity|].
  replace (length (dst :: src :: rest) - 1)%nat with (S (length rest))
    by (simpl; lia).
  cbn [seq foldr].
  specialize (IH (pre ++ [dst])).
  rewrite length_app in IH. change (length [dst]) with 1%nat in IH.
  rewrite Nat.add_1_r in IH.
  replace (length (src :: rest) - 1)%nat with (length rest) in IH
    by (simpl; lia).
  rewrite <- app_assoc in IH. change ([dst] ++ src :: rest) with
    (dst :: src :: rest) in IH.
  rewrite IH. clear IH.
  change (sim_list (length pre) (dst :: src :: rest)) with
    (match sim_list (S (length pre)) (src :: rest) with
     | [] => [dst]
     | src' :: rest' => fwd src' dst (0 <? length pre)%nat :: src' :: rest'
     end).
  pose proof (sim_list_length (S (length pre)) (src :: rest)) as Hlen.
  destruct (sim_list (S (length pre)) (src :: rest)) as [|src' rest'];
    [simpl in Hlen; lia|].
  rewrite <- app_assoc. change ([dst] ++ src' :: rest') with
    (dst :: src' :: rest').
  unfold sim_step.
  replace (S (length pre) - 1)%nat with (length pre + 0)%nat by lia.
  rewrite alter_app_r. simpl. f_equal. f_equal.
  rewrite lookup_app_r by lia.
  replace (S (length pre) - length pre)%nat with 1%nat by lia.
  reflexivity.
Qed.

Lemma sim_foldr_net net idx :
  Forall (λ i, 1 ≤ i)%nat idx →
  foldr sim_layer net idx = set_layers (foldr sim_step (layer net) idx) net.
Proof.
  induction 1 as [|i idx Hi _ IH]; cbn [foldr].
  - symmetry. apply set_layers_layer.
  - rewrite IH. rewrite (sim_body i) by exact Hi. reflexivity.
Qed.

(** [AnnSimulate] is the pass over the list of layers. *)
Lemma AnnSimulate_sim_list net :
  AnnSimulate net = set_layers (sim_list 0 (layer net)) net.
Proof.
  unfold AnnSimulate. rewrite for_down_foldr, sim_foldr_net.
  - f_equal. apply (sim_foldr (layer net) []).
  - apply Forall_forall. intros i Hi. apply elem_of_seq in Hi. lia.
Qed.

Lemma sim_list_idem p ls : sim_list p (sim_list p ls) = sim_list p ls.
Proof.
  revert p. induction ls as [|dst rest IH]; intros p; [reflexivity|].
  simpl. specialize (IH (S p)).
  destruct (sim_list (S p) rest) as [|src rest'] eqn:Hr; [reflexivity|].
  cbn [sim_list]. cbn [sim_list] in IH. rewrite IH.
  rewrite fwd_idem. reflexivity.
Qed.

(** C9: a second forward pass changes nothing.  Every array of every
    layer, outputs included, is after two calls what it is after one. *)
Theorem AnnSimulate_idempotent net :
  AnnSimulate (AnnSimulate net) = AnnSimulate net.
Proof.
  rewrite (AnnSimulate_sim_list (AnnSimulate net)).
  rewrite AnnSimulate_sim_list. unfold set_layers. simpl.
  rewrite sim_list_idem. reflexivity.
Qed.

End Simulate.

Section SimulateLayers.
Context {F : Type} {FO : FloatOps F} {FE : FloatExp F}.
Implicit Types (net : Ann F) (l src dst : AnnLayer F) (ls : list (AnnLayer F)).

(** Each layer after the pass: recomputed from the layer behind it, as
    that layer is after the pass; the last layer is left as it was. *)
Lemma sim_list_lookup ls p i dst :
  ls !! i = Some dst →
  sim_list p ls !! i =
  Some (match sim_list p ls !! S i with
        | Some src => fwd src dst (0 <? p + i)%nat
        | None => dst
        end).
Proof.
  revert p i. induction ls as [|x rest IH]; intros p i Hi; [done|].
  cbn [sim_list]. pose proof (sim_list_length (S p) rest) as Hlen.
  destruct i as [|i].
  - injection Hi as ->. rewrite Nat.add_0_r.
    destruct (sim_list (S p) rest) as [|src rest']; reflexivity.
  - simpl in Hi. specialize (IH (S p) i Hi).
    destruct (sim_list (S p) rest) as [|src rest'] eqn:Hr.
    + apply lookup_lt_Some in Hi. simpl in Hlen. lia.
    + change ((fwd src x (0 <? p)%nat :: src :: rest') !! S i)
        with ((src :: rest') !! i).
      change ((fwd src x (0 <? p)%nat :: src :: rest') !! S (S i))
        with ((src :: rest') !! S i).
      rewrite IH. replace (S p + i)%nat with (p + S i)%nat by lia.
      reflexivity.
Qed.

Lemma AnnSimulate_hyper net : hyper (AnnSimulate net) = hyper net.
Proof. rewrite AnnSimulate_sim_list. reflexivity. Qed.

Lemma AnnSimulate_LAYERS net : LAYERS (AnnSimulate net) = LAYERS net.
Proof.
  rewrite AnnSimulate_sim_list. unfold LAYERS. simpl. apply sim_list_length.
Qed.

Lemma AnnSimulate_lay net i :
  (S i < LAYERS net)%nat →
  lay (AnnSimulate net) i =
  fwd (lay (AnnSimulate net) (S i)) (lay net i) (0 <? i)%nat.
Proof.
  intros Hi. rewrite AnnSimulate_sim_list. unfold lay, LAYERS in *. simpl.
  destruct (lookup_lt_is_Some_2 (layer net) i) as [dst Hdst]; [lia|].
  rewrite (sim_list_lookup _ 0 i dst Hdst), Hdst. simpl.
  destruct (lookup_lt_is_Some_2 (sim_list 0 (layer net)) (S i)) as [src Hsrc].
  { rewrite sim_list_length. lia. }
  rewrite Hsrc. reflexivity.
Qed.

Lemma AnnSimulate_lay_last net i :
  (LAYERS net ≤ S i)%nat → lay (AnnSimulate net) i = lay net i.
Proof.
  intros Hi. rewrite AnnSimulate_sim_list. unfold lay, LAYERS in *. simpl.
  destruct (layer net !! i) as [dst|] eqn:Hdst.
  - rewrite (sim_list_lookup _ 0 i dst Hdst).
    rewrite (lookup_ge_None_2 (sim_list 0 (layer net)) (S i))
      by (rewrite sim_list_length; lia).
    reflexivity.
  - apply lookup_ge_None in Hdst.
    rewrite (lookup_ge_None_2 (sim_list 0 (layer net)) i)
      by (rewrite sim_list_length; lia).
    reflexivity.
Qed.

(** Nothing but outputs changes, and no output array changes length. *)
Lemma AnnSimulate_fields net i :
  let l := lay net i in
  let l' := lay (AnnSimulate net) i in
  units l' = units l ∧ length (output l') = length (output l) ∧
  error l' = error l ∧ weight l' = weight l ∧ gradient l' = gradient l ∧
  sgradient l' = sgradient l ∧ pgradient l' = pgradient l ∧
  delta l' = delta l.
Proof.
  cbv zeta. destruct (decide (S i < LAYERS net)%nat) as [Hi|Hi].
  - rewrite AnnSimulate_lay by exact Hi. unfold fwd. simpl.
    rewrite fwd_outputs_length. done.
  - rewrite AnnSimulate_lay_last by lia. done.
Qed.

(** The outputs the pass writes, and those it leaves: in layer [i] the
    first [units - 1] for a layer with a bias unit ([i > 0]), all of
    them for the output layer, none for the input layer. *)
Lemma AnnSimulate_written net i j :
  (S i < LAYERS net)%nat →
  (j < count_of (UNITS net i - b2z (0 <? i)%nat))%nat →
  (j < length (output (lay net i)))%nat →
  rd (output (lay (AnnSimulate net) i)) j =
  sigmoid (dot (count_of (UNITS net (S i))) (weight (lay net (S i)))
               (j * count_of (UNITS net (S i)))
               (output (lay (AnnSimulate net) (S i)))).
Proof.
  intros Hi Hj Hlen. rewrite AnnSimulate_lay by exact Hi.
  unfold fwd, rd. simpl. rewrite fwd_outputs_lookup.
  destruct (decide _) as [_|Hn]; [|unfold UNITS in Hj; lia].
  destruct (lookup_lt_is_Some_2 _ _ Hlen) as [x ->]. simpl.
  unfold activation.
  destruct (AnnSimulate_fields net (S i)) as (Hu & _ & _ & Hw & _).
  rewrite Hu, Hw. reflexivity.
Qed.

Lemma AnnSimulate_unwritten net i j :
  (count_of (UNITS net i - b2z (0 <? i)%nat) ≤ j)%nat →
  output (lay (AnnSimulate net) i) !! j = output (lay net i) !! j.
Proof.
  intros Hj. destruct (decide (S i < LAYERS net)%nat) as [Hi|Hi].
  - rewrite AnnSimulate_lay by exact Hi. unfold fwd. simpl.
    rewrite fwd_outputs_lookup.
    destruct (decide _) as [Hlt|_]; [unfold UNITS in Hj; lia | reflexivity].
  - rewrite AnnSimulate_lay_last by lia. reflexivity.
Qed.

(** C3, as amended: the pass leaves the hyperparameters, the layer
    count, the input layer and every array other than outputs as they
    were; for each layer [i] from [L-1] down to 1 and each non-bias unit
    [j] of layer [i-1], the output of that unit becomes the sigmoid of
    the dot product of row [j] of layer [i]'s weights with layer [i]'s
    output vector, as it is once layer [i] has itself been recomputed;
    outputs from the bias slot onwards are not written. *)
Theorem AnnSimulate_forward net :
  let net' := AnnSimulate net in
  hyper net' = hyper net ∧ LAYERS net' = LAYERS net ∧
  lay net' (LAYERS net - 1) = lay net (LAYERS net - 1) ∧
  (∀ i, units (lay net' i) = units (lay net i) ∧
        error (lay net' i) = error (lay net i) ∧
        weight (lay net' i) = weight (lay net i) ∧
        gradient (lay net' i) = gradient (lay net i) ∧
        sgradient (lay net' i) = sgradient (lay net i) ∧
        pgradient (lay net' i) = pgradient (lay net i) ∧
        delta (lay net' i) = delta (lay net i)) ∧
  (∀ i, (1 ≤ i < LAYERS net)%nat →
     let nextunits := count_of (UNITS net (i - 1) - b2z (1 <? i)%nat) in
     let units := count_of (UNITS net i) in
     (∀ j, (j < nextunits)%nat → (j < length (output (lay net (i - 1))))%nat →
        rd (output (lay net' (i - 1))) j =
        sigmoid (dot units (weight (lay net i)) (j * units)
                     (output (lay net' i)))) ∧
     (∀ j, (nextunits ≤ j)%nat →
        output (lay net' (i - 1)) !! j = output (lay net (i - 1)) !! j)).
Proof.
  cbv zeta. split_and!.
  - apply AnnSimulate_hyper.
  - apply AnnSimulate_LAYERS.
  - apply AnnSimulate_lay_last. lia.
  - intros i. destruct (AnnSimulate_fields net i) as (? & ? & ? & ? & ? & ? & ? & ?).
    done.
  - intros i Hi.
    assert (Hb : (1 <? i)%nat = (0 <? i - 1)%nat)
      by (destruct i as [|[|i]]; reflexivity).
    rewrite Hb. split.
    + intros j Hj Hlen.
      rewrite (AnnSimulate_written net (i - 1) j) by (assumption || lia).
      replace (S (i - 1)) with i by lia. reflexivity.
    + intros j Hj. apply AnnSimulate_unwritten. exact Hj.
Qed.

End SimulateLayers.

Lemma AnnSimulate_forward_witness :
  let net' := AnnSimulate net_sim in
  (1 ≤ 1 < LAYERS net_sim)%nat ∧
  rd (output (lay net' 0)) 0 =
    sigmoid (dot 2 (weight (lay net_sim 1)) 0 (output (lay net' 1))) ∧
  output (lay net' 1) !! 1%nat = output (lay net_sim 1) !! 1%nat.
Proof.
  assert (Hi : (1 ≤ 1 < LAYERS net_sim)%nat)
    by (unfold LAYERS, net_sim; simpl; lia).
  destruct (AnnSimulate_forward net_sim) as (_ & _ & Hin & _ & H).
  cbv zeta. split; [exact Hi|]. split.
  - destruct (H 1%nat Hi) as [Hw _].
    apply (Hw 0%nat).
    + unfold UNITS, lay, net_sim, count_of. simpl. lia.
    + unfold lay, net_sim. simpl. lia.
  - change (LAYERS net_sim - 1)%nat with 1%nat in Hin. rewrite Hin.
    reflexivity.
Defined.

Lemma sigmoid_R (x : R) : sigmoid x = (1 / (1 + exp (- x)))%R.
Proof. reflexivity. Qed.

Lemma logistic_half (x : R) : (1 / (1 + exp (- x)) = 1 / 2)%R → x = 0%R.
Proof.
  intros H.
  assert (Hpos : (0 < exp (- x))%R) by apply exp_pos.
  assert (H2 : (1 / (1 + exp (- x)) * (1 + exp (- x)) = 1)%R)
    by (field; lra).
  rewrite H in H2.
  assert (He : exp (- x) = exp 0) by (rewrite exp_0; lra).
  apply exp_inv in He. lra.
Qed.

(** C3, as stated, fails.  In [net_sim] the input is 0, so both output
    units receive [sigmoid 0 = 1/2]; the dot product of the same weight
    row with the output vector of the layer being written (layer 0,
    before or after the pass) is not 0 and gives another value. *)
Lemma AnnSimulate_not_own_output :
  let net' := AnnSimulate net_sim in
  let units := count_of (UNITS net_sim 1) in
  let w := weight (lay net_sim 1) in
  rd (output (lay net' 0)) 0 = (1 / 2)%R ∧
  rd (output (lay net' 0)) 0 ≠
    sigmoid (dot units w (0 * units) (output (lay net_sim 0))) ∧
  rd (output (lay net' 0)) 0 ≠
    sigmoid (dot units w (0 * units) (output (lay net' 0))).
Proof.
  cbv zeta.
  assert (Hin : lay (AnnSimulate net_sim) 1 = lay net_sim 1)
    by (apply AnnSimulate_lay_last; unfold LAYERS, net_sim; simpl; lia).
  assert (H0 : output (lay (AnnSimulate net_sim) 0) =
               [(1 / 2)%R; (1 / 2)%R]).
  { rewrite AnnSimulate_lay by (unfold LAYERS, net_sim; simpl; lia).
    rewrite Hin.
    unfold fwd, fwd_outputs, for_loop, activation, dot, for_loop. simpl.
    unfold rd. simpl.
    assert (Hs : sigmoid (0 + 1 * 0 + 0 * 1)%R = (1 / 2)%R).
    { rewrite sigmoid_R. replace (- (0 + 1 * 0 + 0 * 1))%R with 0%R by lra.
      rewrite exp_0. lra. }
    rewrite sigmoid_R in Hs. rewrite Hs. reflexivity. }
  rewrite H0. unfold rd, dot, for_loop. simpl. split_and!.
  - reflexivity.
  - intros H. symmetry in H. apply logistic_half in H.
    unfold rd in H. simpl in H. lra.
  - intros H. symmetry in H. apply logistic_half in H.
    unfold rd in H. simpl in H. lra.
Qed.

(** ** Bias outputs *)
Section Bias.
Context {F : Type} {FO : FloatOps F}.
Implicit Types (net : Ann F) (l : AnnLayer F).

Lemma same_outputs_refl net : same_outputs net net.
Proof. split; [reflexivity | intros i; split; reflexivity]. Qed.

Lemma same_outputs_trans net1 net2 net3 :
  same_outputs net1 net2 → same_outputs net2 net3 → same_outputs net1 net3.
Proof.
  intros [HL1 H1] [HL2 H2]. split; [congruence|].
  intros i. destruct (H1 i), (H2 i). split; congruence.
Qed.

Lemma same_outputs_bias_ok net net' :
  same_outputs net net' → bias_ok net → bias_ok net'.
Proof.
  intros [HL Hs] Hb i Hi. destruct (Hs i) as [Hu Ho].
  unfold UNITS. rewrite Hu, Ho. apply Hb. lia.
Qed.

Lemma upd_layer_same_outputs j f net :
  (∀ l, units (f l) = units l ∧ output (f l) = output l) →
  same_outputs net (upd_layer j f net).
Proof.
  intros Hf. split; [apply LAYERS_upd_layer|]. intros i.
  destruct (decide (j = i)) as [->|Hne].
  - destruct (decide (i < LAYERS net)%nat) as [Hlt|Hge].
    + rewrite lay_upd_layer_eq by exact Hlt. apply Hf.
    + rewrite upd_layer_ge by lia. done.
  - rewrite lay_upd_layer_ne by exact Hne. done.
Qed.

Lemma for_loop_same_outputs n body net :
  (∀ i s, same_outputs s (body i s)) → same_outputs net (for_loop n body net).
Proof.
  intros Hb. apply (for_loop_inv (same_outputs net)).
  - apply same_outputs_refl.
  - intros i s _ Hs. eapply same_outputs_trans; [exact Hs | apply Hb].
Qed.

Lemma for_from_same_outputs lo hi body net :
  (∀ i s, same_outputs s (body i s)) →
  same_outputs net (for_from lo hi body net).
Proof.
  intros Hb. apply (for_from_inv (same_outputs net)).
  - apply same_outputs_refl.
  - intros i s _ Hs. eapply same_outputs_trans; [exact Hs | apply Hb].
Qed.

Lemma each_weight_same_outputs body net :
  (∀ j i s, same_outputs s (body j i s)) →
  same_outputs net (each_weight body net).
Proof.
  intros Hb. unfold each_weight. apply for_from_same_outputs.
  intros j s. apply for_loop_same_outputs. intros i s'. apply Hb.
Qed.

Lemma AnnSetDeltas_same_outputs net val :
  same_outputs net (AnnSetDeltas net val).
Proof.
  apply each_weight_same_outputs. intros j i s.
  apply upd_layer_same_outputs. done.
Qed.


Lemma AnnAdjustWeights_same_outputs net setlen :
  same_outputs net (AnnAdjustWeights net setlen).
Proof.
  apply each_weight_same_outputs. intros j i s.
  apply upd_layer_same_outputs. done.
Qed.

Lemma rprop_weight_same_outputs j i net :
  same_outputs net (rprop_weight j i net).
Proof.
  unfold rprop_weight. destruct (rprop_rule _ _ _ _ _) as [[w' d'] pg'].
  apply upd_layer_same_outputs. done.
Qed.

Lemma AnnAdjustWeightsResilientBP_same_outputs net :
  same_outputs net (AnnAdjustWeightsResilientBP net).
Proof.
  unfold AnnAdjustWeightsResilientBP. apply for_from_same_outputs.
  intros j s. apply for_loop_same_outputs. intros i s'.
  apply rprop_weight_same_outputs.
Qed.

Section Create.
Context {HD : NNHeader F}.

Lemma AnnSetRandomWeights_same_outputs rnd net :
  same_outputs net (AnnSetRandomWeights rnd net).
Proof.
  unfold AnnSetRandomWeights.
  apply (for_from_inv (λ st : Ann F * nat, same_outputs net (fst st)));
    [apply same_outputs_refl|].
  intros i st _ Hst.
  apply (for_loop_inv (λ st : Ann F * nat, same_outputs net (fst st)));
    [exact Hst|].
  intros k st1 _ Hst1.
  apply (for_loop_inv (λ st : Ann F * nat, same_outputs net (fst st)));
    [exact Hst1|].
  intros j [s c] _ Hs. simpl in *.
  eapply same_outputs_trans; [exact Hs|].
  apply upd_layer_same_outputs. done.
Qed.

Lemma AnnAlloc_LAYERS layers junk : LAYERS (AnnAlloc layers junk) = layers.
Proof.
  unfold AnnAlloc, LAYERS. simpl.
  apply (for_loop_inv (λ ls : list (AnnLayer F), length ls = layers)).
  - apply length_replicate.
  - intros i ls _ Hls. rewrite length_alter. exact Hls.
Qed.

Lemma AnnInitLayer_LAYERS net i u b :
  LAYERS (AnnInitLayer net i u b) = LAYERS net.
Proof. unfold AnnInitLayer. apply LAYERS_upd_layer. Qed.

(** The layers initialised so far end with a bias output of 1. *)
Lemma init_layers_bias layers (units : list Z) junk n :
  (∀ i u, units !! i = Some u → 0 ≤ u) →
  (n ≤ layers)%nat →
  let net :=
    for_loop n
      (λ i net, AnnInitLayer net i (default 0 (units !! i)) (0 <? i)%nat)
      (AnnAlloc layers junk) in
  LAYERS net = layers ∧
  ∀ i, (1 ≤ i < n)%nat →
       output (lay net i) !! count_of (UNITS net i - 1) = Some fone.
Proof.
  intros Hpos. induction n as [|n IH]; intros Hn; cbv zeta.
  - split; [apply AnnAlloc_LAYERS | intros i Hi; lia].
  - rewrite for_loop_S. destruct IH as [HL Hb]; [lia|].
    set (net := for_loop n _ _) in *.
    split; [rewrite AnnInitLayer_LAYERS; exact HL|].
    intros i Hi. unfold AnnInitLayer, UNITS.
    destruct (decide (i = n)) as [->|Hne].
    + rewrite lay_upd_layer_eq by lia. simpl.
      assert (Hu : 0 ≤ default 0 (units !! n)).
      { destruct (units !! n) as [u|] eqn:Hu; simpl; [eauto | lia]. }
      destruct n as [|n]; [lia|]. simpl.
      replace (default 0 (units !! S n) + 1 - 1) with (default 0 (units !! S n))
        by lia.
      apply list_lookup_insert_eq. unfold zeros, count_of.
      rewrite length_replicate. lia.
    + rewrite lay_upd_layer_ne by congruence. apply Hb. lia.
Qed.

Lemma AnnCreateNet_bias_ok layers (units : list Z) rnd junk :
  (∀ i u, units !! i = Some u → 0 ≤ u) →
  bias_ok (AnnCreateNet layers units rnd junk).
Proof.
  intros Hpos. unfold AnnCreateNet.
  destruct (init_layers_bias layers units junk layers Hpos (le_n _))
    as [HL Hb].
  set (net := for_loop layers _ _) in *.
  assert (Hok : bias_ok net) by (intros i Hi; apply Hb; lia).
  apply (same_outputs_bias_ok
           (AnnSetDeltas (AnnSetRandomWeights rnd net) RPROP_INITIAL_DELTA));
    [split; [reflexivity | intros i; split; reflexivity]|].
  apply (same_outputs_bias_ok (AnnSetRandomWeights rnd net));
    [apply AnnSetDeltas_same_outputs|].
  apply (same_outputs_bias_ok net); [apply AnnSetRandomWeights_same_outputs|].
  exact Hok.
Qed.

End Create.

Lemma AnnSimulate_bias_ok {FE : FloatExp F} net :
  bias_ok net → bias_ok (AnnSimulate net).
Proof.
  intros Hb i Hi. rewrite AnnSimulate_LAYERS in Hi.
  destruct (AnnSimulate_fields net i) as (Hu & _).
  unfold UNITS. rewrite Hu. rewrite AnnSimulate_unwritten.
  - apply Hb. exact Hi.
  - unfold UNITS. destruct i as [|i]; [lia|]. simpl. lia.
Qed.

(** [AnnSetInput] keeps the bias outputs as well, as long as the macro
    [INPUT_UNITS] of nn.h counts the input units without the bias unit. *)
Lemma AnnSetInput_bias_ok {HD : NNHeader F} net input :
  (count_of (INPUT_UNITS net) ≤ count_of (UNITS net (LAYERS net - 1) - 1))%nat →
  bias_ok net → bias_ok (AnnSetInput net input).
Proof.
  intros Hin Hb. unfold AnnSetInput.
  apply (for_loop_inv
           (λ s, LAYERS s = LAYERS net ∧
                 (∀ k, units (lay s k) = units (lay net k)) ∧ bias_ok s)).
  - split_and!; done.
  - intros i s Hi (HL & Hu & Hs). split_and!.
    + rewrite LAYERS_upd_layer. exact HL.
    + intros k. rewrite <- Hu. apply (UNITS_upd_layer _ k). done.
    + intros k Hk. rewrite LAYERS_upd_layer in Hk.
      rewrite (UNITS_upd_layer _ k) by done.
      destruct (decide (LAYERS s - 1 = k)%nat) as [Hlast|Hne].
      * rewrite Hlast. rewrite lay_upd_layer_eq by lia. simpl.
        rewrite list_lookup_insert_ne; [apply Hs; lia|].
        unfold UNITS in Hin |- *. rewrite Hu, <- Hlast, HL. lia.
      * rewrite lay_upd_layer_ne by exact Hne. apply Hs. lia.
Qed.

(** C7: the output of every bias unit is exactly 1 in a freshly created
    net (for non-negative unit counts), and is still 1 after a forward
    pass, after an RPROP weight update and after a gradient-descent
    weight update, none of which writes a bias output. *)
Theorem bias_outputs_stay_one {FE : FloatExp F} {HD : NNHeader F} :
  (∀ layers (units : list Z) rnd junk,
     (∀ i u, units !! i = Some u → 0 ≤ u) →
     bias_ok (AnnCreateNet layers units rnd junk)) ∧
  (∀ net, bias_ok net → bias_ok (AnnSimulate net)) ∧
  (∀ net, bias_ok net → bias_ok (AnnAdjustWeightsResilientBP net)) ∧
  (∀ net setlen, bias_ok net → bias_ok (AnnAdjustWeights net setlen)).
Proof.
  split_and!.
  - intros. apply AnnCreateNet_bias_ok. assumption.
  - intros net. apply AnnSimulate_bias_ok.
  - intros net. apply same_outputs_bias_ok.
    apply AnnAdjustWeightsResilientBP_same_outputs.
  - intros net setlen. apply same_outputs_bias_ok.
    apply AnnAdjustWeights_same_outputs.
Qed.

End Bias.

(** ** Cloning a well-formed net *)
Section CloneLayers.
Context {F : Type} {FO : FloatOps F} {HD : NNHeader F}.
Implicit Types (net copy : Ann F).

Lemma memcpy_all (dst src : list F) n :
  length src = count_of n → length dst = count_of n → memcpy dst src n = src.
Proof.
  intros Hs Hd. unfold memcpy. destruct src as [|x src].
  - destruct dst; [reflexivity | simpl in *; lia].
  - rewrite take_ge by lia. rewrite drop_ge by lia. apply app_nil_r.
Qed.

Lemma length_zeros n : length (zeros (F := F) n) = n.
Proof. apply length_replicate. Qed.

(** Cloning one layer of a well-formed net, the layers before it being
    cloned already, yields that layer. *)
Lemma clone_layer_lay net j copy lsrc :
  wf_net net → layer net !! j = Some lsrc →
  (j < LAYERS copy)%nat →
  lay copy j = null_layer →
  (0 < j → UNITS copy (j - 1) = UNITS net (j - 1))%nat →
  lay (clone_layer net j copy) j = lsrc.
Proof.
  intros Hwf Hsrc Hj Hnull Hprev.
  pose proof (Hwf j lsrc Hsrc) as (Hlo & Hle & Hw).
  assert (Hlay : lay net j = lsrc) by (unfold lay; rewrite Hsrc; reflexivity).
  assert (Hu : UNITS net j = units lsrc) by (unfold UNITS; rewrite Hlay; reflexivity).
  unfold clone_layer. rewrite Hlay, Hu.
  destruct j as [|j].
  - cbn [Nat.ltb Nat.leb b2z]. rewrite lay_upd_layer_eq
      by (rewrite AnnInitLayer_LAYERS; exact Hj).
    unfold AnnInitLayer. rewrite lay_upd_layer_eq by exact Hj.
    rewrite Hnull. cbn [Nat.ltb Nat.leb]. rewrite Z.sub_0_r.
    destruct Hw as (Hw1 & Hw2 & Hw3 & Hw4 & Hw5).
    cbv [set_error set_output null_layer
         units output error weight gradient sgradient pgradient delta].
    rewrite !memcpy_all by (rewrite ?length_zeros; assumption || reflexivity).
    destruct lsrc as [u o e w g sg pg d].
    cbn [units output error weight gradient sgradient pgradient delta] in *.
    congruence.
  - cbn [Nat.ltb Nat.leb b2z].
    rewrite !lay_upd_layer_eq
      by (rewrite ?LAYERS_upd_layer, ?AnnInitLayer_LAYERS; exact Hj).
    unfold AnnInitLayer. rewrite lay_upd_layer_eq by exact Hj.
    cbn [Nat.ltb Nat.leb].
    replace (units lsrc - 1 + 1) with (units lsrc) by lia.
    rewrite Hprev by lia.
    unfold WEIGHTS. rewrite Hu.
    cbv zeta in Hw. destruct Hw as (Hw1 & Hw2 & Hw3 & Hw4 & Hw5).
    cbv [set_sgradient set_delta set_pgradient set_gradient set_weight
         set_error set_output
         units output error weight gradient sgradient pgradient delta].
    rewrite !memcpy_all
      by (rewrite ?length_insert, ?length_zeros; assumption || reflexivity).
    destruct lsrc as [u o e w g sg pg d]. reflexivity.
Qed.

Lemma clone_layer_other net j k copy :
  j ≠ k → lay (clone_layer net j copy) k = lay copy k.
Proof.
  intros Hne. unfold clone_layer.
  destruct (0 <? j)%nat; rewrite ?lay_upd_layer_ne by exact Hne;
    unfold AnnInitLayer; rewrite lay_upd_layer_ne by exact Hne; reflexivity.
Qed.

Lemma clone_layer_LAYERS net j copy :
  LAYERS (clone_layer net j copy) = LAYERS copy.
Proof.
  unfold clone_layer.
  destruct (0 <? j)%nat; rewrite ?LAYERS_upd_layer; apply AnnInitLayer_LAYERS.
Qed.

Lemma AnnAlloc_lay layers junk i : lay (AnnAlloc layers junk) i = null_layer.
Proof.
  unfold lay, AnnAlloc. cbn [layer].
  assert (H : ∀ ls : list (AnnLayer F),
            (∀ k l, ls !! k = Some l → l = null_layer) →
            ∀ n, ∀ k l, for_loop n (λ i ls, alter AnnResetLayer i ls) ls !! k
                        = Some l → l = null_layer).
  { intros ls Hls n. induction n as [|n IH]; [exact Hls|].
    intros k l. rewrite for_loop_S, list_lookup_alter.
    destruct (decide (n = k)) as [->|Hne]; [|apply IH].
    destruct (for_loop k _ ls !! k) as [x|]; [|discriminate].
    intros [= <-]. reflexivity. }
  destruct (for_loop layers _ _ !! i) as [l|] eqn:Hl; [|reflexivity].
  apply H in Hl; [exact Hl|].
  intros k l' Hk. apply lookup_replicate in Hk. apply Hk.
Qed.

Lemma clone_loop net junk n :
  wf_net net → (n ≤ LAYERS net)%nat →
  let copy := for_loop n (clone_layer net) (AnnAlloc (LAYERS net) junk) in
  LAYERS copy = LAYERS net ∧
  (∀ i, (i < n)%nat → lay copy i = lay net i) ∧
  (∀ i, (n ≤ i)%nat → lay copy i = null_layer).
Proof.
  intros Hwf. induction n as [|n IH]; intros Hn; cbv zeta.
  - split_and!; [apply AnnAlloc_LAYERS | intros i Hi; lia |].
    intros i _. apply AnnAlloc_lay.
  - rewrite for_loop_S. destruct IH as (HL & Hdone & Htodo); [lia|].
    set (copy := for_loop n _ _) in *.
    destruct (lookup_lt_is_Some_2 (layer net) n) as [lsrc Hsrc];
      [unfold LAYERS in Hn; lia|].
    split_and!.
    + rewrite clone_layer_LAYERS. exact HL.
    + intros i Hi. destruct (decide (i = n)) as [->|Hne].
      * rewrite (clone_layer_lay net n copy lsrc); try assumption.
        -- unfold lay. rewrite Hsrc. reflexivity.
        -- lia.
        -- apply Htodo. lia.
        -- intros Hpos. unfold UNITS. rewrite Hdone by lia. reflexivity.
      * rewrite clone_layer_other by congruence. apply Hdone. lia.
    + intros i Hi. rewrite clone_layer_other by lia. apply Htodo. lia.
Qed.

(** The clone of a well-formed net has its layers, array by array, its
    flags and its four RPROP parameters; only the learning rate is not
    the source's. *)
Lemma AnnClone_layers net junk :
  wf_net net →
  AnnClone net junk = set_learn_rate junk net.
Proof.
  intros Hwf. pose proof (AnnClone_learn_rate net junk) as Hlr.
  unfold AnnClone in *. cbn [learn_rate] in Hlr. rewrite Hlr.
  unfold set_learn_rate. f_equal.
  destruct (clone_loop net junk (LAYERS net) Hwf (le_n _)) as (HL & Hdone & _).
  set (copy := for_loop (LAYERS net) (clone_layer net) _) in *.
  apply list_eq. intros i.
  destruct (decide (i < LAYERS net)%nat) as [Hi|Hi].
  - specialize (Hdone i Hi). unfold lay in Hdone.
    destruct (lookup_lt_is_Some_2 (layer net) i Hi) as [l Hl].
    destruct (lookup_lt_is_Some_2 (layer copy) i) as [l' Hl'].
    { change (i < LAYERS copy)%nat. rewrite HL. exact Hi. }
    rewrite Hl, Hl' in *. simpl in Hdone. congruence.
  - rewrite (lookup_ge_None_2 (layer net) i) by (unfold LAYERS in Hi; lia).
    apply lookup_ge_None_2. change (LAYERS copy ≤ i)%nat. rewrite HL. lia.
Qed.

End CloneLayers.

(** ** Passes over all weights *)
Section EachWeight.
Context {F : Type} {FO : FloatOps F}.
Implicit Types (net s : Ann F) (l : AnnLayer F).

Lemma upd_layer_upd_layer j f g net :
  upd_layer j f (upd_layer j g net) = upd_layer j (f ∘ g) net.
Proof.
  unfold upd_layer, set_layers. simpl. f_equal. apply list_alter_alter_eq.
Qed.

Lemma upd_layer_id j net : upd_layer j (λ l, l) net = net.
Proof.
  unfold upd_layer. rewrite list_alter_id by done. apply set_layers_layer.
Qed.

Lemma upd_layer_ext j f g net :
  (∀ l, f l = g l) → upd_layer j f net = upd_layer j g net.
Proof.
  intros Hfg. unfold upd_layer. f_equal. apply list_alter_ext; [|done].
  intros l _. apply Hfg.
Qed.

Variable h : Ann F → nat → nat → AnnLayer F → AnnLayer F.
Hypothesis h_hyper : ∀ s s', hyper s = hyper s' → h s = h s'.
Hypothesis h_units : ∀ s j i l, units (h s j i l) = units l.

Lemma for_loop_h_units s j n l : units (for_loop n (h s j) l) = units l.
Proof.
  induction n as [|n IH]; [reflexivity|].
  rewrite for_loop_S, h_units. exact IH.
Qed.

(** The inner loop iterates [h] on layer [j]. *)
Lemma each_weight_inner j n s0 :
  for_loop n (λ i s, upd_layer j (h s j i) s) s0 =
  upd_layer j (for_loop n (h s0 j)) s0.
Proof.
  induction n as [|n IH].
  - symmetry. apply upd_layer_id.
  - rewrite for_loop_S, IH.
    rewrite (h_hyper (upd_layer j (for_loop n (h s0 j)) s0) s0)
      by apply hyper_upd_layer.
    rewrite upd_layer_upd_layer. apply upd_layer_ext.
    intros l. simpl. rewrite for_loop_S. reflexivity.
Qed.

Lemma each_weight_outer net m :
  (m ≤ LAYERS net)%nat →
  let net' :=
    for_from 1 m
      (λ j s,
         let units := UNITS s j in
         let weights := count_of (units * UNITS s (j - 1)) in
         for_loop weights (λ i s, upd_layer j (h s j i) s) s) net in
  hyper net' = hyper net ∧ LAYERS net' = LAYERS net ∧
  (∀ k, (k < 1 ∨ m ≤ k)%nat → lay net' k = lay net k) ∧
  (∀ j, (1 ≤ j < m)%nat →
        lay net' j = for_loop (weights_bound net j) (h net j) (lay net j)).
Proof.
  induction m as [|m IH]; intros Hm.
  - simpl. split_and!; try done. intros j Hj. lia.
  - destruct (decide (1 ≤ m)%nat) as [H1|H0].
    2:{ simpl. rewrite for_from_nil by lia. split_and!; try done.
        intros j Hj; lia. }
    simpl. rewrite for_from_S by exact H1.
    destruct IH as (Hh & HL & Hout & Hin); [lia|].
    set (net1 := for_from 1 m _ net) in *.
    assert (Hb : count_of (UNITS net1 m * UNITS net1 (m - 1)) =
                 weights_bound net m).
    { unfold weights_bound, UNITS. rewrite (Hout m) by lia.
      destruct (decide (m - 1 < 1)%nat).
      - rewrite (Hout (m - 1)%nat) by lia. reflexivity.
      - rewrite (Hin (m - 1)%nat) by lia. rewrite for_loop_h_units.
        reflexivity. }
    cbv zeta. rewrite Hb. rewrite each_weight_inner.
    rewrite (h_hyper net1 net Hh).
    split_and!.
    + rewrite hyper_upd_layer. exact Hh.
    + rewrite LAYERS_upd_layer. exact HL.
    + intros k Hk. rewrite lay_upd_layer_ne by lia. apply Hout. lia.
    + intros j Hj. destruct (decide (j = m)) as [->|Hne].
      * rewrite lay_upd_layer_eq by lia. rewrite (Hout m) by lia. reflexivity.
      * rewrite lay_upd_layer_ne by congruence. apply Hin. lia.
Qed.

(** Every layer after a pass: layer [j >= 1] has had [h] applied at each
    index below [units(j) * units(j-1)], in order; layer 0 is untouched. *)
Lemma each_weight_lay net :
  let net' := each_weight (λ j i s, upd_layer j (h s j i) s) net in
  hyper net' = hyper net ∧ LAYERS net' = LAYERS net ∧
  lay net' 0 = lay net 0 ∧
  (∀ j, (1 ≤ j < LAYERS net)%nat →
        lay net' j = for_loop (weights_bound net j) (h net j) (lay net j)).
Proof.
  destruct (each_weight_outer net (LAYERS net) (le_n _))
    as (Hh & HL & Hout & Hin).
  cbv zeta. unfold each_weight. split_and!; try assumption.
  apply Hout. lia.
Qed.

End EachWeight.

(** ** What the passes keep *)
Section Keeps.
Context {F : Type} {FO : FloatOps F}.
Implicit Types (net s : Ann F) (l : AnnLayer F) (a : list F).










(** A loop that rewrites the entries of one array in turn, each from its
    own current value. *)
Lemma for_loop_insert_lookup (v : nat → F → F) n a k :
  for_loop n (λ i a, <[i := v i (rd a i)]> a) a !! k =
  if decide (k < n)%nat then v k <$> a !! k else a !! k.
Proof.
  revert k. induction n as [|n IH]; intros k.
  - destruct (decide (k < 0)%nat); [lia | reflexivity].
  - rewrite for_loop_S. set (a' := for_loop n _ a) in *.
    assert (Hlen : length a' = length a).
    { unfold a'. apply (for_loop_inv (λ b : list F, length b = length a));
        [reflexivity|]. intros i b _ Hb. rewrite length_insert. exact Hb. }
    rewrite list_lookup_insert, Hlen.
    destruct (decide (n = k ∧ (n < length a)%nat)) as [[-> Hlt]|Hn].
    + destruct (decide (k < S k)%nat); [|lia].
      unfold rd. rewrite IH. destruct (decide (k < k)%nat); [lia|].
      destruct (lookup_lt_is_Some_2 a k Hlt) as [x ->]. reflexivity.
    + rewrite IH. destruct (decide (k < n)%nat), (decide (k < S n)%nat);
        try lia; try reflexivity.
      assert (k = n) as -> by lia.
      rewrite (lookup_ge_None_2 a n) by lia. reflexivity.
Qed.

Lemma for_loop_insert_rd (v : nat → F → F) n a k :
  (k < n)%nat → (k < length a)%nat →
  rd (for_loop n (λ i a, <[i := v i (rd a i)]> a) a) k = v k (rd a k).
Proof.
  intros Hk Hlen. unfold rd at 1 3. rewrite for_loop_insert_lookup.
  destruct (decide (k < n)%nat); [|lia].
  destruct (lookup_lt_is_Some_2 a k Hlen) as [x ->]. reflexivity.
Qed.

Lemma rd_set_loop (val : F) n a k :
  (k < n)%nat → (k < length a)%nat →
  rd (for_loop n (λ i a, <[i := val]> a) a) k = val.
Proof. exact (for_loop_insert_rd (λ _ _, val) n a k). Qed.



Lemma length_set_loop (val : F) n a :
  length (for_loop n (λ i a, <[i := val]> a) a) = length a.
Proof.
  apply (for_loop_inv (λ b : list F, length b = length a)); [reflexivity|].
  intros i b _ Hb. rewrite length_insert. exact Hb.
Qed.

(** The three passes of the gradient-descent step, on one layer. *)
Lemma set_deltas_layer val n l :
  for_loop n (λ i l, set_delta (<[i := val]> (delta l)) l) l =
  set_delta (for_loop n (λ i a, <[i := val]> a) (delta l)) l.
Proof.
  induction n as [|n IH]; [destruct l; reflexivity|].
  rewrite !for_loop_S, IH. reflexivity.
Qed.



(** The same passes on the net. *)
Lemma AnnSetDeltas_lay net val :
  let net' := AnnSetDeltas net val in
  hyper net' = hyper net ∧ LAYERS net' = LAYERS net ∧
  lay net' 0 = lay net 0 ∧
  ∀ j, (1 ≤ j < LAYERS net)%nat →
    lay net' j =
    set_delta
      (for_loop (weights_bound net j)
         (λ i a, <[i := val]> a) (delta (lay net j)))
      (lay net j).
Proof.
  destruct (each_weight_lay
              (λ _ _ i l, set_delta (<[i := val]> (delta l)) l)
              ltac:(done) ltac:(done) net) as (Hh & HL & H0 & Hj).
  cbv zeta. split_and!; try assumption.
  intros j Hlt. rewrite <- set_deltas_layer. exact (Hj j Hlt).
Qed.



End Keeps.

(** ** The gradient-descent epoch *)
Section GD.
Context {F : Type} {FO : FloatOps F} {FE : FloatExp F} {HD : NNHeader F}.
Implicit Types (net s : Ann F) (l : AnnLayer F) (a x d : list F).






End GD.

Lemma bias_outputs_stay_one_witness :
  bias_ok net_sim ∧ bias_ok (AnnSimulate net_sim) ∧
  bias_ok (AnnAdjustWeightsResilientBP net_sim) ∧
  bias_ok (AnnAdjustWeights net_sim 4) ∧
  bias_ok (AnnCreateNet (HD := R_header) 3 [1; 2; 2] (λ _, 0%R) 0%R).
Proof.
  destruct (bias_outputs_stay_one (F := R) (HD := R_header))
    as (Hc & Hs & Hr & Hg).
  assert (H0 : bias_ok net_sim).
  { intros i Hi. unfold LAYERS, net_sim in Hi. simpl in Hi.
    assert (i = 1%nat) as -> by lia. reflexivity. }
  split; [exact H0|].
  split; [exact (Hs net_sim H0)|].
  split; [exact (Hr net_sim H0)|].
  split; [exact (Hg net_sim 4 H0)|].
  apply Hc. intros i u Hu.
  destruct i as [|[|[|i]]]; simpl in Hu; try discriminate;
    injection Hu as <-; lia.
Defined.


(** ** Construction and the allocator *)
Module AllocFacts.
Import Alloc.

Implicit Types (h : heap) (p : ptr) (l : alayer) (net : anet).

#[local] Set Warnings "-clear-no-such-hyp".
#[local] Arguments AnnFreeLayer : simpl never.
#[local] Arguments AnnFree : simpl never.
#[local] Arguments malloc : simpl never.

Lemma malloc_spec h :
  live (malloc h).2 = oset (malloc h).1 ∪ live h ∧
  oset (malloc h).1 ## live h ∧
  nfail (malloc h).2 = (nfail h + served (malloc h).1)%nat.
Proof.
  unfold malloc. pose proof (is_fresh (live h)) as Hf.
  destruct (oracle h) as [|[|] o]; simpl; split_and!; try lia; set_solver.
Qed.

Lemma free_live p h : live (free p h) = live h ∖ oset p.
Proof. destruct p; simpl; set_solver. Qed.

Lemma free_nfail p h : nfail (free p h) = nfail h.
Proof. destruct p; reflexivity. Qed.

Lemma AnnFreeLayer_live l h :
  live (AnnFreeLayer l h).2 = live h ∖ layer_blocks l.
Proof.
  unfold AnnFreeLayer, layer_blocks. cbn [snd]. rewrite !free_live. set_solver.
Qed.

Lemma AnnFreeLayer_nfail l h : nfail (AnnFreeLayer l h).2 = nfail h.
Proof. unfold AnnFreeLayer. cbn [snd]. rewrite !free_nfail. reflexivity. Qed.

Lemma free_layers_live (ls : list alayer) h :
  live (foldl (λ h l, (AnnFreeLayer l h).2) h ls) =
  live h ∖ ⋃ (layer_blocks <$> ls).
Proof.
  revert h. induction ls as [|l ls IH]; intros h.
  - simpl. set_solver.
  - cbn [foldl]. rewrite IH, AnnFreeLayer_live, fmap_cons, union_list_cons.
    set_solver.
Qed.

Lemma free_layers_nfail (ls : list alayer) h :
  nfail (foldl (λ h l, (AnnFreeLayer l h).2) h ls) = nfail h.
Proof.
  revert h. induction ls as [|l ls IH]; intros h; [reflexivity|].
  cbn [foldl]. rewrite IH. apply AnnFreeLayer_nfail.
Qed.

(** [AnnFree] releases exactly the blocks of the net. *)
Lemma AnnFree_live net h : live (AnnFree net h) = live h ∖ net_blocks net.
Proof.
  unfold AnnFree, net_blocks. rewrite !free_live, free_layers_live. simpl.
  set_solver.
Qed.

Lemma AnnFree_nfail net h : nfail (AnnFree net h) = nfail h.
Proof.
  unfold AnnFree. rewrite !free_nfail. apply free_layers_nfail.
Qed.

Lemma areset_blocks : layer_blocks areset = ∅.
Proof. unfold layer_blocks. simpl. set_solver. Qed.

Lemma replicate_blocks n : ⋃ (layer_blocks <$> replicate n areset) = ∅.
Proof.
  induction n as [|n IH]; [reflexivity|].
  cbn [replicate]. rewrite fmap_cons, union_list_cons, IH, areset_blocks.
  set_solver.
Qed.

Lemma insert_blocks (ls : list alayer) i l :
  ls !! i = Some areset →
  ⋃ (layer_blocks <$> <[i := l]> ls) =
  layer_blocks l ∪ ⋃ (layer_blocks <$> ls).
Proof.
  revert i. induction ls as [|x ls IH]; intros [|i] Hi; try done.
  - injection Hi as ->. change (<[0%nat := l]> (areset :: ls)) with (l :: ls).
    rewrite !fmap_cons, !union_list_cons, areset_blocks. set_solver.
  - change (<[S i := l]> (x :: ls)) with (x :: <[i := l]> ls).
    rewrite !fmap_cons, !union_list_cons.
    rewrite (IH i Hi). clear. set_solver.
Qed.

(** [AnnAlloc]: a net of reset layers, or nothing and the heap as before. *)
Lemma AnnAlloc_spec layers h :
  match AnnAlloc layers h with
  | (None, h') => live h' = live h ∧ (nfail h < nfail h')%nat
  | (Some net, h') =>
      nfail h' = nfail h ∧ a_layers net = replicate layers areset ∧
      live h' = net_blocks net ∪ live h ∧ net_blocks net ## live h
  end.
Proof.
  unfold AnnAlloc.
  destruct (malloc_spec h) as (Hl1 & Hd1 & Hn1).
  destruct (malloc h) as [[a|] h1]; simpl in *.
  2:{ split; [set_solver | lia]. }
  destruct (malloc_spec h1) as (Hl2 & Hd2 & Hn2).
  destruct (malloc h1) as [[b|] h2]; simpl in *.
  - unfold net_blocks. simpl. rewrite replicate_blocks.
    split_and!; [lia | reflexivity | set_solver | set_solver].
  - split; [set_solver | lia].
Qed.

Lemma disjoint_step (s : gset nat) (a b : gset nat) :
  s ## a ∪ b → s ## b.
Proof. set_solver. Qed.

(** [AnnInitLayer] on a reset layer: either every array it needs is
    allocated, or an allocation failed and the heap and the net are as
    before the call. *)
Lemma AnnInitLayer_spec net i u b h :
  a_layers net !! i = Some areset →
  match AnnInitLayer net i u b h with
  | (true, net', h') =>
      (nfail h < nfail h')%nat ∧ live h' = live h ∧ net' = net
  | (false, net', h') =>
      nfail h' = nfail h ∧
      ∃ l, net' = mkANet (a_self net) (a_layer net) (<[i := l]> (a_layers net)) ∧
           layer_complete i l ∧
           live h' = layer_blocks l ∪ live h ∧ layer_blocks l ## live h
  end.
Proof.
  intros Hi.
  assert (Hnet : mkANet (a_self net) (a_layer net)
                   (<[i := areset]> (a_layers net)) = net).
  { rewrite list_insert_id by exact Hi. destruct net; reflexivity. }
  unfold AnnInitLayer. rewrite Hi. cbn [default from_option].
  destruct (malloc_spec h) as (Hl1 & Hd1 & Hn1).
  destruct (malloc h) as [p1 h1]. cbn [fst snd] in *.
  destruct (malloc_spec h1) as (Hl2 & Hd2 & Hn2).
  destruct (malloc h1) as [p2 h2]. cbn [fst snd] in *.
  rewrite Hl1 in Hl2, Hd2.
  destruct (0 <? i)%nat eqn:Hpos.
  - destruct (malloc_spec h2) as (Hl3 & Hd3 & Hn3).
    destruct (malloc h2) as [p3 h3]. cbn [fst snd] in *.
    rewrite Hl2 in Hl3, Hd3.
    destruct (malloc_spec h3) as (Hl4 & Hd4 & Hn4).
    destruct (malloc h3) as [p4 h4]. cbn [fst snd] in *.
    rewrite Hl3 in Hl4, Hd4.
    destruct (malloc_spec h4) as (Hl5 & Hd5 & Hn5).
    destruct (malloc h4) as [p5 h5]. cbn [fst snd] in *.
    rewrite Hl4 in Hl5, Hd5.
    destruct (malloc_spec h5) as (Hl6 & Hd6 & Hn6).
    destruct (malloc h5) as [p6 h6]. cbn [fst snd] in *.
    rewrite Hl5 in Hl6, Hd6.
    destruct (malloc_spec h6) as (Hl7 & Hd7 & Hn7).
    destruct (malloc h6) as [p7 h7]. cbn [fst snd] in *.
    rewrite Hl6 in Hl7, Hd7.
    assert (Hnf : nfail h7 = (nfail h + served p1 + served p2 + served p3 +
                              served p4 + served p5 + served p6 + served p7)%nat)
      by lia.
    clear Hn1 Hn2 Hn3 Hn4 Hn5 Hn6 Hn7 Hl1 Hl2 Hl3 Hl4 Hl5 Hl6.
    repeat match goal with
           | H : _ ## _ ∪ (_ ∪ _) |- _ => apply disjoint_step in H
           end.
    repeat match goal with
           | H : _ ## _ ∪ live h |- _ => apply disjoint_step in H
           end.
    set (l := mkALayer _ p1 p2 p3 p4 p5 p6 p7).
    pose proof (AnnFreeLayer_live l h7) as HF.
    pose proof (AnnFreeLayer_nfail l h7) as HN.
    destruct (AnnFreeLayer l h7) as [l0 hF]. cbn [fst snd] in *.
    assert (Hall : live h7 = layer_blocks l ∪ live h ∧
                   layer_blocks l ## live h).
    { unfold layer_blocks, l.
      cbn [a_output a_error a_weight a_gradient a_pgradient a_delta a_sgradient].
      rewrite Hl7. clear -Hd1 Hd2 Hd3 Hd4 Hd5 Hd6 Hd7. set_solver. }
    assert (HF' : live hF = live h).
    { rewrite HF. destruct Hall as [-> Hdis]. clear -Hdis. set_solver. }
    rewrite Hnet. apply Nat.ltb_lt in Hpos.
    clear HF Hl7 Hd1 Hd2 Hd3 Hd4 Hd5 Hd6 Hd7.
    destruct p1, p2, p3, p4, p5, p6, p7;
      cbn [is_null orb andb served] in *;
      try (split_and!; [lia | exact HF' | reflexivity]).
    split; [lia|]. eexists. split; [reflexivity|].
    split; [|exact Hall].
    unfold layer_complete. cbn. split_and!; eauto.
  - assert (Hnf : nfail h2 = (nfail h + served p1 + served p2)%nat) by lia.
    clear Hn1 Hn2 Hl1.
    apply disjoint_step in Hd2.
    set (l := mkALayer _ p1 p2 _ _ _ _ _).
    pose proof (AnnFreeLayer_live l h2) as HF.
    pose proof (AnnFreeLayer_nfail l h2) as HN.
    destruct (AnnFreeLayer l h2) as [l0 hF]. cbn [fst snd] in *.
    assert (Hall : live h2 = layer_blocks l ∪ live h ∧
                   layer_blocks l ## live h).
    { unfold layer_blocks, l. cbn. rewrite Hl2. clear -Hd1 Hd2. set_solver. }
    assert (HF' : live hF = live h).
    { rewrite HF. destruct Hall as [-> Hdis]. clear -Hdis. set_solver. }
    rewrite Hnet. apply Nat.ltb_ge in Hpos.
    destruct p1, p2; cbn [is_null orb andb served] in *;
      try (split_and!; [lia | exact HF' | reflexivity]).
    split; [lia|]. eexists. split; [reflexivity|].
    split; [|exact Hall].
    unfold layer_complete. cbn. split_and!; eauto. intros. lia.
Qed.

Lemma init_layers_spec units_of n live0 m :
  ∀ k net h, (k + m = n)%nat → building n live0 k net h →
  match init_layers (seq k m) units_of net h with
  | (None, h') => live h' = live0 ∧ (nfail h < nfail h')%nat
  | (Some net', h') =>
      nfail h' = nfail h ∧ net_complete n net' ∧
      live h' = net_blocks net' ∪ live0 ∧ net_blocks net' ## live0
  end.
Proof.
  induction m as [|m IH]; intros k net h Hk (Hlen & Hdone & Htodo & Hlive & Hdisj).
  - cbn. split_and!; try done. split; [exact Hlen|].
    intros i l Hl. apply (Hdone i l); [|exact Hl].
    apply lookup_lt_Some in Hl. lia.
  - cbn [seq init_layers].
    pose proof (AnnInitLayer_spec net k (units_of k) (0 <? k)%nat h
                  (Htodo k ltac:(lia))) as Hinit.
    destruct (AnnInitLayer net k (units_of k) (0 <? k)%nat h)
      as [[[|] net1] h1].
    + destruct Hinit as (Hn & Hl & ->).
      rewrite AnnFree_live, AnnFree_nfail.
      split; [clear -Hl Hlive Hdisj; set_solver | exact Hn].
    + destruct Hinit as (Hn & l & -> & Hc & Hl & Hd).
      specialize (IH (S k)
                    (mkANet (a_self net) (a_layer net) (<[k := l]> (a_layers net)))
                    h1 ltac:(lia)).
      rewrite Hn in IH. apply IH. clear IH.
      assert (Hb : net_blocks
                     (mkANet (a_self net) (a_layer net)
                        (<[k := l]> (a_layers net)))
                   = layer_blocks l ∪ net_blocks net).
      { unfold net_blocks. cbn [a_self a_layer a_layers].
        rewrite insert_blocks by (apply Htodo; lia). clear. set_solver. }
      unfold building. rewrite Hb. cbn [a_layers].
      split_and!.
      * rewrite length_insert. exact Hlen.
      * intros i l' Hi Hl'. destruct (decide (i = k)) as [->|Hne].
        -- rewrite list_lookup_insert_eq in Hl' by lia.
           injection Hl' as <-. exact Hc.
        -- rewrite list_lookup_insert_ne in Hl' by congruence.
           apply (Hdone i l'); [lia | exact Hl'].
      * intros i Hi. rewrite list_lookup_insert_ne by lia. apply Htodo. lia.
      * clear -Hl Hlive. set_solver.
      * clear -Hd Hlive Hdisj. set_solver.
Qed.

Lemma AnnCreateNet_spec layers units h :
  match AnnCreateNet layers units h with
  | (None, h') => live h' = live h ∧ (nfail h < nfail h')%nat
  | (Some net, h') =>
      nfail h' = nfail h ∧ net_complete layers net ∧
      live h' = net_blocks net ∪ live h ∧ net_blocks net ## live h
  end.
Proof.
  unfold AnnCreateNet. pose proof (AnnAlloc_spec layers h) as Ha.
  destruct (AnnAlloc layers h) as [[net|] h1]; [|exact Ha].
  destruct Ha as (Hn & Hls & Hl & Hd).
  pose proof (init_layers_spec (λ i, default 0 (units !! i)) layers (live h)
                layers 0 net h1 ltac:(lia)) as Hi.
  rewrite Hn in Hi. apply Hi.
  unfold building. rewrite Hls. split_and!; try done.
  - apply length_replicate.
  - intros i l Hi'. lia.
  - intros i Hi'. apply lookup_replicate_2. lia.
Qed.

Lemma AnnClone_spec src_units h :
  match AnnClone src_units h with
  | (None, h') => live h' = live h ∧ (nfail h < nfail h')%nat
  | (Some net, h') =>
      nfail h' = nfail h ∧ net_complete (length src_units) net ∧
      live h' = net_blocks net ∪ live h ∧ net_blocks net ## live h
  end.
Proof.
  unfold AnnClone. pose proof (AnnAlloc_spec (length src_units) h) as Ha.
  destruct (AnnAlloc (length src_units) h) as [[net|] h1]; [|exact Ha].
  destruct Ha as (Hn & Hls & Hl & Hd).
  pose proof (init_layers_spec
                (λ j, default 0 (src_units !! j) - b2z (0 <? j)%nat)
                (length src_units) (live h)
                (length src_units) 0 net h1 ltac:(lia)) as Hi.
  rewrite Hn in Hi. apply Hi.
  unfold building. rewrite Hls. split_and!; try done.
  - apply length_replicate.
  - intros i l Hi'. lia.
  - intros i Hi'. apply lookup_replicate_2. lia.
Qed.

(** C8: whenever an allocation fails during [AnnCreateNet] or [AnnClone],
    be it in [AnnAlloc] or while a layer is initialised, the caller gets
    NULL and the heap holds exactly the blocks it held before the call:
    every layer and array allocated on the way has been released.  A net
    is returned only when no allocation failed, and then every array of
    every layer is allocated.  [AnnInitLayer] itself, on a failure, has
    released the arrays of its layer, left the layer reset and tells its
    caller by a non-zero result.  All of them return: none aborts. *)
Theorem construction_rolls_back :
  (∀ layers units h,
     let r := AnnCreateNet layers units h in
     ((nfail h < nfail r.2)%nat ↔ r.1 = None) ∧
     (r.1 = None → live r.2 = live h) ∧
     (∀ net, r.1 = Some net →
        net_complete layers net ∧
        live r.2 = net_blocks net ∪ live h ∧ net_blocks net ## live h)) ∧
  (∀ src_units h,
     let r := AnnClone src_units h in
     ((nfail h < nfail r.2)%nat ↔ r.1 = None) ∧
     (r.1 = None → live r.2 = live h) ∧
     (∀ net, r.1 = Some net →
        net_complete (length src_units) net ∧
        live r.2 = net_blocks net ∪ live h ∧ net_blocks net ## live h)) ∧
  (∀ net i u b h,
     a_layers net !! i = Some areset →
     let r := AnnInitLayer net i u b h in
     ((nfail h < nfail r.2)%nat ↔ r.1.1 = true) ∧
     (r.1.1 = true → live r.2 = live h ∧ r.1.2 = net) ∧
     (r.1.1 = false →
        ∃ l, a_layers r.1.2 !! i = Some l ∧ layer_complete i l ∧
             live r.2 = layer_blocks l ∪ live h)).
Proof.
  split_and!.
  - intros layers units h. cbv zeta.
    pose proof (AnnCreateNet_spec layers units h) as Hs.
    destruct (AnnCreateNet layers units h) as [[net|] h']; cbn [fst snd].
    + destruct Hs as (Hn & Hc & Hl & Hd). split_and!.
      * split; [lia | discriminate].
      * discriminate.
      * intros net' [= <-]. done.
    + destruct Hs as (Hl & Hn). split_and!; try done.
  - intros src_units h. cbv zeta.
    pose proof (AnnClone_spec src_units h) as Hs.
    destruct (AnnClone src_units h) as [[net|] h']; cbn [fst snd].
    + destruct Hs as (Hn & Hc & Hl & Hd). split_and!.
      * split; [lia | discriminate].
      * discriminate.
      * intros net' [= <-]. done.
    + destruct Hs as (Hl & Hn). split_and!; try done.
  - intros net i u b h Hi. cbv zeta.
    pose proof (AnnInitLayer_spec net i u b h Hi) as Hs.
    destruct (AnnInitLayer net i u b h) as [[[|] net'] h']; cbn [fst snd].
    + destruct Hs as (Hn & Hl & ->). split_and!; try done.
    + destruct Hs as (Hn & l & -> & Hc & Hl & Hd). split_and!.
      * split; [lia | discriminate].
      * discriminate.
      * intros _. exists l. cbn [a_layers].
        rewrite list_lookup_insert_eq by (apply lookup_lt_Some in Hi; exact Hi).
        done.
Qed.

End AllocFacts.

Lemma construction_rolls_back_witness :
  let net0 := Alloc.mkANet 0 1 [Alloc.areset] in
  let r := Alloc.AnnInitLayer net0 0 1 false heap_fail7 in
  Alloc.a_layers net0 !! 0%nat = Some Alloc.areset ∧
  (Alloc.AnnCreateNet 3 [1; 2; 2] heap_fail7).1 = None ∧
  Alloc.live (Alloc.AnnCreateNet 3 [1; 2; 2] heap_fail7).2 = ∅ ∧
  ∃ l, Alloc.a_layers r.1.2 !! 0%nat = Some l ∧ Alloc.layer_complete 0 l ∧
       Alloc.live r.2 = Alloc.layer_blocks l ∪ Alloc.live heap_fail7.
Proof.
  destruct AllocFacts.construction_rolls_back as (Hc & _ & Hi).
  assert (H0 : Alloc.a_layers (Alloc.mkANet 0 1 [Alloc.areset]) !! 0%nat
               = Some Alloc.areset) by reflexivity.
  cbv zeta. split; [exact H0|].
  specialize (Hi (Alloc.mkANet 0 1 [Alloc.areset]) 0%nat 1 false heap_fail7 H0).
  specialize (Hc 3%nat [1; 2; 2] heap_fail7).
  cbv zeta in Hc, Hi. destruct Hc as (Hnull & Hlive & _).
  destruct Hi as (_ & _ & Hok).
  assert (Hf : Nat.lt (Alloc.nfail heap_fail7)
                 (Alloc.nfail (Alloc.AnnCreateNet 3 [1; 2; 2] heap_fail7).2))
    by (vm_compute; lia).
  split; [exact (proj1 Hnull Hf)|].
  split; [rewrite (Hlive (proj1 Hnull Hf)); reflexivity|].
  apply Hok. vm_compute. reflexivity.
Defined.

(** * Loops with an invariant that follows the index *)
Section IndexedLoops.
Context {S : Type}.
Implicit Types (body : nat → S → S) (s : S).

Lemma for_loop_ind (P : nat → S → Prop) n body s :
  P 0%nat s →
  (∀ i s, (i < n)%nat → P i s → P (Datatypes.S i) (body i s)) →
  P n (for_loop n body s).
Proof.
  intros Hs Hstep. induction n as [|n IH]; [exact Hs|].
  rewrite for_loop_S. apply Hstep; [lia|]. apply IH.
  intros i s' Hi. apply Hstep. lia.
Qed.

Lemma for_loop_ext n body body' s :
  (∀ i s, (i < n)%nat → body i s = body' i s) →
  for_loop n body s = for_loop n body' s.
Proof.
  intros H. induction n as [|n IH]; [reflexivity|].
  rewrite !for_loop_S, IH by (intros; apply H; lia). apply H. lia.
Qed.

Lemma for_from_ind (P : nat → S → Prop) lo hi body s :
  (lo ≤ hi)%nat →
  P lo s →
  (∀ i s, (lo ≤ i < hi)%nat → P i s → P (Datatypes.S i) (body i s)) →
  P hi (for_from lo hi body s).
Proof.
  intros Hle Hs Hstep. induction hi as [|hi IH].
  - assert (lo = 0%nat) as -> by lia. exact Hs.
  - destruct (decide (lo ≤ hi)%nat) as [Hle'|Hgt].
    + rewrite for_from_S by exact Hle'. apply Hstep; [lia|].
      apply IH; [exact Hle'|]. intros i s' Hi. apply Hstep. lia.
    + assert (lo = Datatypes.S hi) as -> by lia.
      rewrite for_from_nil by lia. exact Hs.
Qed.

End IndexedLoops.

(** * What each pass may write *)
Section Frames.
Context {F : Type} {FO : FloatOps F}.
Implicit Types (net s : Ann F) (l : AnnLayer F) (a : list F) (m : mask).

Lemma same_unless_refl {A : Type} b (x : list A) : same_unless b x x.
Proof. split; reflexivity. Qed.

Lemma same_unless_trans {A : Type} b (x y z : list A) :
  same_unless b x y → same_unless b y z → same_unless b x z.
Proof.
  intros [H1 H1'] [H2 H2']. split; [congruence|].
  intros Hb. rewrite (H2' Hb). apply H1', Hb.
Qed.

Lemma same_unless_true {A : Type} (x y : list A) :
  length y = length x → same_unless true x y.
Proof. intros H. split; [exact H | discriminate]. Qed.

Lemma same_unless_weaken {A : Type} b b' (x y : list A) :
  (b = true → b' = true) → same_unless b x y → same_unless b' x y.
Proof.
  intros Hbb [H1 H2]. split; [exact H1|].
  intros Hb'. apply H2. destruct b; [|reflexivity].
  rewrite Hbb in Hb' by reflexivity. discriminate.
Qed.

Lemma same_unless_sym {A : Type} b (x y : list A) :
  same_unless b x y → same_unless b y x.
Proof. intros [H1 H2]. split; [congruence|]. intros Hb. symmetry. auto. Qed.

Lemma frame_refl m l : frame m l l.
Proof. unfold frame. split_and!; try reflexivity; apply same_unless_refl. Qed.

Lemma frame_trans m l1 l2 l3 : frame m l1 l2 → frame m l2 l3 → frame m l1 l3.
Proof.
  intros (Hu & H1 & H2 & H3 & H4 & H5 & H6 & H7)
         (Hu' & H1' & H2' & H3' & H4' & H5' & H6' & H7').
  unfold frame. split_and!; [congruence|..];
    eapply same_unless_trans; eassumption.
Qed.

Lemma frame_weaken m m' l l' : mask_le m m' → frame m l l' → frame m' l l'.
Proof.
  intros (L1 & L2 & L3 & L4 & L5 & L6 & L7)
         (Hu & H1 & H2 & H3 & H4 & H5 & H6 & H7).
  unfold frame. split_and!; [exact Hu|..];
    eapply same_unless_weaken; eassumption.
Qed.

Lemma frame_sym m l l' : frame m l l' → frame m l' l.
Proof.
  intros (Hu & H1 & H2 & H3 & H4 & H5 & H6 & H7).
  unfold frame. split_and!; [congruence|..]; apply same_unless_sym; assumption.
Qed.

Lemma net_frame_sym m net net' : net_frame m net net' → net_frame m net' net.
Proof.
  intros (Hh & HL & H). split_and!; try congruence.
  intros i. apply frame_sym, H.
Qed.

Lemma net_frame_refl m net : net_frame m net net.
Proof. split_and!; try reflexivity. intros i. apply frame_refl. Qed.

Lemma net_frame_trans m net1 net2 net3 :
  net_frame m net1 net2 → net_frame m net2 net3 → net_frame m net1 net3.
Proof.
  intros (Hh1 & HL1 & H1) (Hh2 & HL2 & H2). split_and!; try congruence.
  intros i. eapply frame_trans; [apply H1 | apply H2].
Qed.

Lemma net_frame_weaken m m' net net' :
  mask_le m m' → net_frame m net net' → net_frame m' net net'.
Proof.
  intros Hle (Hh & HL & H). split_and!; try assumption.
  intros i. eapply frame_weaken; [exact Hle | apply H].
Qed.

Lemma upd_layer_frame m j f net :
  (∀ l, frame m l (f l)) → net_frame m net (upd_layer j f net).
Proof.
  intros Hf. split_and!; [reflexivity | apply LAYERS_upd_layer |].
  intros i. destruct (decide (j = i)) as [->|Hne].
  - destruct (decide (i < LAYERS net)%nat) as [Hlt|Hge].
    + rewrite lay_upd_layer_eq by exact Hlt. apply Hf.
    + rewrite upd_layer_ge by lia. apply frame_refl.
  - rewrite lay_upd_layer_ne by exact Hne. apply frame_refl.
Qed.

Lemma for_loop_frame m n body net s0 :
  net_frame m net s0 →
  (∀ i s, net_frame m s (body i s)) →
  net_frame m net (for_loop n body s0).
Proof.
  intros H0 Hb. apply (for_loop_inv (net_frame m net)); [exact H0|].
  intros i s _ Hs. eapply net_frame_trans; [exact Hs | apply Hb].
Qed.

Lemma for_from_frame m lo hi body net s0 :
  net_frame m net s0 →
  (∀ i s, net_frame m s (body i s)) →
  net_frame m net (for_from lo hi body s0).
Proof.
  intros H0 Hb. apply (for_from_inv (net_frame m net)); [exact H0|].
  intros i s _ Hs. eapply net_frame_trans; [exact Hs | apply Hb].
Qed.

Lemma each_weight_frame m body net :
  (∀ j i s, net_frame m s (body j i s)) →
  net_frame m net (each_weight body net).
Proof.
  intros Hb. unfold each_weight.
  apply for_from_frame; [apply net_frame_refl|].
  intros j s. cbv zeta. apply for_loop_frame; [apply net_frame_refl|].
  intros i s'. apply Hb.
Qed.

(** Writing one entry of one array. *)
Lemma frame_set_output m l a :
  m_output m = true → length a = length (output l) →
  frame m l (set_output a l).
Proof.
  intros Hm Ha. unfold frame. simpl.
  split_and!; try reflexivity; try apply same_unless_refl.
  rewrite Hm. apply same_unless_true, Ha.
Qed.

Lemma frame_set_error m l a :
  m_error m = true → length a = length (error l) →
  frame m l (set_error a l).
Proof.
  intros Hm Ha. unfold frame. simpl.
  split_and!; try reflexivity; try apply same_unless_refl.
  rewrite Hm. apply same_unless_true, Ha.
Qed.

Lemma frame_set_weight m l a :
  m_weight m = true → length a = length (weight l) →
  frame m l (set_weight a l).
Proof.
  intros Hm Ha. unfold frame. simpl.
  split_and!; try reflexivity; try apply same_unless_refl.
  rewrite Hm. apply same_unless_true, Ha.
Qed.

Lemma frame_set_gradient m l a :
  m_gradient m = true → length a = length (gradient l) →
  frame m l (set_gradient a l).
Proof.
  intros Hm Ha. unfold frame. simpl.
  split_and!; try reflexivity; try apply same_unless_refl.
  rewrite Hm. apply same_unless_true, Ha.
Qed.

Lemma frame_set_sgradient m l a :
  m_sgradient m = true → length a = length (sgradient l) →
  frame m l (set_sgradient a l).
Proof.
  intros Hm Ha. unfold frame. simpl.
  split_and!; try reflexivity; try apply same_unless_refl.
  rewrite Hm. apply same_unless_true, Ha.
Qed.

Lemma frame_set_pgradient m l a :
  m_pgradient m = true → length a = length (pgradient l) →
  frame m l (set_pgradient a l).
Proof.
  intros Hm Ha. unfold frame. simpl.
  split_and!; try reflexivity; try apply same_unless_refl.
  rewrite Hm. apply same_unless_true, Ha.
Qed.

Lemma frame_set_delta m l a :
  m_delta m = true → length a = length (delta l) →
  frame m l (set_delta a l).
Proof.
  intros Hm Ha. unfold frame. simpl.
  split_and!; try reflexivity; try apply same_unless_refl.
  rewrite Hm. apply same_unless_true, Ha.
Qed.

(** Reading a frame. *)
Lemma net_frame_restore o e g sg pg d net net' :
  net_frame (mkMask o e true g sg pg d) net net' →
  (∀ i, weight (lay net' i) = weight (lay net i)) →
  net_frame (mkMask o e false g sg pg d) net net'.
Proof.
  intros (Hh & HL & H) Hw. split_and!; try assumption.
  intros i. destruct (H i) as (Hu & H1 & H2 & H3 & H4 & H5 & H6 & H7).
  unfold frame. simpl in *. split_and!; try assumption.
  split; [rewrite Hw; reflexivity | intros _; apply Hw].
Qed.

Lemma net_frame_units m net net' i :
  net_frame m net net' → units (lay net' i) = units (lay net i).
Proof. intros (_ & _ & H). apply (H i). Qed.

Lemma net_frame_output m net net' i :
  net_frame m net net' → m_output m = false →
  output (lay net' i) = output (lay net i).
Proof. intros (_ & _ & H) Hm. destruct (H i) as (_ & [_ Ho] & _). auto. Qed.

Lemma net_frame_weight m net net' i :
  net_frame m net net' → m_weight m = false →
  weight (lay net' i) = weight (lay net i).
Proof.
  intros (_ & _ & H) Hm. destruct (H i) as (_ & _ & _ & [_ Ho] & _). auto.
Qed.

Lemma net_frame_gradient m net net' i :
  net_frame m net net' → m_gradient m = false →
  gradient (lay net' i) = gradient (lay net i).
Proof.
  intros (_ & _ & H) Hm. destruct (H i) as (_ & _ & _ & _ & [_ Ho] & _). auto.
Qed.


Lemma net_frame_gradient_length m net net' i :
  net_frame m net net' →
  length (gradient (lay net' i)) = length (gradient (lay net i)).
Proof.
  intros (_ & _ & H). destruct (H i) as (_ & _ & _ & _ & [Ho _] & _). auto.
Qed.



Lemma net_frame_output_length m net net' i :
  net_frame m net net' →
  length (output (lay net' i)) = length (output (lay net i)).
Proof. intros (_ & _ & H). destruct (H i) as (_ & [Ho _] & _). auto. Qed.


Lemma net_frame_sgradient_length m net net' i :
  net_frame m net net' →
  length (sgradient (lay net' i)) = length (sgradient (lay net i)).
Proof.
  intros (_ & _ & H). destruct (H i) as (_ & _ & _ & _ & _ & [Ho _] & _). auto.
Qed.

(** The frames of the passes. *)
Lemma AnnCalculateOutputError_frame net desired :
  net_frame only_error net (AnnCalculateOutputError net desired).
Proof.
  unfold AnnCalculateOutputError. cbv zeta.
  apply for_loop_frame; [apply net_frame_refl|].
  intros j s. apply upd_layer_frame. intros l.
  apply frame_set_error; [reflexivity | apply length_insert].
Qed.

Lemma grad_unit_frame j i net : net_frame error_gradient net (grad_unit j i net).
Proof.
  unfold grad_unit. cbv zeta.
  apply for_loop_frame.
  - apply for_loop_frame; [apply net_frame_refl|].
    intros k s. apply upd_layer_frame. intros l.
    apply frame_set_gradient; [reflexivity | apply length_insert].
  - intros k s. apply upd_layer_frame. intros l.
    apply frame_set_error; [reflexivity | apply length_insert].
Qed.

Lemma AnnCalculateGradients_frame net desired :
  net_frame error_gradient net (AnnCalculateGradients net desired).
Proof.
  unfold AnnCalculateGradients. cbv zeta.
  apply for_loop_frame.
  { eapply net_frame_weaken; [|apply AnnCalculateOutputError_frame].
    unfold mask_le. simpl. tauto. }
  intros j s.
  apply for_loop_frame.
  - apply for_loop_frame; [apply net_frame_refl|].
    intros i s'. apply upd_layer_frame. intros l.
    apply frame_set_error; [reflexivity | apply length_insert].
  - intros i s'. apply grad_unit_frame.
Qed.

Lemma AnnSetInput_frame {HD : NNHeader F} net input :
  net_frame only_output net (AnnSetInput net input).
Proof.
  unfold AnnSetInput. cbv zeta.
  apply for_loop_frame; [apply net_frame_refl|].
  intros i s. apply upd_layer_frame. intros l.
  apply frame_set_output; [reflexivity | apply length_insert].
Qed.

Lemma AnnResetSgradient_frame net :
  net_frame only_sgradient net (AnnResetSgradient net).
Proof.
  apply each_weight_frame. intros j i s. apply upd_layer_frame. intros l.
  apply frame_set_sgradient; [reflexivity | apply length_insert].
Qed.

Lemma AnnUpdateSgradient_frame net :
  net_frame only_sgradient net (AnnUpdateSgradient net).
Proof.
  apply each_weight_frame. intros j i s. apply upd_layer_frame. intros l.
  apply frame_set_sgradient; [reflexivity | apply length_insert].
Qed.


End Frames.

(** * What a forward pass depends on *)
Section SimInputs.
Context {F : Type} {FO : FloatOps F} {FE : FloatExp F}.
Implicit Types (net s : Ann F) (l src dst : AnnLayer F).

Lemma layer_eq l l' :
  units l' = units l → output l' = output l → error l' = error l →
  weight l' = weight l → gradient l' = gradient l →
  sgradient l' = sgradient l → pgradient l' = pgradient l →
  delta l' = delta l → l' = l.
Proof.
  destruct l as [u o e w g sg pg d], l' as [u' o' e' w' g' sg' pg' d'].
  simpl. intros. congruence.
Qed.

Lemma ann_eq net net' :
  hyper net' = hyper net → LAYERS net' = LAYERS net →
  (∀ i, lay net' i = lay net i) → net' = net.
Proof.
  intros Hh HL Hlay.
  assert (Hls : layer net' = layer net).
  { apply list_eq. intros i. unfold LAYERS, lay in *.
    specialize (Hlay i).
    destruct (decide (i < length (layer net))%nat) as [Hlt|Hge].
    - destruct (lookup_lt_is_Some_2 (layer net) i Hlt) as [x Hx].
      destruct (lookup_lt_is_Some_2 (layer net') i) as [y Hy]; [lia|].
      rewrite Hx, Hy in *. simpl in Hlay. congruence.
    - rewrite !lookup_ge_None_2 by lia. reflexivity. }
  destruct net as [a b c d e g ls], net' as [a' b' c' d' e' g' ls'].
  unfold hyper in Hh. simpl in *. congruence.
Qed.

(** Recomputing the same outputs from the same source. *)
Lemma fwd_outputs_agree src n (o o' : list F) :
  length o' = length o →
  (∀ k, (n ≤ k)%nat → o' !! k = o !! k) →
  fwd_outputs src n o' = fwd_outputs src n o.
Proof.
  intros Hlen Hk. apply list_eq. intros k. rewrite !fwd_outputs_lookup.
  destruct (decide (k < n)%nat) as [Hlt|Hge]; [|apply Hk; lia].
  destruct (decide (k < length o)%nat) as [Hin|Hout].
  - destruct (lookup_lt_is_Some_2 o k Hin) as [x ->].
    destruct (lookup_lt_is_Some_2 o' k) as [y ->]; [lia|]. reflexivity.
  - rewrite !lookup_ge_None_2 by lia. reflexivity.
Qed.

Lemma same_inputs_outputs net s :
  same_inputs (sim_written net) net s →
  ∀ i, output (lay (AnnSimulate s) i) = output (lay (AnnSimulate net) i).
Proof.
  intros [HL H].
  assert (Hd : ∀ d i, (LAYERS net - i ≤ d)%nat →
            output (lay (AnnSimulate s) i) = output (lay (AnnSimulate net) i)).
  { induction d as [|d IH]; intros i Hi.
    - rewrite !AnnSimulate_lay_last by lia.
      destruct (H i) as (_ & _ & Hlen & Hk).
      apply list_eq. intros k. apply Hk. unfold sim_written.
      destruct (Nat.ltb_spec (S i) (LAYERS net)); lia.
    - destruct (decide (S i < LAYERS net)%nat) as [Hlt|Hge].
      + rewrite (AnnSimulate_lay s) by lia.
        rewrite (AnnSimulate_lay net) by lia.
        destruct (H i) as (Hu & _ & Hlen & Hk).
        unfold fwd. simpl. rewrite Hu.
        assert (Hsrc : fwd_outputs (lay (AnnSimulate s) (S i)) =
                       fwd_outputs (lay (AnnSimulate net) (S i))).
        { unfold fwd_outputs, activation.
          destruct (AnnSimulate_fields s (S i)) as (Hus & _ & _ & Hws & _).
          destruct (AnnSimulate_fields net (S i)) as (Hun & _ & _ & Hwn & _).
          destruct (H (S i)) as (Hu' & Hw' & _).
          rewrite Hus, Hws, Hun, Hwn, Hu', Hw', (IH (S i)) by lia.
          reflexivity. }
        rewrite Hsrc. apply fwd_outputs_agree; [exact Hlen|].
        intros k Hle. apply Hk. unfold sim_written.
        destruct (Nat.ltb_spec (S i) (LAYERS net)); [|lia].
        unfold UNITS. exact Hle.
      + rewrite !AnnSimulate_lay_last by lia.
        destruct (H i) as (_ & _ & Hlen & Hk).
        apply list_eq. intros k. apply Hk. unfold sim_written.
        destruct (Nat.ltb_spec (S i) (LAYERS net)); lia. }
  intros i. apply (Hd (LAYERS net)). lia.
Qed.

(** X5: the result of a forward pass is determined by the unit counts,
    the weights, the outputs of the input layer and the outputs in the
    bias slots: two nets that agree on these have the same outputs in
    every layer after [AnnSimulate], whatever the other outputs held
    before. *)
Theorem AnnSimulate_reads net s :
  same_inputs (sim_written net) net s →
  ∀ i, output (lay (AnnSimulate s) i) = output (lay (AnnSimulate net) i).
Proof. apply same_inputs_outputs. Qed.

Lemma AnnSimulate_frame net : net_frame only_output net (AnnSimulate net).
Proof.
  split_and!; [apply AnnSimulate_hyper | apply AnnSimulate_LAYERS |].
  intros i.
  destruct (AnnSimulate_fields net i) as (? & ? & ? & ? & ? & ? & ? & ?).
  unfold frame, same_unless. simpl. split_and!; try done; congruence.
Qed.

(** Nets that differ in outputs only. *)
Lemma frame_same_inputs w net s :
  net_frame only_output net s →
  (∀ i k, (w i ≤ k)%nat → output (lay s i) !! k = output (lay net i) !! k) →
  same_inputs w net s.
Proof.
  intros (_ & HL & H) Hk. split; [exact HL|]. intros i.
  destruct (H i) as (Hu & [Hlen _] & _ & [_ Hw] & _).
  split_and!; [exact Hu | apply Hw; reflexivity | exact Hlen | apply Hk].
Qed.

Lemma frame_output_eq net s :
  net_frame only_output net s →
  (∀ i, output (lay s i) = output (lay net i)) → s = net.
Proof.
  intros (Hh & HL & H) Ho. apply ann_eq; [exact Hh | exact HL|].
  intros i. destruct (H i) as (Hu & _ & [_ He] & [_ Hw] & [_ Hg] & [_ Hsg] &
                              [_ Hpg] & [_ Hd]).
  apply layer_eq; auto.
Qed.

Lemma AnnSimulate_agree net s :
  net_frame only_output net s →
  (∀ i k, (sim_written net i ≤ k)%nat →
          output (lay s i) !! k = output (lay net i) !! k) →
  AnnSimulate s = AnnSimulate net.
Proof.
  intros Hf Hk. apply frame_output_eq.
  - eapply net_frame_trans; [apply net_frame_sym, AnnSimulate_frame|].
    eapply net_frame_trans; [exact Hf | apply AnnSimulate_frame].
  - apply same_inputs_outputs. apply frame_same_inputs; assumption.
Qed.

End SimInputs.

(** * Setting the input and testing *)
Section Testing.
Context {F : Type} {FO : FloatOps F} {FE : FloatExp F} {HD : NNHeader F}.
Implicit Types (net s : Ann F) (l : AnnLayer F) (x d input desired : list F).

Lemma lay_ge net i : (LAYERS net ≤ i)%nat → lay net i = null_layer.
Proof.
  intros Hi. unfold lay, LAYERS in *. rewrite lookup_ge_None_2 by lia.
  reflexivity.
Qed.

Lemma set_input_loop n x j net :
  for_loop n
    (λ i s, upd_layer j (λ l, set_output (<[i := rd x i]> (output l)) l) s)
    net =
  upd_layer j
    (λ l, set_output (for_loop n (λ i o, <[i := rd x i]> o) (output l)) l) net.
Proof.
  induction n as [|n IH].
  - simpl. rewrite <- (upd_layer_id j net) at 1. apply upd_layer_ext.
    intros l. destruct l; reflexivity.
  - rewrite for_loop_S, IH, upd_layer_upd_layer. apply upd_layer_ext.
    intros l. simpl. rewrite for_loop_S. reflexivity.
Qed.

Lemma AnnSetInput_upd net x :
  AnnSetInput net x =
  upd_layer (LAYERS net - 1)
    (λ l, set_output
            (for_loop (count_of (INPUT_UNITS net)) (λ i o, <[i := rd x i]> o)
               (output l)) l) net.
Proof.
  unfold AnnSetInput. cbv zeta. rewrite <- set_input_loop.
  generalize (count_of (INPUT_UNITS net)). intros n.
  induction n as [|n IH]; [reflexivity|].
  rewrite !for_loop_S, IH. f_equal.
  rewrite set_input_loop, LAYERS_upd_layer. reflexivity.
Qed.

Lemma set_loop_lookup x n (o : list F) k :
  for_loop n (λ i o, <[i := rd x i]> o) o !! k =
  if decide (k < n)%nat then (λ _, rd x k) <$> o !! k else o !! k.
Proof. exact (for_loop_insert_lookup (λ i _, rd x i) n o k). Qed.

Lemma AnnSetInput_lay_last net x :
  (0 < LAYERS net)%nat →
  output (lay (AnnSetInput net x) (LAYERS net - 1)) =
  for_loop (count_of (INPUT_UNITS net)) (λ i o, <[i := rd x i]> o)
    (output (lay net (LAYERS net - 1))).
Proof.
  intros HL. rewrite AnnSetInput_upd, lay_upd_layer_eq by lia. reflexivity.
Qed.

Lemma AnnSetInput_lay_other net x i :
  i ≠ (LAYERS net - 1)%nat → lay (AnnSetInput net x) i = lay net i.
Proof.
  intros Hi. rewrite AnnSetInput_upd. apply lay_upd_layer_ne. congruence.
Qed.

(** X6: [AnnSetInput] copies the first [INPUT_UNITS] entries of the input
    into the outputs of the last layer and writes nothing else: the other
    layers, the other arrays and the outputs from index [INPUT_UNITS] on
    (the bias slot among them) are as before. *)
Theorem AnnSetInput_writes net input :
  let net' := AnnSetInput net input in
  let last := (LAYERS net - 1)%nat in
  let n := count_of (INPUT_UNITS net) in
  net_frame only_output net net' ∧
  (∀ i, i ≠ last → lay net' i = lay net i) ∧
  (∀ k, (k < n)%nat → (k < length (output (lay net last)))%nat →
        rd (output (lay net' last)) k = rd input k) ∧
  (∀ k, (n ≤ k)%nat →
        output (lay net' last) !! k = output (lay net last) !! k).
Proof.
  cbv zeta. split_and!.
  - apply AnnSetInput_frame.
  - intros i Hi. apply AnnSetInput_lay_other, Hi.
  - intros k Hk Hlen.
    assert (HL : (0 < LAYERS net)%nat).
    { destruct (decide (0 < LAYERS net)%nat) as [|H0]; [assumption|].
      rewrite lay_ge in Hlen by lia. simpl in Hlen. lia. }
    rewrite AnnSetInput_lay_last by exact HL. unfold rd at 1.
    rewrite set_loop_lookup. destruct (decide (k < _)%nat); [|lia].
    destruct (lookup_lt_is_Some_2 _ _ Hlen) as [y ->]. reflexivity.
  - intros k Hk. destruct (decide (0 < LAYERS net)%nat) as [HL|H0].
    + rewrite AnnSetInput_lay_last by exact HL. rewrite set_loop_lookup.
      destruct (decide (k < _)%nat); [lia | reflexivity].
    + rewrite AnnSetInput_upd, upd_layer_ge by lia. reflexivity.
Qed.

(** Setting the same input on nets that agree off the outputs that an
    example overwrites makes them agree on what a forward pass reads. *)
Lemma input_same_inputs net s x :
  input_units_by_shape net →
  same_inputs (test_written net) net s →
  same_inputs (sim_written (AnnSetInput net x)) (AnnSetInput net x)
    (AnnSetInput s x).
Proof.
  intros Hin [HL H].
  assert (Hu : ∀ i, units (lay s i) = units (lay net i)) by (intros i; apply H).
  assert (Hn : INPUT_UNITS s = INPUT_UNITS net) by (apply Hin; assumption).
  destruct (AnnSetInput_frame net x) as (_ & HLn & Hfn).
  destruct (AnnSetInput_frame s x) as (_ & HLs & Hfs).
  split; [congruence|]. intros i.
  destruct (H i) as (Hui & Hwi & Hli & Hki).
  pose proof (AnnSetInput_frame net x) as Fn.
  pose proof (AnnSetInput_frame s x) as Fs.
  assert (Hunits : units (lay (AnnSetInput s x) i) =
                   units (lay (AnnSetInput net x) i)).
  { rewrite (net_frame_units _ _ _ i Fn), (net_frame_units _ _ _ i Fs).
    exact Hui. }
  assert (Hweight : weight (lay (AnnSetInput s x) i) =
                    weight (lay (AnnSetInput net x) i)).
  { rewrite (net_frame_weight _ _ _ i Fn), (net_frame_weight _ _ _ i Fs)
      by reflexivity. exact Hwi. }
  assert (Hlen : length (output (lay (AnnSetInput s x) i)) =
                 length (output (lay (AnnSetInput net x) i))).
  { rewrite (net_frame_output_length _ _ _ i Fn),
      (net_frame_output_length _ _ _ i Fs). exact Hli. }
  split_and!; [exact Hunits | exact Hweight | exact Hlen|].
  intros k Hw. unfold sim_written in Hw. rewrite HLn in Hw.
  destruct (Nat.ltb_spec (S i) (LAYERS net)) as [Hlt|Hge].
  - rewrite !AnnSetInput_lay_other by lia.
    apply Hki. unfold test_written, sim_written.
    destruct (Nat.ltb_spec (S i) (LAYERS net)); [|lia].
    unfold UNITS in *. destruct (Hfn i) as (Hui' & _). rewrite <- Hui'.
    exact Hw.
  - destruct (decide (i < LAYERS net)%nat) as [Hi|Hi].
    + assert (i = (LAYERS net - 1)%nat) as -> by lia.
      rewrite <- HL at 1.
      rewrite !AnnSetInput_lay_last by lia. rewrite HL, Hn.
      rewrite !set_loop_lookup.
      destruct (decide (k < _)%nat) as [Hlt|Hnlt].
      * destruct (decide (k < length (output (lay net (LAYERS net - 1))))%nat)
          as [Hb|Hb].
        -- destruct (lookup_lt_is_Some_2 _ _ Hb) as [y ->].
           destruct (lookup_lt_is_Some_2 (output (lay s (LAYERS net - 1))) k)
             as [z ->]; [lia|]. reflexivity.
        -- rewrite !lookup_ge_None_2 by lia. reflexivity.
      * apply Hki. unfold test_written.
        destruct (Nat.ltb_spec (S (LAYERS net - 1)) (LAYERS net)); lia.
    + rewrite !lay_ge by lia. reflexivity.
Qed.

(** Nets that differ from [net] only in outputs that the next example
    overwrites. *)
Lemma test_step net s x :
  input_units_by_shape net →
  net_frame only_output net s →
  (∀ i k, (test_written net i ≤ k)%nat →
          output (lay s i) !! k = output (lay net i) !! k) →
  AnnSimulate (AnnSetInput s x) = AnnSimulate (AnnSetInput net x).
Proof.
  intros Hin Hf Hk.
  destruct (input_same_inputs net s x Hin) as [_ H].
  { apply frame_same_inputs; assumption. }
  apply AnnSimulate_agree.
  - eapply net_frame_trans; [apply net_frame_sym, AnnSetInput_frame|].
    eapply net_frame_trans; [exact Hf | apply AnnSetInput_frame].
  - intros i k Hw. apply (H i). exact Hw.
Qed.

Lemma test_step_inv net x :
  let s := AnnSimulate (AnnSetInput net x) in
  net_frame only_output net s ∧
  (∀ i k, (test_written net i ≤ k)%nat →
          output (lay s i) !! k = output (lay net i) !! k).
Proof.
  cbv zeta. split.
  - eapply net_frame_trans; [apply AnnSetInput_frame | apply AnnSimulate_frame].
  - intros i k Hw. unfold test_written, sim_written in Hw.
    destruct (AnnSetInput_frame net x) as (_ & HLn & Hfn).
    destruct (Nat.ltb_spec (S i) (LAYERS net)) as [Hlt|Hge].
    + rewrite AnnSimulate_unwritten.
      * rewrite AnnSetInput_lay_other by lia. reflexivity.
      * unfold UNITS in *. destruct (Hfn i) as (Hui & _). rewrite Hui.
        exact Hw.
    + rewrite AnnSimulate_lay_last by lia.
      destruct (decide (i < LAYERS net)%nat) as [Hi|Hi].
      * assert (i = (LAYERS net - 1)%nat) as -> by lia.
        rewrite AnnSetInput_lay_last by lia. rewrite set_loop_lookup.
        destruct (decide (k < _)%nat); [lia | reflexivity].
      * rewrite !lay_ge by lia. reflexivity.
Qed.

Context {FQ : FloatEq F}.

Lemma test_loop net input desired classerr n :
  input_units_by_shape net →
  let inputs := count_of (INPUT_UNITS net) in
  let outputs := count_of (OUTPUT_UNITS net) in
  let run j :=
    AnnSimulateError net (drop (j * inputs) input) (drop (j * outputs) desired) in
  for_loop n (λ j, test_example classerr inputs outputs)
    (net, fzero, 0, input, desired) =
  (match n with O => net | S j => (run j).1 end,
   for_loop n (λ j e, fadd e (run j).2) fzero,
   for_loop n
     (λ j c, if classerr
             then c + AnnTestClassError (run j).1 (drop (j * outputs) desired)
             else c) 0,
   drop (n * inputs) input, drop (n * outputs) desired).
Proof.
  intros Hin. cbv zeta.
  set (inputs := count_of (INPUT_UNITS net)).
  set (outputs := count_of (OUTPUT_UNITS net)).
  assert (Hinv : ∀ m,
            let s := match m with
                     | O => net
                     | S j => (AnnSimulateError net (drop (j * inputs) input)
                                 (drop (j * outputs) desired)).1
                     end in
            net_frame only_output net s ∧
            (∀ i k, (test_written net i ≤ k)%nat →
                    output (lay s i) !! k = output (lay net i) !! k)).
  { intros [|j]; cbv zeta.
    - split; [apply net_frame_refl | reflexivity].
    - apply test_step_inv. }
  induction n as [|n IH]; [reflexivity|].
  rewrite !for_loop_S, IH. clear IH.
  destruct (Hinv n) as [Hf Hk]. cbv zeta in Hf, Hk.
  set (s := match n with O => net | S j => _ end) in *.
  unfold test_example, AnnSimulateError.
  rewrite (test_step net s _ Hin Hf Hk).
  rewrite !drop_drop.
  replace (n * inputs + inputs)%nat with (S n * inputs)%nat by lia.
  replace (n * outputs + outputs)%nat with (S n * outputs)%nat by lia.
  reflexivity.
Qed.

Lemma class_count_bounds (f : nat → Z) n :
  (∀ j, 0 ≤ f j ≤ 1) →
  0 ≤ for_loop n (λ j c, c + f j) 0 ≤ Z.of_nat n.
Proof.
  intros Hf. induction n as [|n IH]; [rewrite for_loop_0; lia|].
  rewrite for_loop_S. cbv beta. specialize (Hf n).
  set (c := for_loop n _ 0) in *. lia.
Qed.

End Testing.

(** * The class test and the test set *)
Section ClassTest.
Context {F : Type} {FO : FloatOps F} {FQ : FloatEq F}.
Implicit Types (net s : Ann F) (desired out : list F).

Lemma class_scan_spec desired n i :
  let c := class_scan desired n i in
  (i ≤ c ≤ i + n)%nat ∧
  (∀ k, (i ≤ k < c)%nat → feq (rd desired k) (of_int 1) = false) ∧
  ((c < i + n)%nat → feq (rd desired c) (of_int 1) = true).
Proof.
  revert i. induction n as [|n IH]; intros i; cbn [class_scan].
  - cbv zeta. split_and!; [lia | lia | intros; lia | lia].
  - destruct (feq (rd desired i) (of_int 1)) eqn:Hi.
    + cbv zeta. split_and!; [lia | lia | intros; lia | intros; exact Hi].
    + destruct (IH (S i)) as ([H1 H2] & H3 & H4). cbv zeta.
      split_and!; [lia | lia | |intros; apply H4; lia].
      intros k Hk. destruct (decide (k = i)) as [->|Hne]; [exact Hi|].
      apply H3. lia.
Qed.

Lemma class_max_lt out outputs :
  (fst (class_max out outputs) < Nat.max 1 outputs)%nat.
Proof.
  unfold class_max.
  apply (for_from_inv (λ st : nat * F, (st.1 < Nat.max 1 outputs)%nat)).
  - simpl. lia.
  - intros i [outid max] Hi Hst. simpl in *.
    destruct (flt max (rd out i)); simpl; lia.
Qed.

(** The scan for the largest output keeps the first index that no
    output exceeds. *)
Lemma class_max_spec {FR : FloatOrder F} out outputs :
  (∀ a b c, (a < outputs)%nat → (b < outputs)%nat → (c < outputs)%nat →
     flt (rd out a) (rd out b) = false → flt (rd out b) (rd out c) = false →
     flt (rd out a) (rd out c) = false) →
  let outid := fst (class_max out outputs) in
  (∀ k, (k < outputs)%nat → flt (rd out outid) (rd out k) = false) ∧
  (∀ k, (k < outid)%nat → flt (rd out k) (rd out outid) = true).
Proof.
  intros Hnt. cbv zeta.
  destruct (decide (1 ≤ outputs)%nat) as [H1|H0].
  2:{ unfold class_max. rewrite for_from_nil by lia. simpl.
      split; intros k Hk; lia. }
  assert (HP : (λ n (st : nat * F),
            (st.1 < n)%nat ∧ st.2 = rd out st.1 ∧
            (∀ k, (k < n)%nat → flt (rd out st.1) (rd out k) = false) ∧
            (∀ k, (k < st.1)%nat → flt (rd out k) (rd out st.1) = true))
            outputs (class_max out outputs)).
  { unfold class_max. apply for_from_ind; [exact H1| |].
    - simpl. split_and!; [lia | reflexivity | | intros; lia].
      intros k Hk. assert (k = 0%nat) as -> by lia. apply flt_irrefl.
    - intros i [outid max] Hi (Hlt & Hmax & Hall & Hfirst).
      simpl in Hlt, Hmax, Hall, Hfirst. subst max.
      destruct (flt (rd out outid) (rd out i)) eqn:Hgt; simpl.
      + split_and!; [lia | reflexivity | |].
        * intros k Hk. destruct (decide (k = i)) as [->|Hne];
            [apply flt_irrefl|].
          destruct (flt (rd out i) (rd out k)) eqn:Hik; [|reflexivity].
          pose proof (flt_trans _ _ _ Hgt Hik) as Hok.
          rewrite Hall in Hok by lia. discriminate.
        * intros k Hk.
          destruct (flt (rd out k) (rd out i)) eqn:Hki; [reflexivity|].
          assert (Hc : flt (rd out outid) (rd out i) = false).
          { apply (Hnt outid k i); [lia | lia | lia | | exact Hki].
            apply Hall. lia. }
          congruence.
      + split_and!; [lia | reflexivity | | exact Hfirst].
        intros k Hk. destruct (decide (k = i)) as [->|Hne]; [exact Hgt|].
        apply Hall. lia. }
  simpl in HP. destruct HP as (_ & _ & Hall & Hfirst). split; assumption.
Qed.

(** X13: when no entry of the desired vector equals 1, a net with at least
    one output unit is always counted as misclassifying. *)
Theorem AnnTestClassError_unlabelled net desired :
  (0 < count_of (OUTPUT_UNITS net))%nat →
  (∀ k, (k < count_of (OUTPUT_UNITS net))%nat →
        feq (rd desired k) (of_int 1) = false) →
  AnnTestClassError net desired = 1.
Proof.
  intros Hpos Hno. unfold AnnTestClassError. cbv zeta.
  set (outputs := count_of (OUTPUT_UNITS net)) in *.
  destruct (class_scan_spec desired outputs 0) as ([_ Hle] & _ & Hhit).
  cbv zeta in Hle, Hhit.
  assert (Hc : class_scan desired outputs 0 = outputs).
  { destruct (decide (class_scan desired outputs 0 < 0 + outputs)%nat)
      as [Hlt|Hge]; [|lia].
    rewrite Hno in Hhit by lia. specialize (Hhit Hlt). discriminate. }
  rewrite Hc.
  pose proof (class_max_lt (output (lay net 0)) outputs) as Hlt.
  destruct (Nat.eqb_spec (class_max (output (lay net 0)) outputs).1 outputs)
    as [Heq|Hne]; [lia | reflexivity].
Qed.

(** X14: with the desired vector labelling class [c] (its first entry equal
    to 1) and outputs that [<] orders, the net is counted as right
    exactly when no output exceeds that of unit [c] and every output at a
    lower index is strictly below it: ties go to the lowest index. *)
Theorem AnnTestClassError_correct {FR : FloatOrder F} net desired c :
  let outputs := count_of (OUTPUT_UNITS net) in
  let out := output (lay net 0) in
  (c < outputs)%nat →
  feq (rd desired c) (of_int 1) = true →
  (∀ k, (k < c)%nat → feq (rd desired k) (of_int 1) = false) →
  (∀ a b c, (a < outputs)%nat → (b < outputs)%nat → (c < outputs)%nat →
     flt (rd out a) (rd out b) = false → flt (rd out b) (rd out c) = false →
     flt (rd out a) (rd out c) = false) →
  AnnTestClassError net desired = 0 ↔
  (∀ k, (k < outputs)%nat → flt (rd out c) (rd out k) = false) ∧
  (∀ k, (k < c)%nat → flt (rd out k) (rd out c) = true).
Proof.
  cbv zeta. intros Hc Hone Hfirst Hnt.
  set (outputs := count_of (OUTPUT_UNITS net)) in *.
  set (out := output (lay net 0)) in *.
  unfold AnnTestClassError. cbv zeta. fold outputs. fold out.
  destruct (class_scan_spec desired outputs 0) as ([_ Hle] & Hbefore & Hhit).
  cbv zeta in Hle, Hbefore, Hhit.
  assert (Hcid : class_scan desired outputs 0 = c).
  { set (c' := class_scan desired outputs 0) in *.
    destruct (Nat.lt_trichotomy c' c) as [Hlt|[Heq|Hgt]]; [|exact Heq|].
    - rewrite Hfirst in Hhit by exact Hlt. specialize (Hhit ltac:(lia)).
      discriminate.
    - rewrite Hbefore in Hone by lia. discriminate. }
  rewrite Hcid.
  destruct (class_max_spec out outputs Hnt) as [Hall Hlow].
  pose proof (class_max_lt out outputs) as Hlt.
  set (outid := (class_max out outputs).1) in *.
  destruct (Nat.eqb_spec outid c) as [Heq|Hne]; simpl.
  - split; [intros _; rewrite <- Heq; split; assumption | reflexivity].
  - split; [discriminate|]. intros [Hall' Hlow']. exfalso.
    destruct (Nat.lt_trichotomy outid c) as [Hlt'|[Heq|Hgt]]; [|lia|].
    + pose proof (Hlow' outid Hlt') as A. rewrite Hall in A by lia.
      discriminate.
    + pose proof (Hlow c Hgt) as A. rewrite Hall' in A by lia. discriminate.
Qed.

End ClassTest.

Section TestSet.
Context {F : Type} {FO : FloatOps F} {FE : FloatExp F} {HD : NNHeader F}
  {FQ : FloatEq F}.
Implicit Types (net s : Ann F) (input desired : list F).

Lemma AnnTestClassError_range net desired :
  0 ≤ AnnTestClassError net desired ≤ 1.
Proof. unfold AnnTestClassError, b2z. cbv zeta. destruct (negb _); lia. Qed.

(** X15: [AnnTestError] changes nothing but outputs: the hyperparameters,
    the unit counts, the weights and every other array of the net are as
    before, and no array changes length. *)
Theorem AnnTestError_frame net input desired setlen avgerr classerr :
  net_frame only_output net
    (AnnTestError net input desired setlen avgerr classerr).1.1.
Proof.
  unfold AnnTestError. cbv zeta.
  set (body := λ _ : nat, test_example _ _ _).
  assert (H : net_frame only_output net
                (for_loop (count_of setlen) body
                   (net, fzero, 0, input, desired)).1.1.1.1).
  { apply (for_loop_inv
             (λ st : Ann F * F * Z * list F * list F,
                net_frame only_output net st.1.1.1.1)).
    - apply net_frame_refl.
    - intros j [[[[s e] c] x] d] _ Hs. simpl in Hs. unfold body.
      simpl. eapply net_frame_trans; [exact Hs|].
      eapply net_frame_trans;
        [apply AnnSetInput_frame | apply AnnSimulate_frame]. }
  destruct (for_loop _ body _) as [[[[s e] c] x] d]. exact H.
Qed.

(** X16: when [INPUT_UNITS] depends on the shape of the net only,
    [AnnTestError] scores every example against the net as it was given:
    the reported average is the sum, in order, of the errors of the
    examples each run on the original net, divided by [setlen]; the class
    error is 100 times the number of misclassified examples, between 0
    and the number of examples, divided by [setlen]; the net is left as
    the run of the last example leaves the original net; a result whose
    pointer is NULL is not produced. *)
Theorem AnnTestError_examples net input desired setlen avgerr classerr :
  input_units_by_shape net →
  let n := count_of setlen in
  let inputs := count_of (INPUT_UNITS net) in
  let outputs := count_of (OUTPUT_UNITS net) in
  let run j :=
    AnnSimulateError net (drop (j * inputs) input) (drop (j * outputs) desired) in
  let error := for_loop n (λ j e, fadd e (run j).2) fzero in
  let class_errors :=
    for_loop n
      (λ j c, c + AnnTestClassError (run j).1 (drop (j * outputs) desired)) 0 in
  AnnTestError net input desired setlen avgerr classerr =
    (match n with O => net | S j => (run j).1 end,
     if avgerr then Some (fdiv error (of_int setlen)) else None,
     if classerr then
       Some (fdiv (fmul (of_int class_errors) (of_int 100)) (of_int setlen))
     else None) ∧
  0 ≤ class_errors ≤ Z.of_nat n.
Proof.
  intros Hin. cbv zeta. split.
  - unfold AnnTestError. cbv zeta.
    rewrite (test_loop net input desired classerr (count_of setlen) Hin).
    destruct classerr; reflexivity.
  - apply (class_count_bounds
             (λ j, AnnTestClassError
                     (AnnSimulateError net
                        (drop (j * count_of (INPUT_UNITS net)) input)
                        (drop (j * count_of (OUTPUT_UNITS net)) desired)).1
                     (drop (j * count_of (OUTPUT_UNITS net)) desired))).
    intros j. apply AnnTestClassError_range.
Qed.

End TestSet.

(** * The slow gradients *)
Section TrivialGradients.
Context {F : Type} {FO : FloatOps F} {FE : FloatExp F} {TD : TrivialDelta F}.
Implicit Types (net s : Ann F) (l : AnnLayer F) (desired : list F).

Lemma sim_written_frame m net net' i :
  net_frame m net net' → sim_written net' i = sim_written net i.
Proof.
  intros Hf. unfold sim_written, UNITS.
  rewrite (net_frame_units m net net' i Hf).
  destruct Hf as (_ & -> & _). reflexivity.
Qed.

Lemma AnnSimulate_off_written net i k :
  (sim_written net i ≤ k)%nat →
  output (lay (AnnSimulate net) i) !! k = output (lay net i) !! k.
Proof.
  unfold sim_written. intros Hk.
  destruct (Nat.ltb_spec (S i) (LAYERS net)) as [Hlt|Hge].
  - apply AnnSimulate_unwritten. exact Hk.
  - rewrite AnnSimulate_lay_last by lia. reflexivity.
Qed.

Lemma same_inputs_of_frame m w net s :
  net_frame m net s → m_weight m = false →
  (∀ i k, (w i ≤ k)%nat → output (lay s i) !! k = output (lay net i) !! k) →
  same_inputs w net s.
Proof.
  intros Hf Hm Hk. split; [apply Hf|]. intros i.
  split_and!; [eapply net_frame_units, Hf | eapply net_frame_weight; eauto | |
               apply Hk].
  destruct Hf as (_ & _ & H). destruct (H i) as (_ & [Hlen _] & _). exact Hlen.
Qed.

Lemma AnnGlobalError_outputs net s desired :
  units (lay s 0) = units (lay net 0) →
  output (lay s 0) = output (lay net 0) →
  AnnGlobalError s desired = AnnGlobalError net desired.
Proof.
  intros Hu Ho. unfold AnnGlobalError, OUTPUT_UNITS, UNITS.
  rewrite Hu, Ho. reflexivity.
Qed.

Lemma bump_weight_frame j i net : net_frame only_weight net (bump_weight j i net).
Proof.
  apply upd_layer_frame. intros l.
  apply frame_set_weight; [reflexivity | apply length_insert].
Qed.

Lemma bump_weight_weight j i net s k :
  LAYERS s = LAYERS net →
  weight (lay s k) = weight (lay net k) →
  weight (lay (bump_weight j i s) k) = weight (lay (bump_weight j i net) k).
Proof.
  intros HL Hw. unfold bump_weight.
  destruct (decide (j = k)) as [->|Hne].
  - destruct (decide (k < LAYERS net)%nat) as [Hlt|Hge].
    + rewrite !lay_upd_layer_eq by lia. simpl. rewrite Hw. reflexivity.
    + rewrite !upd_layer_ge by lia. exact Hw.
  - rewrite !lay_upd_layer_ne by exact Hne. exact Hw.
Qed.

(** The states the loop goes through: they differ from [net] in
    gradients and in outputs that a forward pass overwrites. *)
Lemma trivial_weight_inv net desired j i s :
  net_frame output_gradient net s →
  (∀ p k, (sim_written net p ≤ k)%nat →
          output (lay s p) !! k = output (lay net p) !! k) →
  let s' := trivial_weight desired j i s in
  net_frame output_gradient net s' ∧
  (∀ p k, (sim_written net p ≤ k)%nat →
          output (lay s' p) !! k = output (lay net p) !! k) ∧
  (∀ p k, (p, k) ≠ (j, i) →
          gradient (lay s' p) !! k = gradient (lay s p) !! k) ∧
  ((j < LAYERS net)%nat → (i < length (gradient (lay net j)))%nat →
   rd (gradient (lay s' j)) i = finite_difference net desired j i).
Proof.
  intros Hf Hk. unfold trivial_weight. cbv zeta.
  set (n1 := AnnSimulate s).
  set (n2 := bump_weight j i n1).
  set (n3 := AnnSimulate n2).
  set (t := rd (weight (lay n1 j)) i).
  set (n4 := upd_layer j (λ l, set_weight (<[i := t]> (weight l)) l) n3).
  set (v := fdiv _ GTRIVIAL_DELTA).
  set (n5 := upd_layer j (λ l, set_gradient (<[i := v]> (gradient l)) l) n4).
  assert (H1 : net_frame only_output s n1) by apply AnnSimulate_frame.
  assert (H2 : net_frame only_weight n1 n2) by apply bump_weight_frame.
  assert (H3 : net_frame only_output n2 n3) by apply AnnSimulate_frame.
  assert (H4 : net_frame only_weight n3 n4).
  { apply upd_layer_frame. intros l.
    apply frame_set_weight; [reflexivity | apply length_insert]. }
  assert (H5 : net_frame (mkMask false false false true false false false)
                 n4 n5).
  { apply upd_layer_frame. intros l.
    apply frame_set_gradient; [reflexivity | apply length_insert]. }
  assert (HL1 : LAYERS n1 = LAYERS net).
  { destruct H1 as (_ & -> & _). apply Hf. }
  assert (HL3 : LAYERS n3 = LAYERS net).
  { destruct H3 as (_ & -> & _). destruct H2 as (_ & -> & _). exact HL1. }
  assert (HL4 : LAYERS n4 = LAYERS net).
  { destruct H4 as (_ & -> & _). exact HL3. }
  (* the weight is put back *)
  assert (Hw : ∀ k, weight (lay n4 k) = weight (lay n1 k)).
  { intros k. unfold n4. destruct (decide (j = k)) as [->|Hne].
    - destruct (decide (k < LAYERS net)%nat) as [Hlt|Hge].
      + rewrite lay_upd_layer_eq by lia. simpl.
        rewrite (net_frame_weight _ _ _ k H3) by reflexivity.
        unfold n2, bump_weight. rewrite lay_upd_layer_eq by lia. simpl.
        rewrite list_insert_insert_eq. unfold t, rd.
        destruct (weight (lay n1 k) !! i) as [x|] eqn:Hx.
        * apply list_insert_id. exact Hx.
        * apply list_insert_ge. apply lookup_ge_None. exact Hx.
      + rewrite upd_layer_ge by lia.
        rewrite (net_frame_weight _ _ _ k H3) by reflexivity.
        unfold n2, bump_weight. rewrite upd_layer_ge by lia. reflexivity.
    - rewrite lay_upd_layer_ne by exact Hne.
      rewrite (net_frame_weight _ _ _ k H3) by reflexivity.
      unfold n2, bump_weight. rewrite lay_upd_layer_ne by exact Hne.
      reflexivity. }
  assert (Hall : net_frame (mkMask true false true true false false false)
                   net n5).
  { eapply net_frame_trans;
      [eapply net_frame_weaken; [|exact Hf]; unfold mask_le; simpl; tauto|].
    eapply net_frame_trans;
      [eapply net_frame_weaken; [|exact H1]; unfold mask_le; simpl; tauto|].
    eapply net_frame_trans;
      [eapply net_frame_weaken; [|exact H2]; unfold mask_le; simpl; tauto|].
    eapply net_frame_trans;
      [eapply net_frame_weaken; [|exact H3]; unfold mask_le; simpl; tauto|].
    eapply net_frame_trans;
      [eapply net_frame_weaken; [|exact H4]; unfold mask_le; simpl; tauto|].
    eapply net_frame_weaken; [|exact H5]. unfold mask_le; simpl; tauto. }
  assert (Hsame : same_inputs (sim_written net) net s)
    by (eapply same_inputs_of_frame; [exact Hf | reflexivity | exact Hk]).
  assert (Ho1 : ∀ p k, (sim_written net p ≤ k)%nat →
             output (lay n1 p) !! k = output (lay net p) !! k).
  { intros p k Hle. unfold n1. rewrite AnnSimulate_off_written.
    - apply Hk, Hle.
    - rewrite (sim_written_frame _ _ _ p Hf). exact Hle. }
  split_and!.
  - apply (net_frame_restore true false true false false false net n5 Hall).
    intros k. rewrite (net_frame_weight _ _ _ k H5) by reflexivity.
    rewrite Hw. rewrite (net_frame_weight _ _ _ k H1) by reflexivity.
    apply (net_frame_weight _ _ _ k Hf). reflexivity.
  - intros p k Hle.
    rewrite (net_frame_output _ _ _ p H5) by reflexivity.
    rewrite (net_frame_output _ _ _ p H4) by reflexivity.
    unfold n3. rewrite AnnSimulate_off_written.
    + rewrite (net_frame_output _ _ _ p H2) by reflexivity. apply Ho1, Hle.
    + rewrite (sim_written_frame _ _ _ p H2).
      rewrite (sim_written_frame _ _ _ p H1).
      rewrite (sim_written_frame _ _ _ p Hf). exact Hle.
  - intros p k Hne. unfold n5.
    assert (Hg : gradient (lay n4 p) = gradient (lay s p)).
    { rewrite (net_frame_gradient _ _ _ p H4) by reflexivity.
      rewrite (net_frame_gradient _ _ _ p H3) by reflexivity.
      rewrite (net_frame_gradient _ _ _ p H2) by reflexivity.
      apply (net_frame_gradient _ _ _ p H1). reflexivity. }
    destruct (decide (j = p)) as [->|Hjl].
    + destruct (decide (p < LAYERS net)%nat) as [Hlt|Hge].
      * rewrite lay_upd_layer_eq by lia. simpl.
        rewrite list_lookup_insert_ne by congruence. rewrite Hg. reflexivity.
      * rewrite upd_layer_ge by lia. rewrite Hg. reflexivity.
    + rewrite lay_upd_layer_ne by exact Hjl. rewrite Hg. reflexivity.
  - intros Hj Hi. unfold n5. rewrite lay_upd_layer_eq by lia. simpl.
    rewrite rd_insert_eq.
    2:{ rewrite (net_frame_gradient_length _ _ _ j H4).
        rewrite (net_frame_gradient_length _ _ _ j H3).
        rewrite (net_frame_gradient_length _ _ _ j H2).
        rewrite (net_frame_gradient_length _ _ _ j H1).
        rewrite (net_frame_gradient_length _ _ _ j Hf). exact Hi. }
    unfold v, finite_difference. f_equal. f_equal.
    + apply AnnGlobalError_outputs.
      * unfold n3. rewrite (net_frame_units _ _ _ 0%nat (AnnSimulate_frame n2)).
        rewrite (net_frame_units _ _ _ 0%nat H2).
        rewrite (net_frame_units _ _ _ 0%nat H1).
        rewrite (net_frame_units _ _ _ 0%nat Hf).
        rewrite (net_frame_units _ _ _ 0%nat
                   (AnnSimulate_frame (bump_weight j i net))).
        rewrite (net_frame_units _ _ _ 0%nat (bump_weight_frame j i net)).
        reflexivity.
      * unfold n3. apply same_inputs_outputs.
        pose proof (bump_weight_frame j i net) as Hb.
        split; [destruct H2 as (_ & -> & _), Hb as (_ & -> & _); exact HL1|].
        intros p. split_and!.
        -- rewrite (net_frame_units _ _ _ p H2).
           rewrite (net_frame_units _ _ _ p H1).
           rewrite (net_frame_units _ _ _ p Hf).
           rewrite (net_frame_units _ _ _ p Hb). reflexivity.
        -- unfold n2. apply bump_weight_weight; [exact HL1|].
           rewrite (net_frame_weight _ _ _ p H1) by reflexivity.
           apply (net_frame_weight _ _ _ p Hf). reflexivity.
        -- rewrite (net_frame_output _ _ _ p H2) by reflexivity.
           rewrite (net_frame_output _ _ _ p Hb) by reflexivity.
           destruct H1 as (_ & _ & H1). destruct (H1 p) as (_ & [-> _] & _).
           destruct Hf as (_ & _ & Hf). destruct (Hf p) as (_ & [-> _] & _).
           reflexivity.
        -- intros k Hle.
           rewrite (net_frame_output _ _ _ p H2) by reflexivity.
           rewrite (net_frame_output _ _ _ p Hb) by reflexivity.
           apply Ho1. rewrite <- (sim_written_frame _ _ _ p Hb). exact Hle.
    + apply AnnGlobalError_outputs.
      * unfold n1. rewrite (net_frame_units _ _ _ 0%nat (AnnSimulate_frame s)).
        rewrite (net_frame_units _ _ _ 0%nat Hf).
        rewrite (net_frame_units _ _ _ 0%nat (AnnSimulate_frame net)).
        reflexivity.
      * unfold n1. apply same_inputs_outputs, Hsame.
Qed.

End TrivialGradients.

Section TrivialLoops.
Context {F : Type} {FO : FloatOps F} {FE : FloatExp F} {TD : TrivialDelta F}.
Implicit Types (net s : Ann F) (l : AnnLayer F) (desired : list F).


(** X17: [AnnCalculateGradientsTrivial] puts every weight back: after it
    the net differs from the one given in outputs and gradients only;
    weights, deltas, errors, unit counts, hyperparameters and array
    lengths are as before. *)
Theorem AnnCalculateGradientsTrivial_restores net desired :
  net_frame output_gradient net (AnnCalculateGradientsTrivial net desired).
Proof.
  apply each_weight_frame. intros j i s.
  apply (trivial_weight_inv s desired j i s (net_frame_refl _ s)).
  reflexivity.
Qed.


End TrivialLoops.

(** * Back-propagation layer by layer *)
Section BackProp.
Context {F : Type} {FO : FloatOps F}.
Implicit Types (net s : Ann F) (l cur prev : AnnLayer F) (a g e o w : list F).

Lemma upd_layer_ext_at j f h net :
  ((j < LAYERS net)%nat → f (lay net j) = h (lay net j)) →
  upd_layer j f net = upd_layer j h net.
Proof.
  intros Hfh. unfold upd_layer. f_equal. apply list_alter_ext; [|done].
  intros x Hx. unfold lay, LAYERS in Hfh. rewrite Hx in Hfh. apply Hfh.
  apply lookup_lt_Some in Hx. exact Hx.
Qed.

(** A loop that updates one layer is an update of that layer by a loop. *)
Lemma upd_layer_loop q n (f : nat → AnnLayer F → AnnLayer F) s :
  for_loop n (λ k s, upd_layer q (f k) s) s = upd_layer q (for_loop n f) s.
Proof.
  induction n as [|n IH].
  - symmetry. apply upd_layer_id.
  - rewrite for_loop_S, IH, upd_layer_upd_layer. apply upd_layer_ext.
    intros l. simpl. rewrite for_loop_S. reflexivity.
Qed.

Lemma zero_errors_layer n l :
  for_loop n (λ i l, set_error (<[i := fzero]> (error l)) l) l =
  set_error (for_loop n (λ i e, <[i := fzero]> e) (error l)) l.
Proof.
  induction n as [|n IH]; [destruct l; reflexivity|].
  rewrite !for_loop_S, IH. reflexivity.
Qed.

Lemma grad_row_layer sig p i n l :
  for_loop n
    (λ k l, set_gradient
              (<[(i * p + k)%nat := fmul sig (rd (output l) k)]> (gradient l)) l)
    l =
  set_gradient
    (for_loop n (λ k g, <[(i * p + k)%nat := fmul sig (rd (output l) k)]> g)
       (gradient l)) l.
Proof.
  induction n as [|n IH]; [destruct l; reflexivity|].
  rewrite !for_loop_S, IH. reflexivity.
Qed.

Lemma err_acc_layer sig p i n l :
  for_loop n
    (λ k l, set_error
              (<[k := fadd (rd (error l) k)
                        (fmul sig (rd (weight l) (i * p + k)))]> (error l)) l)
    l =
  set_error
    (for_loop n
       (λ k e, <[k := fadd (rd e k) (fmul sig (rd (weight l) (i * p + k)))]> e)
       (error l)) l.
Proof.
  induction n as [|n IH]; [destruct l; reflexivity|].
  rewrite !for_loop_S, IH. reflexivity.
Qed.

(** One unit of the current layer, seen from the previous layer. *)
Lemma grad_unit_upd j i s :
  grad_unit j i s =
  upd_layer (j + 1)
    (λ l, let p := count_of (units (lay s (j + 1))) in
          let sig := error_signal (lay s j) i in
          set_error (err_acc sig (weight l) p i (error l))
            (set_gradient (grad_row sig (output l) p i (gradient l)) l))
    s.
Proof.
  unfold grad_unit. cbv zeta.
  fold (error_signal (lay s j) i).
  set (sig := error_signal (lay s j) i).
  set (p := count_of (units (lay s (j + 1)))).
  rewrite (upd_layer_loop (j + 1) p
             (λ k l, set_gradient
                       (<[(i * p + k)%nat := fmul sig (rd (output l) k)]>
                          (gradient l)) l)).
  rewrite (upd_layer_loop (j + 1) p
             (λ k l, set_error
                       (<[k := fadd (rd (error l) k)
                                 (fmul sig (rd (weight l) (i * p + k)))]>
                          (error l)) l)).
  rewrite upd_layer_upd_layer. apply upd_layer_ext. intros l. simpl.
  rewrite grad_row_layer, err_acc_layer. reflexivity.
Qed.

Lemma grad_units_layer (sig : nat → F) p n l :
  for_loop n
    (λ i l, set_error (err_acc (sig i) (weight l) p i (error l))
              (set_gradient (grad_row (sig i) (output l) p i (gradient l)) l))
    l =
  set_error
    (for_loop n (λ i e, err_acc (sig i) (weight l) p i e) (error l))
    (set_gradient
       (for_loop n (λ i g, grad_row (sig i) (output l) p i g) (gradient l)) l).
Proof.
  induction n as [|n IH]; [destruct l; reflexivity|].
  rewrite !for_loop_S, IH. reflexivity.
Qed.

Lemma grad_units_upd j n s :
  for_loop n (grad_unit j) s =
  upd_layer (j + 1)
    (for_loop n
       (λ i l, let p := count_of (units (lay s (j + 1))) in
               let sig := error_signal (lay s j) i in
               set_error (err_acc sig (weight l) p i (error l))
                 (set_gradient (grad_row sig (output l) p i (gradient l)) l)))
    s.
Proof.
  induction n as [|n IH].
  - symmetry. apply upd_layer_id.
  - rewrite for_loop_S, IH, grad_unit_upd.
    set (G := for_loop n _).
    assert (Hu : ∀ l, units (G l) = units l).
    { intros l. unfold G.
      apply (for_loop_inv (λ l' : AnnLayer F, units l' = units l));
        [reflexivity|]. intros i l' _ Hl'. exact Hl'. }
    rewrite (lay_upd_layer_ne (j + 1) j) by lia.
    pose proof (UNITS_upd_layer (j + 1) (j + 1) G s Hu) as Hp.
    unfold UNITS in Hp. rewrite Hp.
    rewrite upd_layer_upd_layer. apply upd_layer_ext. intros l.
    simpl. unfold G. rewrite for_loop_S. reflexivity.
Qed.

(** One pass of the layer loop is [back] on the previous layer. *)
Lemma back_step j s :
  (let prevunits := count_of (units (lay s (j + 1))) in
   let units := units (lay s j) in
   let units := if (1 <? j)%nat then units - 1 else units in
   let s1 :=
     for_loop prevunits
       (λ i s, upd_layer (j + 1)
                 (λ l, set_error (<[i := fzero]> (error l)) l) s) s in
   for_loop (count_of units) (grad_unit j) s1) =
  upd_layer (j + 1)
    (back (lay s j) (count_of (units (lay s j) - b2z (1 <? j)%nat))) s.
Proof.
  cbv zeta.
  assert (Hb : (if (1 <? j)%nat then units (lay s j) - 1 else units (lay s j)) =
               units (lay s j) - b2z (1 <? j)%nat).
  { destruct (1 <? j)%nat; simpl; lia. }
  rewrite Hb.
  set (n := count_of (units (lay s j) - b2z (1 <? j)%nat)).
  set (p := count_of (units (lay s (j + 1)))).
  rewrite (upd_layer_loop (j + 1) p
             (λ i l, set_error (<[i := fzero]> (error l)) l)).
  set (Z0 := for_loop p (λ i l, set_error (<[i := fzero]> (error l)) l)).
  assert (Hu : ∀ l, units (Z0 l) = units l).
  { intros l. unfold Z0. rewrite zero_errors_layer. reflexivity. }
  rewrite grad_units_upd.
  rewrite (lay_upd_layer_ne (j + 1) j) by lia.
  pose proof (UNITS_upd_layer (j + 1) (j + 1) Z0 s Hu) as Hp.
  unfold UNITS in Hp. rewrite Hp. fold p.
  rewrite upd_layer_upd_layer. apply upd_layer_ext_at. intros Hlt.
  simpl. unfold Z0. rewrite zero_errors_layer.
  rewrite (grad_units_layer (λ i, error_signal (lay s j) i) p n).
  unfold back. fold p. reflexivity.
Qed.

Lemma back_units cur n prev : units (back cur n prev) = units prev.
Proof. reflexivity. Qed.

Lemma AnnCalculateOutputError_lay net desired :
  let n0 := AnnCalculateOutputError net desired in
  (∀ k, k ≠ 0%nat → lay n0 k = lay net k) ∧
  units (lay n0 0) = units (lay net 0) ∧
  output (lay n0 0) = output (lay net 0).
Proof.
  cbv zeta. unfold AnnCalculateOutputError. cbv zeta.
  rewrite (upd_layer_loop 0 _
             (λ j l, set_error
                       (<[j := fmul (fdiv (of_int 2) (of_int (OUTPUT_UNITS net)))
                                 (fsub (rd (output l) j) (rd desired j))]>
                          (error l)) l)).
  set (G := for_loop _ _).
  assert (HG : ∀ l, units (G l) = units l ∧ output (G l) = output l).
  { intros l. unfold G.
    apply (for_loop_inv
             (λ l' : AnnLayer F, units l' = units l ∧ output l' = output l));
      [done|]. intros i l' _ Hl'. exact Hl'. }
  split_and!.
  - intros k Hk. apply lay_upd_layer_ne. congruence.
  - destruct (decide (0 < LAYERS net)%nat).
    + rewrite lay_upd_layer_eq by lia. apply HG.
    + rewrite upd_layer_ge by lia. reflexivity.
  - destruct (decide (0 < LAYERS net)%nat).
    + rewrite lay_upd_layer_eq by lia. apply HG.
    + rewrite upd_layer_ge by lia. reflexivity.
Qed.

(** The layers after [AnnCalculateGradients]: layer 0 carries the
    output errors; every other layer is [back] of the layer before it
    as that layer is after the pass. *)
Lemma AnnCalculateGradients_lay net desired :
  let n' := AnnCalculateGradients net desired in
  lay n' 0 = lay (AnnCalculateOutputError net desired) 0 ∧
  ∀ j, (S j < LAYERS net)%nat →
    lay n' (S j) = back (lay n' j) (back_bound net j) (lay net (S j)).
Proof.
  cbv zeta. unfold AnnCalculateGradients. cbv zeta.
  set (n0 := AnnCalculateOutputError net desired).
  destruct (AnnCalculateOutputError_lay net desired) as (Hother & Hu0 & _).
  fold n0 in Hother, Hu0.
  assert (HL0 : LAYERS n0 = LAYERS net) by apply AnnCalculateOutputError_frame.
  assert (HP : (λ m s,
            LAYERS s = LAYERS net ∧
            (∀ k, units (lay s k) = units (lay net k)) ∧
            (∀ k, (k = 0 ∨ m < k)%nat → lay s k = lay n0 k) ∧
            (∀ j, (j < m)%nat →
               lay s (S j) = back (lay s j) (back_bound net j) (lay net (S j))))
           (LAYERS net - 1)%nat
           (for_loop (LAYERS net - 1)
              (λ j s,
                 let prevunits := count_of (units (lay s (j + 1))) in
                 let units := units (lay s j) in
                 let units := if (1 <? j)%nat then units - 1 else units in
                 let s1 :=
                   for_loop prevunits
                     (λ i s, upd_layer (j + 1)
                               (λ l, set_error (<[i := fzero]> (error l)) l) s)
                     s in
                 for_loop (count_of units) (grad_unit j) s1) n0)).
  { apply for_loop_ind.
    - split_and!; [exact HL0 | | reflexivity | intros; lia].
      intros k. destruct (decide (k = 0%nat)) as [->|Hk]; [exact Hu0|].
      rewrite Hother by exact Hk. reflexivity.
    - intros m s Hm (HL & Hu & Hout & Hin). rewrite back_step.
      replace (m + 1)%nat with (S m) by lia.
      assert (Hb : count_of (units (lay s m) - b2z (1 <? m)%nat) =
                   back_bound net m).
      { unfold back_bound, UNITS. rewrite Hu. reflexivity. }
      rewrite Hb.
      split_and!.
      + rewrite LAYERS_upd_layer. exact HL.
      + intros k. destruct (decide (S m = k)) as [<-|Hne].
        * rewrite lay_upd_layer_eq by lia. rewrite back_units. apply Hu.
        * rewrite lay_upd_layer_ne by exact Hne. apply Hu.
      + intros k Hk. rewrite lay_upd_layer_ne by lia. apply Hout. lia.
      + intros j Hj. destruct (decide (j = m)) as [->|Hne].
        * rewrite lay_upd_layer_eq by lia.
          rewrite lay_upd_layer_ne by lia.
          rewrite (Hout (S m)) by lia. rewrite Hother by lia. reflexivity.
        * rewrite !lay_upd_layer_ne by lia. apply Hin. lia. }
  cbv beta in HP. destruct HP as (_ & _ & Hout & Hin).
  split.
  - apply Hout. lia.
  - intros j Hj. apply Hin. lia.
Qed.

(** The arrays that [back] fills, entry by entry. *)
Lemma insert_loop_length (idx : nat → nat) (v : nat → F) n a :
  length (for_loop n (λ k a, <[idx k := v k]> a) a) = length a.
Proof.
  apply (for_loop_inv (λ b : list F, length b = length a)); [reflexivity|].
  intros i b _ Hb. rewrite length_insert. exact Hb.
Qed.

Lemma row_lookup (v : nat → F) base n a m :
  for_loop n (λ k a, <[(base + k)%nat := v k]> a) a !! m =
  if decide (base ≤ m < base + n)%nat
  then (λ _, v (m - base)%nat) <$> a !! m else a !! m.
Proof.
  induction n as [|n IH].
  - destruct (decide _); [lia | reflexivity].
  - rewrite for_loop_S.
    rewrite list_lookup_insert,
      (insert_loop_length (λ k, (base + k)%nat) v n a).
    destruct (decide ((base + n)%nat = m ∧ (base + n < length a)%nat))
      as [[<- Hlt]|Hn].
    + clear IH. destruct (decide _); [|lia].
      destruct (lookup_lt_is_Some_2 a _ Hlt) as [x ->]. simpl.
      replace (base + n - base)%nat with n by lia. reflexivity.
    + rewrite IH.
      destruct (decide (base ≤ m < base + n)%nat),
               (decide (base ≤ m < base + S n)%nat);
        try lia; try reflexivity.
      assert (m = (base + n)%nat) as -> by lia.
      rewrite (lookup_ge_None_2 a) by lia. reflexivity.
Qed.

Lemma grad_row_lookup sig o p i g m :
  grad_row sig o p i g !! m =
  if decide (i * p ≤ m < i * p + p)%nat
  then (λ _, fmul sig (rd o (m - i * p))) <$> g !! m else g !! m.
Proof.
  unfold grad_row.
  exact (row_lookup (λ k, fmul sig (rd o k)) (i * p) p g m).
Qed.

Lemma grad_row_length sig o p i g : length (grad_row sig o p i g) = length g.
Proof.
  unfold grad_row.
  exact (insert_loop_length (λ k, (i * p + k)%nat) (λ k, fmul sig (rd o k)) p g).
Qed.

Lemma grad_rows_length (sig : nat → F) o p n g :
  length (for_loop n (λ i g, grad_row (sig i) o p i g) g) = length g.
Proof.
  apply (for_loop_inv (λ b : list F, length b = length g)); [reflexivity|].
  intros i b _ Hb. rewrite grad_row_length. exact Hb.
Qed.

Lemma grad_rows_rd (sig : nat → F) o p n g i k :
  (i < n)%nat → (k < p)%nat → (i * p + k < length g)%nat →
  rd (for_loop n (λ i g, grad_row (sig i) o p i g) g) (i * p + k) =
  fmul (sig i) (rd o k).
Proof.
  intros Hi Hk Hlen. induction n as [|n IH]; [lia|].
  rewrite for_loop_S. unfold rd at 1. rewrite grad_row_lookup.
  destruct (decide (i = n)) as [->|Hne].
  - destruct (decide _) as [_|Hno]; [|lia].
    destruct (lookup_lt_is_Some_2
                (for_loop n (λ i g, grad_row (sig i) o p i g) g)
                (n * p + k)) as [x ->].
    { rewrite grad_rows_length. exact Hlen. }
    simpl. replace (n * p + k - n * p)%nat with k by lia. reflexivity.
  - destruct (decide _) as [Hin|_]; [nia|]. apply IH. lia.
Qed.

Lemma grad_rows_rest (sig : nat → F) o p n g m :
  (n * p ≤ m)%nat →
  for_loop n (λ i g, grad_row (sig i) o p i g) g !! m = g !! m.
Proof.
  intros Hm. induction n as [|n IH]; [reflexivity|].
  rewrite for_loop_S, grad_row_lookup.
  destruct (decide _) as [Hin|_]; [lia|]. apply IH. lia.
Qed.

Lemma err_acc_lookup sig w p i e k :
  err_acc sig w p i e !! k =
  if decide (k < p)%nat
  then (λ x, fadd x (fmul sig (rd w (i * p + k)))) <$> e !! k else e !! k.
Proof.
  unfold err_acc.
  exact (for_loop_insert_lookup
           (λ k x, fadd x (fmul sig (rd w (i * p + k)))) p e k).
Qed.

Lemma err_acc_length sig w p i e : length (err_acc sig w p i e) = length e.
Proof.
  unfold err_acc.
  apply (for_loop_inv (λ b : list F, length b = length e)); [reflexivity|].
  intros j b _ Hb. rewrite length_insert. exact Hb.
Qed.

Lemma err_accs_length (sig : nat → F) w p n e :
  length (for_loop n (λ i e, err_acc (sig i) w p i e) e) = length e.
Proof.
  apply (for_loop_inv (λ b : list F, length b = length e)); [reflexivity|].
  intros i b _ Hb. rewrite err_acc_length. exact Hb.
Qed.

Lemma err_accs_rd (sig : nat → F) w p n e k :
  (k < p)%nat → (k < length e)%nat →
  rd (for_loop n (λ i e, err_acc (sig i) w p i e) e) k =
  for_loop n (λ i acc, fadd acc (fmul (sig i) (rd w (i * p + k)))) (rd e k).
Proof.
  intros Hk Hlen. induction n as [|n IH]; [reflexivity|].
  rewrite !for_loop_S. unfold rd at 1. rewrite err_acc_lookup.
  destruct (decide _) as [_|Hno]; [|lia].
  destruct (lookup_lt_is_Some_2
              (for_loop n (λ i e, err_acc (sig i) w p i e) e) k) as [x Hx].
  { rewrite err_accs_length. exact Hlen. }
  rewrite Hx. simpl. f_equal. rewrite <- IH. unfold rd. rewrite Hx.
  reflexivity.
Qed.

Lemma err_accs_rest (sig : nat → F) w p n e k :
  (p ≤ k)%nat →
  for_loop n (λ i e, err_acc (sig i) w p i e) e !! k = e !! k.
Proof.
  intros Hk. induction n as [|n IH]; [reflexivity|].
  rewrite for_loop_S, err_acc_lookup.
  destruct (decide _) as [Hin|_]; [lia|]. exact IH.
Qed.

End BackProp.

Section BackPropValues.
Context {F : Type} {FO : FloatOps F}.
Implicit Types (net s : Ann F) (l cur prev : AnnLayer F) (desired : list F).

Lemma output_error_layer (v : nat → F → F) n l :
  for_loop n
    (λ j l, set_error (<[j := v j (rd (output l) j)]> (error l)) l) l =
  set_error
    (for_loop n (λ j e, <[j := v j (rd (output l) j)]> e) (error l)) l.
Proof.
  induction n as [|n IH]; [destruct l; reflexivity|].
  rewrite !for_loop_S, IH. reflexivity.
Qed.

Lemma AnnCalculateOutputError_lookup net desired j :
  (0 < LAYERS net)%nat →
  error (lay (AnnCalculateOutputError net desired) 0) !! j =
  if decide (j < count_of (OUTPUT_UNITS net))%nat
  then (λ _, fmul (fdiv (of_int 2) (of_int (OUTPUT_UNITS net)))
               (fsub (rd (output (lay net 0)) j) (rd desired j)))
       <$> error (lay net 0) !! j
  else error (lay net 0) !! j.
Proof.
  intros HL. unfold AnnCalculateOutputError. cbv zeta.
  rewrite (upd_layer_loop 0 _
             (λ j l, set_error
                       (<[j := fmul (fdiv (of_int 2) (of_int (OUTPUT_UNITS net)))
                                 (fsub (rd (output l) j) (rd desired j))]>
                          (error l)) l)).
  rewrite lay_upd_layer_eq by exact HL.
  rewrite (output_error_layer
             (λ j o, fmul (fdiv (of_int 2) (of_int (OUTPUT_UNITS net)))
                       (fsub o (rd desired j)))).
  simpl.
  exact (for_loop_insert_lookup
           (λ j _, fmul (fdiv (of_int 2) (of_int (OUTPUT_UNITS net)))
                     (fsub (rd (output (lay net 0)) j) (rd desired j)))
           _ _ j).
Qed.

Lemma AnnCalculateGradients_LAYERS net desired :
  LAYERS (AnnCalculateGradients net desired) = LAYERS net.
Proof. apply (AnnCalculateGradients_frame net desired). Qed.


(** X4: [AnnCalculateOutputError] writes the errors of the output layer
    and nothing else: entry [j] below the number of output units becomes
    [(2 / units) * (output[j] - desired[j])]; the other entries, the
    other arrays and the other layers are as before. *)
Theorem AnnCalculateOutputError_values net desired :
  let n0 := AnnCalculateOutputError net desired in
  let units := OUTPUT_UNITS net in
  let factor := fdiv (of_int 2) (of_int units) in
  net_frame only_error net n0 ∧
  (∀ k, k ≠ 0%nat → lay n0 k = lay net k) ∧
  (∀ j, (j < count_of units)%nat → (j < length (error (lay net 0)))%nat →
        rd (error (lay n0 0)) j =
        fmul factor (fsub (rd (output (lay net 0)) j) (rd desired j))) ∧
  (∀ j, (count_of units ≤ j)%nat →
        error (lay n0 0) !! j = error (lay net 0) !! j).
Proof.
  cbv zeta. split_and!.
  - unfold AnnCalculateOutputError. cbv zeta.
    apply for_loop_frame; [apply net_frame_refl|].
    intros j s. apply upd_layer_frame. intros l.
    apply frame_set_error; [reflexivity | apply length_insert].
  - apply AnnCalculateOutputError_lay.
  - intros j Hj Hlen.
    assert (HL : (0 < LAYERS net)%nat).
    { destruct (decide (0 < LAYERS net)%nat) as [|H0]; [assumption|].
      rewrite lay_ge in Hlen by lia. simpl in Hlen. lia. }
    unfold AnnCalculateOutputError. cbv zeta.
    rewrite (upd_layer_loop 0 _
               (λ j l, set_error
                         (<[j := fmul (fdiv (of_int 2) (of_int (OUTPUT_UNITS net)))
                                   (fsub (rd (output l) j) (rd desired j))]>
                            (error l)) l)).
    rewrite lay_upd_layer_eq by exact HL.
    rewrite (output_error_layer
               (λ j o, fmul (fdiv (of_int 2) (of_int (OUTPUT_UNITS net)))
                         (fsub o (rd desired j)))).
    simpl.
    exact (for_loop_insert_rd
             (λ j _, fmul (fdiv (of_int 2) (of_int (OUTPUT_UNITS net)))
                       (fsub (rd (output (lay net 0)) j) (rd desired j)))
             _ _ j Hj Hlen).
  - intros j Hj. destruct (decide (0 < LAYERS net)%nat) as [HL|H0].
    + unfold AnnCalculateOutputError. cbv zeta.
      rewrite (upd_layer_loop 0 _
                 (λ j l, set_error
                           (<[j := fmul (fdiv (of_int 2)
                                           (of_int (OUTPUT_UNITS net)))
                                     (fsub (rd (output l) j) (rd desired j))]>
                              (error l)) l)).
      rewrite lay_upd_layer_eq by exact HL.
      rewrite (output_error_layer
                 (λ j o, fmul (fdiv (of_int 2) (of_int (OUTPUT_UNITS net)))
                           (fsub o (rd desired j)))).
      simpl.
      rewrite (for_loop_insert_lookup
                 (λ j _, fmul (fdiv (of_int 2) (of_int (OUTPUT_UNITS net)))
                           (fsub (rd (output (lay net 0)) j) (rd desired j)))).
      destruct (decide _); [lia | reflexivity].
    + rewrite !lay_ge; [reflexivity | lia |].
      destruct (AnnCalculateOutputError_frame net desired) as (_ & -> & _).
      lia.
Qed.

(** X2: [AnnCalculateGradients] writes errors and gradients only: the
    hyperparameters, the unit counts, the outputs, the weights, the
    accumulated and previous gradients and the deltas are as before, no
    array changes length, and layer 0 keeps its gradient array. *)
Theorem AnnCalculateGradients_writes net desired :
  let n' := AnnCalculateGradients net desired in
  net_frame error_gradient net n' ∧
  gradient (lay n' 0) = gradient (lay net 0).
Proof.
  cbv zeta. split; [apply AnnCalculateGradients_frame|].
  destruct (AnnCalculateGradients_lay net desired) as [H0 _].
  cbv zeta in H0. rewrite H0.
  destruct (decide (0 < LAYERS net)%nat) as [HL|Hn].
  - unfold AnnCalculateOutputError. cbv zeta.
    rewrite (upd_layer_loop 0 _
               (λ j l, set_error
                         (<[j := fmul (fdiv (of_int 2) (of_int (OUTPUT_UNITS net)))
                                   (fsub (rd (output l) j) (rd desired j))]>
                            (error l)) l)).
    rewrite lay_upd_layer_eq by exact HL.
    apply (for_loop_inv
             (λ l' : AnnLayer F, gradient l' = gradient (lay net 0)));
      [reflexivity|]. intros i l' _ Hl'. exact Hl'.
  - rewrite !lay_ge; [reflexivity | lia |].
    destruct (AnnCalculateOutputError_frame net desired) as (_ & -> & _). lia.
Qed.

(** X1: what back-propagation computes.  Layer 0 holds the output errors.
    For every other layer [j+1], with [p] its unit count and [n] the
    number of units of layer [j] that the loop visits (all of them, less
    one when [j > 1]), and with [sig i] the error of unit [i] of layer
    [j] times [o * (1 - o)] for its output [o]: gradient [i * p + k] is
    [sig i] times output [k] of layer [j+1]; error [k] is the sum, from
    0 and in order of [i < n], of [sig i] times weight [i * p + k]; the
    gradients from index [n * p] on and the errors from index [p] on are
    not written. *)
Theorem AnnCalculateGradients_backprop net desired :
  let n' := AnnCalculateGradients net desired in
  lay n' 0 = lay (AnnCalculateOutputError net desired) 0 ∧
  ∀ j, (S j < LAYERS net)%nat →
    let p := count_of (UNITS net (S j)) in
    let n := count_of (UNITS net j - b2z (1 <? j)%nat) in
    let sig i :=
      let o := rd (output (lay net j)) i in
      fmul (rd (error (lay n' j)) i) (fmul o (fsub fone o)) in
    (∀ i k, (i < n)%nat → (k < p)%nat →
       (i * p + k < length (gradient (lay net (S j))))%nat →
       rd (gradient (lay n' (S j))) (i * p + k) =
       fmul (sig i) (rd (output (lay net (S j))) k)) ∧
    (∀ k, (k < p)%nat → (k < length (error (lay net (S j))))%nat →
       rd (error (lay n' (S j))) k =
       for_loop n
         (λ i acc,
            fadd acc (fmul (sig i) (rd (weight (lay net (S j))) (i * p + k))))
         fzero) ∧
    (∀ m, (n * p ≤ m)%nat →
       gradient (lay n' (S j)) !! m = gradient (lay net (S j)) !! m) ∧
    (∀ k, (p ≤ k)%nat →
       error (lay n' (S j)) !! k = error (lay net (S j)) !! k).
Proof.
  cbv zeta. destruct (AnnCalculateGradients_lay net desired) as [H0 Hj].
  cbv zeta in H0, Hj. split; [exact H0|].
  intros j Hlt. rewrite (Hj j Hlt).
  assert (Ho : output (lay (AnnCalculateGradients net desired) j) =
               output (lay net j)).
  { apply (net_frame_output _ _ _ j (AnnCalculateGradients_frame net desired)).
    reflexivity. }
  set (cur := lay (AnnCalculateGradients net desired) j) in *.
  assert (Hsig : ∀ i, error_signal cur i =
            fmul (rd (error cur) i)
              (fmul (rd (output (lay net j)) i)
                 (fsub fone (rd (output (lay net j)) i)))).
  { intros i. unfold error_signal. cbv zeta. rewrite Ho. reflexivity. }
  unfold back, back_bound. cbv zeta. simpl.
  fold (UNITS net (S j)).
  set (p := count_of (UNITS net (S j))).
  set (n := count_of (UNITS net j - b2z (1 <? j)%nat)).
  split_and!.
  - intros i k Hi Hk Hlen. rewrite <- Hsig.
    apply (grad_rows_rd (λ i, error_signal cur i)); assumption.
  - intros k Hk Hlen.
    rewrite (err_accs_rd (λ i, error_signal cur i)).
    + rewrite rd_set_loop by assumption.
      apply for_loop_ext. intros i acc _. rewrite Hsig. reflexivity.
    + exact Hk.
    + rewrite length_set_loop. exact Hlen.
  - intros m Hm. apply (grad_rows_rest (λ i, error_signal cur i)). exact Hm.
  - intros k Hk. rewrite (err_accs_rest (λ i, error_signal cur i)) by exact Hk.
    rewrite (for_loop_insert_lookup (λ _ _, fzero)).
    destruct (decide _); [lia | reflexivity].
Qed.

End BackPropValues.

(** * Epochs and training *)
Section EpochFrames.
Context {F : Type} {FO : FloatOps F}.
Implicit Types (net s : Ann F) (l : AnnLayer F).

Lemma mask_le_any m : mask_le m any_array.
Proof. unfold mask_le. simpl. tauto. Qed.

Lemma AnnSetDeltas_frame net val : net_frame only_delta net (AnnSetDeltas net val).
Proof.
  apply each_weight_frame. intros j i s. apply upd_layer_frame. intros l.
  apply frame_set_delta; [reflexivity | apply length_insert].
Qed.

Lemma AnnUpdateDeltasGD_frame net :
  net_frame only_delta net (AnnUpdateDeltasGD net).
Proof.
  apply each_weight_frame. intros j i s. apply upd_layer_frame. intros l.
  apply frame_set_delta; [reflexivity | apply length_insert].
Qed.

Lemma AnnAdjustWeights_frame net setlen :
  net_frame only_weight net (AnnAdjustWeights net setlen).
Proof.
  apply each_weight_frame. intros j i s. apply upd_layer_frame. intros l.
  apply frame_set_weight; [reflexivity | apply length_insert].
Qed.

Lemma rprop_weight_frame j i net : net_frame rprop_arrays net (rprop_weight j i net).
Proof.
  unfold rprop_weight. destruct (rprop_rule _ _ _ _ _) as [[w' d'] pg'].
  apply upd_layer_frame. intros l.
  eapply frame_trans; [|apply frame_set_pgradient;
                         [reflexivity | apply length_insert]].
  eapply frame_trans; [|apply frame_set_delta;
                         [reflexivity | apply length_insert]].
  apply frame_set_weight; [reflexivity | apply length_insert].
Qed.

Lemma AnnAdjustWeightsResilientBP_frame net :
  net_frame rprop_arrays net (AnnAdjustWeightsResilientBP net).
Proof.
  unfold AnnAdjustWeightsResilientBP.
  apply for_from_frame; [apply net_frame_refl|].
  intros j s. cbv zeta. apply for_loop_frame; [apply net_frame_refl|].
  intros i s'. apply rprop_weight_frame.
Qed.

(** A net that keeps its shape stays well formed. *)
Lemma wf_net_frame m net net' : net_frame m net net' → wf_net net → wf_net net'.
Proof.
  intros (_ & HL & H) Hwf i l' Hl'.
  assert (Hi : (i < LAYERS net)%nat).
  { rewrite <- HL. unfold LAYERS. eapply lookup_lt_Some, Hl'. }
  destruct (lookup_lt_is_Some_2 (layer net) i Hi) as [l Hl].
  specialize (Hwf i l Hl).
  assert (El : lay net i = l) by (unfold lay; rewrite Hl; reflexivity).
  assert (El' : lay net' i = l') by (unfold lay; rewrite Hl'; reflexivity).
  destruct (H i) as (Hu & [Ho _] & [He _] & [Hw _] & [Hg _] & [Hsg _] &
                     [Hpg _] & [Hd _]).
  rewrite El, El' in *.
  assert (Hp : UNITS net' (i - 1) = UNITS net (i - 1)).
  { unfold UNITS. apply (H (i - 1)%nat). }
  unfold wf_layer in *. rewrite Hp, Hu.
  destruct Hwf as (H1 & H2 & H3). split_and!; [congruence | congruence |].
  destruct i as [|i].
  - destruct H3 as (E1 & E2 & E3 & E4 & E5).
    rewrite E1 in Hw. rewrite E2 in Hg. rewrite E3 in Hsg. rewrite E4 in Hpg.
    rewrite E5 in Hd.
    split_and!; apply nil_length_inv; assumption.
  - cbv zeta in *. rewrite Hw, Hg, Hsg, Hpg, Hd. exact H3.
Qed.

End EpochFrames.

Section Epochs.
Context {F : Type} {FO : FloatOps F} {FE : FloatExp F} {HD : NNHeader F}.
Implicit Types (net s : Ann F) (l : AnnLayer F) (input desired x d : list F).

Lemma AnnSimulateError_frame net x d :
  net_frame only_output net (AnnSimulateError net x d).1.
Proof.
  unfold AnnSimulateError. simpl.
  eapply net_frame_trans; [apply AnnSetInput_frame | apply AnnSimulate_frame].
Qed.

Lemma rprop_loop_protocol inputs outputs net input desired n :
  for_loop n
    (λ j '(net, error, input, desired),
       let '(net, e) := AnnSimulateError net input desired in
       let error := fadd error e in
       let net := AnnCalculateGradients net desired in
       let net := AnnUpdateSgradient net in
       (net, error, drop inputs input, drop outputs desired))
    (AnnResetSgradient net, fzero, input, desired) =
  (rprop_protocol inputs outputs net input desired n,
   drop (n * inputs) input, drop (n * outputs) desired).
Proof.
  induction n as [|n IH]; [reflexivity|].
  rewrite for_loop_S, IH. cbn [rprop_protocol].
  destruct (rprop_protocol inputs outputs net input desired n)
    as [net_n error].
  unfold AnnSimulateError.
  rewrite !drop_drop.
  replace (n * inputs + inputs)%nat with (S n * inputs)%nat by lia.
  replace (n * outputs + outputs)%nat with (S n * outputs)%nat by lia.
  reflexivity.
Qed.

Lemma rprop_protocol_frame inputs outputs net input desired m :
  net_frame accumulation net (rprop_protocol inputs outputs net input desired m).1.
Proof.
  induction m as [|m IH].
  - simpl. eapply net_frame_weaken; [|apply AnnResetSgradient_frame].
    unfold mask_le. simpl. tauto.
  - cbn [rprop_protocol].
    destruct (rprop_protocol inputs outputs net input desired m) as [s e].
    simpl in *.
    eapply net_frame_trans; [exact IH|].
    eapply net_frame_trans;
      [eapply net_frame_weaken; [|apply AnnSetInput_frame];
       unfold mask_le; simpl; tauto|].
    eapply net_frame_trans;
      [eapply net_frame_weaken; [|apply AnnSimulate_frame];
       unfold mask_le; simpl; tauto|].
    eapply net_frame_trans;
      [eapply net_frame_weaken; [|apply AnnCalculateGradients_frame];
       unfold mask_le; simpl; tauto|].
    eapply net_frame_weaken; [|apply AnnUpdateSgradient_frame].
    unfold mask_le; simpl; tauto.
Qed.







Lemma AnnGDEpoch_frame_gd net input desired setlen :
  net_frame gd_arrays net (AnnGDEpoch net input desired setlen).1.
Proof.
  unfold AnnGDEpoch. cbv zeta.
  set (body := λ _ : nat, gd_example _ _ _).
  assert (H : net_frame gd_arrays net
                (for_loop (count_of setlen) body
                   (net, fzero, input, desired)).1.1.1).
  { apply (for_loop_inv
             (λ st : Ann F * F * list F * list F,
                net_frame gd_arrays net st.1.1.1)).
    - apply net_frame_refl.
    - intros j [[[s e] x] d] _ Hs. cbn [fst snd] in Hs. unfold body, gd_example.
      unfold AnnSimulateError. cbn [fst snd].
      eapply net_frame_trans; [exact Hs|].
      eapply net_frame_trans;
        [eapply net_frame_weaken; [|apply AnnSetDeltas_frame];
         unfold mask_le; simpl; tauto|].
      eapply net_frame_trans;
        [eapply net_frame_weaken; [|apply AnnSetInput_frame];
         unfold mask_le; simpl; tauto|].
      eapply net_frame_trans;
        [eapply net_frame_weaken; [|apply AnnSimulate_frame];
         unfold mask_le; simpl; tauto|].
      eapply net_frame_trans;
        [eapply net_frame_weaken; [|apply AnnCalculateGradients_frame];
         unfold mask_le; simpl; tauto|].
      eapply net_frame_trans;
        [eapply net_frame_weaken; [|apply AnnUpdateDeltasGD_frame];
         unfold mask_le; simpl; tauto|].
      eapply net_frame_weaken; [|apply AnnAdjustWeights_frame].
      unfold mask_le; simpl; tauto. }
  destruct (for_loop _ body _) as [[[s e] x] d]. exact H.
Qed.

Lemma AnnGDEpoch_frame net input desired setlen :
  net_frame any_array net (AnnGDEpoch net input desired setlen).1.
Proof.
  eapply net_frame_weaken; [apply mask_le_any | apply AnnGDEpoch_frame_gd].
Qed.

(** X9: an epoch of gradient descent leaves the state of RPROP alone but
    for the deltas: the accumulated gradients and the previous gradients
    are as before, as are the hyperparameters, the unit counts and the
    length of every array. *)
Theorem AnnGDEpoch_writes net input desired setlen :
  let net' := (AnnGDEpoch net input desired setlen).1 in
  net_frame gd_arrays net net' ∧
  ∀ j, sgradient (lay net' j) = sgradient (lay net j) ∧
       pgradient (lay net' j) = pgradient (lay net j).
Proof.
  cbv zeta. pose proof (AnnGDEpoch_frame_gd net input desired setlen) as H.
  split; [exact H|]. intros j. destruct H as (_ & _ & H).
  destruct (H j) as (_ & _ & _ & _ & _ & [_ Hsg] & [_ Hpg] & _).
  split; [apply Hsg | apply Hpg]; reflexivity.
Qed.

(** X10: the RPROP update writes weights, deltas and previous gradients
    only, and none of them in layer 0: outputs, errors, gradient and
    accumulated gradients stay, so the accumulated gradients are still in
    place after the update. *)
Theorem AnnAdjustWeightsResilientBP_writes net :
  let net' := AnnAdjustWeightsResilientBP net in
  net_frame rprop_arrays net net' ∧ lay net' 0 = lay net 0.
Proof.
  cbv zeta. split; [apply AnnAdjustWeightsResilientBP_frame|].
  destruct (rprop_outer net (LAYERS net) (le_n _)) as (_ & _ & Hout & _).
  apply Hout. lia.
Qed.

Lemma AnnResilientBPEpoch_frame net input desired setlen :
  net_frame any_array net (AnnResilientBPEpoch net input desired setlen).1.
Proof.
  unfold AnnResilientBPEpoch. cbv zeta. rewrite rprop_loop_protocol.
  pose proof (rprop_protocol_frame (count_of (INPUT_UNITS net))
                (count_of (OUTPUT_UNITS net)) net input desired
                (count_of setlen)) as Hf.
  destruct (rprop_protocol _ _ _ _ _ _) as [s e]. simpl in *.
  eapply net_frame_trans;
    [eapply net_frame_weaken; [apply mask_le_any | exact Hf]|].
  eapply net_frame_weaken;
    [apply mask_le_any | apply AnnAdjustWeightsResilientBP_frame].
Qed.

Lemma train_epoch_frame input desired setlen algo (st : Ann F * F) :
  net_frame any_array st.1 (train_epoch input desired setlen algo st).1.
Proof.
  unfold train_epoch.
  destruct (algo =? NN_ALGO_BPROP); [apply AnnResilientBPEpoch_frame|].
  destruct (algo =? NN_ALGO_GD); [apply AnnGDEpoch_frame|].
  apply net_frame_refl.
Qed.

Lemma train_states_shift input desired setlen algo st k :
  train_states input desired setlen algo st (S k) =
  train_states input desired setlen algo
    (train_epoch input desired setlen algo st) k.
Proof.
  induction k as [|k IH]; [reflexivity|].
  cbn [train_states] in *. rewrite IH. reflexivity.
Qed.

Lemma train_loop_states n net input desired maxerr setlen algo e :
  ∃ k, (k ≤ n)%nat ∧
    (∀ i, (i < k)%nat →
       fle maxerr (train_states input desired setlen algo (net, e) i).2 = true) ∧
    (k = n ∨
     fle maxerr (train_states input desired setlen algo (net, e) k).2 = false) ∧
    train_loop n net input desired maxerr setlen algo e =
    train_states input desired setlen algo (net, e) k.
Proof.
  revert net e. induction n as [|n IH]; intros net e.
  - exists 0%nat. split_and!; [lia | intros; lia | left; reflexivity |
                               reflexivity].
  - cbn [train_loop]. destruct (fle maxerr e) eqn:He.
    2:{ exists 0%nat. split_and!; [lia | intros; lia | right; exact He |
                                   reflexivity]. }
    set (st := if algo =? NN_ALGO_BPROP then _ else _).
    assert (Hst : st = train_epoch input desired setlen algo (net, e)).
    { unfold st, train_epoch. simpl.
      destruct (algo =? NN_ALGO_BPROP); [reflexivity|].
      destruct (algo =? NN_ALGO_GD); reflexivity. }
    destruct st as [net1 e1].
    destruct (IH net1 e1) as (k & Hk & Hbefore & Hstop & Heq).
    exists (S k). rewrite Hst in *. split_and!.
    + lia.
    + intros i Hi. destruct i as [|i]; [exact He|].
      rewrite train_states_shift. apply Hbefore. lia.
    + destruct Hstop as [->|Hstop]; [left; reflexivity|].
      right. rewrite train_states_shift. exact Hstop.
    + rewrite train_states_shift. exact Heq.
Qed.

(** X11: [AnnTrain] runs epochs one after the other, each on the net the
    one before left, starting with [maxerr + 1] as the error; it stops
    after the first epoch whose error does not satisfy [e >= maxerr], or
    after [maxepochs] epochs, and returns the error of the last epoch it
    ran. *)
Theorem AnnTrain_epochs net input desired maxerr maxepochs setlen algo :
  let states :=
    train_states input desired setlen algo (net, fadd maxerr (of_int 1)) in
  ∃ k, (k ≤ count_of maxepochs)%nat ∧
    (∀ i, (i < k)%nat → fle maxerr (states i).2 = true) ∧
    (k = count_of maxepochs ∨ fle maxerr (states k).2 = false) ∧
    AnnTrain net input desired maxerr maxepochs setlen algo = states k.
Proof. cbv zeta. unfold AnnTrain. apply train_loop_states. Qed.

Lemma train_states_frame input desired setlen algo st k :
  net_frame any_array st.1 (train_states input desired setlen algo st k).1.
Proof.
  induction k as [|k IH]; [apply net_frame_refl|].
  cbn [train_states]. eapply net_frame_trans; [exact IH|].
  apply train_epoch_frame.
Qed.

(** X12: training keeps the shape of the net: after [AnnTrain] the
    hyperparameters, the number of layers, the unit counts and the
    length of every array are as before, and a net that was well formed
    is well formed. *)
Theorem AnnTrain_shape net input desired maxerr maxepochs setlen algo :
  let net' := (AnnTrain net input desired maxerr maxepochs setlen algo).1 in
  net_frame any_array net net' ∧ (wf_net net → wf_net net').
Proof.
  cbv zeta.
  assert (H : net_frame any_array net
                (AnnTrain net input desired maxerr maxepochs setlen algo).1).
  { destruct (train_loop_states (count_of maxepochs) net input desired maxerr
                setlen algo (fadd maxerr (of_int 1))) as (k & _ & _ & _ & Heq).
    unfold AnnTrain. rewrite Heq.
    apply (train_states_frame input desired setlen algo
             (net, fadd maxerr (of_int 1)) k). }
  split; [exact H|]. apply (wf_net_frame _ _ _ H).
Qed.

End Epochs.

(** * Construction *)
Section Created.
Context {F : Type} {FO : FloatOps F} {HD : NNHeader F}.
Implicit Types (net s : Ann F) (l : AnnLayer F) (us : list Z).

Lemma AnnInitLayer_lay net i u b :
  (i < LAYERS net)%nat →
  lay (AnnInitLayer net i u b) i =
  let u' := u + b2z b in
  let n := count_of u' in
  let nw := count_of (u' * UNITS net (i - 1)) in
  let arr (old : list F) := if (0 <? i)%nat then zeros nw else old in
  let l := lay net i in
  mkLayer u'
    (if b then <[count_of (u' - 1) := fone]> (zeros n) else zeros n)
    (zeros n) (arr (weight l)) (arr (gradient l)) (arr (sgradient l))
    (arr (pgradient l)) (arr (delta l)).
Proof.
  intros Hi. unfold AnnInitLayer. rewrite lay_upd_layer_eq by exact Hi.
  cbv zeta. destruct b; simpl; rewrite ?Z.add_0_r; reflexivity.
Qed.

Lemma AnnInitLayer_other net i k u b :
  i ≠ k → lay (AnnInitLayer net i u b) k = lay net k.
Proof. intros Hne. unfold AnnInitLayer. apply lay_upd_layer_ne, Hne. Qed.

(** The layers initialised so far. *)
Lemma init_loop us layers junk n :
  (n ≤ layers)%nat →
  let s :=
    for_loop n
      (λ i net, AnnInitLayer net i (default 0 (us !! i)) (0 <? i)%nat)
      (AnnAlloc layers junk) in
  hyper s = hyper (AnnAlloc layers junk) ∧ LAYERS s = layers ∧
  (∀ i, (i < n)%nat →
     lay s i =
     created_layer us i (zeros (created_weights us i))
       (zeros (created_weights us i))) ∧
  (∀ i, (n ≤ i)%nat → lay s i = null_layer).
Proof.
  induction n as [|n IH]; intros Hn; cbv zeta.
  - split_and!; [reflexivity | apply AnnAlloc_LAYERS | intros; lia |].
    intros i _. apply AnnAlloc_lay.
  - rewrite for_loop_S. destruct IH as (Hh & HL & Hdone & Htodo); [lia|].
    set (s := for_loop n _ _) in *.
    split_and!.
    + rewrite AnnInitLayer_hyper. exact Hh.
    + rewrite AnnInitLayer_LAYERS. exact HL.
    + intros i Hi. destruct (decide (i = n)) as [->|Hne].
      * rewrite AnnInitLayer_lay by lia. cbv zeta.
        rewrite (Htodo n) by lia.
        unfold created_layer, created_weights. cbv zeta.
        fold (created_units us n).
        destruct n as [|n]; [reflexivity|].
        cbn [Nat.ltb Nat.leb]. unfold UNITS.
        rewrite (Hdone (S n - 1)%nat) by lia.
        unfold created_layer at 1 2 3 4 5. cbn [units]. reflexivity.
      * rewrite AnnInitLayer_other by congruence. apply Hdone. lia.
    + intros i Hi. rewrite AnnInitLayer_other by lia. apply Htodo. lia.
Qed.

Lemma AnnSetRandomWeights_frame rnd net :
  net_frame only_weight net (AnnSetRandomWeights rnd net).
Proof.
  unfold AnnSetRandomWeights.
  apply (for_from_inv (λ st : Ann F * nat, net_frame only_weight net (fst st)));
    [apply net_frame_refl|].
  intros i st _ Hst.
  apply (for_loop_inv (λ st : Ann F * nat, net_frame only_weight net (fst st)));
    [exact Hst|].
  intros k st1 _ Hst1.
  apply (for_loop_inv (λ st : Ann F * nat, net_frame only_weight net (fst st)));
    [exact Hst1|].
  intros j [s c] _ Hs. simpl in *.
  eapply net_frame_trans; [exact Hs|].
  apply upd_layer_frame. intros l.
  apply frame_set_weight; [reflexivity | apply length_insert].
Qed.

Lemma set_loop_replicate (val : F) n :
  for_loop n (λ i a, <[i := val]> a) (zeros n) = replicate n val.
Proof.
  apply list_eq. intros k.
  rewrite (for_loop_insert_lookup (λ _ _, val)).
  unfold zeros. destruct (decide (k < n)%nat) as [Hlt|Hge].
  - rewrite !lookup_replicate_2 by exact Hlt. reflexivity.
  - rewrite !(lookup_ge_None_2 (replicate n _))
      by (rewrite length_replicate; lia).
    reflexivity.
Qed.

Lemma AnnCreateNet_lay layers us rnd junk :
  let net := AnnCreateNet layers us rnd junk in
  hyper net =
    (0, DEFAULT_RPROP_NMINUS, DEFAULT_RPROP_NPLUS, DEFAULT_RPROP_MAXUPDATE,
     DEFAULT_RPROP_MINUPDATE, DEFAULT_LEARN_RATE) ∧
  LAYERS net = layers ∧
  ∀ i, (i < layers)%nat →
    length (weight (lay net i)) = created_weights us i ∧
    lay net i =
    created_layer us i (weight (lay net i))
      (replicate (created_weights us i) RPROP_INITIAL_DELTA).
Proof.
  cbv zeta. unfold AnnCreateNet.
  destruct (init_loop us layers junk layers (le_n _))
    as (Hh & HL & Hdone & _).
  cbv zeta in Hh, HL, Hdone.
  set (s := for_loop layers _ _) in *.
  pose proof (AnnSetRandomWeights_frame rnd s) as Hr.
  set (s1 := AnnSetRandomWeights rnd s) in *.
  destruct (AnnSetDeltas_lay s1 RPROP_INITIAL_DELTA) as (Hh2 & HL2 & H0 & Hj).
  cbv zeta in Hh2, HL2, H0, Hj.
  set (s2 := AnnSetDeltas s1 RPROP_INITIAL_DELTA) in *.
  assert (HL1 : LAYERS s1 = layers) by (destruct Hr as (_ & -> & _); exact HL).
  assert (Hs1 : ∀ i, (i < layers)%nat →
            length (weight (lay s1 i)) = created_weights us i ∧
            lay s1 i =
            created_layer us i (weight (lay s1 i))
              (zeros (created_weights us i))).
  { intros i Hi. destruct Hr as (_ & _ & Hr).
    destruct (Hr i) as (Hu & [_ Ho] & [_ He] & [Hlw _] & [_ Hg] & [_ Hsg] &
                        [_ Hpg] & [_ Hd]).
    rewrite (Hdone i Hi) in *. cbn in Hu, Ho, He, Hlw, Hg, Hsg, Hpg, Hd.
    split; [rewrite Hlw; apply length_zeros|].
    destruct (lay s1 i) as [u o e w g sg pg d]. cbn in *.
    unfold created_layer. cbv zeta.
    rewrite Hu, Ho, He, Hg, Hsg, Hpg, Hd by reflexivity. reflexivity. }
  split_and!.
  - unfold hyper, set_learn_rate. simpl.
    assert (Hhs : hyper s2 = hyper (AnnAlloc layers junk)).
    { rewrite Hh2. destruct Hr as (-> & _). exact Hh. }
    unfold hyper in Hhs. simpl in Hhs. injection Hhs as -> -> -> -> -> _.
    reflexivity.
  - change (LAYERS s2 = layers). rewrite HL2. exact HL1.
  - intros i Hi.
    change (lay (set_learn_rate DEFAULT_LEARN_RATE s2) i) with (lay s2 i).
    destruct (Hs1 i Hi) as [Hlen Hlay].
    destruct i as [|i].
    + rewrite H0. split; [exact Hlen|]. rewrite Hlay at 1. reflexivity.
    + rewrite (Hj (S i)) by lia.
      assert (Hb : weights_bound s1 (S i) = created_weights us (S i)).
      { unfold weights_bound, UNITS, created_weights.
        cbn [Nat.ltb Nat.leb].
        destruct (Hs1 i ltac:(lia)) as [_ Hp].
        replace (S i - 1)%nat with i by lia.
        rewrite Hlay, Hp. reflexivity. }
      rewrite Hb. split; [exact Hlen|].
      assert (Hd : delta (lay s1 (S i)) = zeros (created_weights us (S i)))
        by (rewrite Hlay; reflexivity).
      rewrite Hd, set_loop_replicate.
      transitivity
        (set_delta (replicate (created_weights us (S i)) RPROP_INITIAL_DELTA)
           (created_layer us (S i) (weight (lay s1 (S i)))
              (zeros (created_weights us (S i)))));
        [rewrite <- Hlay; reflexivity | reflexivity].
Qed.

End Created.

Section CreatedNets.
Context {F : Type} {FO : FloatOps F} {HD : NNHeader F}.
Implicit Types (net s : Ann F) (l : AnnLayer F) (us : list Z).

Lemma AnnCreateNet_UNITS layers us rnd junk i :
  (i < layers)%nat →
  UNITS (AnnCreateNet layers us rnd junk) i = created_units us i.
Proof.
  intros Hi. destruct (AnnCreateNet_lay layers us rnd junk) as (_ & _ & H).
  cbv zeta in H. destruct (H i Hi) as [_ Hl]. unfold UNITS. rewrite Hl.
  reflexivity.
Qed.

Lemma AnnCreateNet_wf layers us rnd junk :
  wf_net (AnnCreateNet layers us rnd junk).
Proof.
  destruct (AnnCreateNet_lay layers us rnd junk) as (_ & HL & H).
  cbv zeta in HL, H. intros i l Hl.
  assert (Hi : (i < layers)%nat).
  { rewrite <- HL. unfold LAYERS. eapply lookup_lt_Some, Hl. }
  assert (El : lay (AnnCreateNet layers us rnd junk) i = l)
    by (unfold lay; rewrite Hl; reflexivity).
  destruct (H i Hi) as [Hlen Hlay]. rewrite El in Hlen, Hlay.
  unfold wf_layer. rewrite Hlay. unfold created_layer. cbv zeta.
  cbn [units output error weight gradient sgradient pgradient delta].
  split_and!.
  - destruct (0 <? i)%nat; rewrite ?length_insert; apply length_zeros.
  - apply length_zeros.
  - destruct i as [|i].
    + unfold created_weights in *. cbn [Nat.ltb Nat.leb] in *.
      split_and!; try reflexivity. apply nil_length_inv. exact Hlen.
    + cbv zeta. rewrite AnnCreateNet_UNITS by lia.
      assert (Hw : created_weights us (S i) =
                   count_of (created_units us (S i) *
                             created_units us (S i - 1))) by reflexivity.
      rewrite <- Hw, !length_zeros, length_replicate. done.
Qed.


Lemma count_sum_created layers us rnd junk :
  count_sum (AnnCreateNet layers us rnd junk) =
  sum_Z
    (map (λ i, created_units us i *
               (created_units us (i - 1) - b2z (1 <? i)%nat))
       (seq 1 (layers - 1))).
Proof.
  unfold count_sum.
  destruct (AnnCreateNet_lay layers us rnd junk) as (_ & HL & _).
  cbv zeta in HL. rewrite HL. f_equal. apply map_ext_in.
  intros i Hi. apply in_seq in Hi. unfold weights_of_layer.
  rewrite !AnnCreateNet_UNITS by lia. reflexivity.
Qed.

Lemma count_fits_created layers us rnd junk :
  (∀ i, (1 ≤ i < layers)%nat →
        ((1 < i)%nat → fits_int (created_units us (i - 1) - 1)) ∧
        fits_int (created_units us i *
                  (created_units us (i - 1) - b2z (1 <? i)%nat))) →
  count_fits (AnnCreateNet layers us rnd junk).
Proof.
  intros H i Hi.
  destruct (AnnCreateNet_lay layers us rnd junk) as (_ & HL & _).
  cbv zeta in HL. rewrite HL in Hi. unfold weights_of_layer.
  rewrite !AnnCreateNet_UNITS by lia. apply H, Hi.
Qed.

Lemma to_size_t_small z : 0 ≤ z < 2 ^ 64 → to_size_t z = z.
Proof. intros Hz. unfold to_size_t. apply Z.mod_small, Hz. Qed.

(** X20: the nets of [AnnCreateNet2], [AnnCreateNet3] and [AnnCreateNet4].
    The layers run from the output layer (layer 0) to the input layer;
    every layer but the output layer has one unit more than asked for,
    its bias unit.  When the unit counts asked for are not negative and
    each count with its bias unit, and each product the loop takes, fits
    an [int], [AnnCountWeights] returns, summed over the pairs of adjacent
    layers, the units of the layer nearer the input (bias included) times
    the units asked for in the layer nearer the output. *)
Theorem AnnCreateNet_wrappers iunits hunits hunits2 ounits rnd junk :
  let n2 := AnnCreateNet2 iunits ounits rnd junk in
  let n3 := AnnCreateNet3 iunits hunits ounits rnd junk in
  let n4 := AnnCreateNet4 iunits hunits hunits2 ounits rnd junk in
  (LAYERS n2 = 2%nat ∧ UNITS n2 0 = ounits ∧ UNITS n2 1 = iunits + 1 ∧
   (0 ≤ iunits → 0 ≤ ounits →
    fits_int (iunits + 1) → fits_int ((iunits + 1) * ounits) →
    AnnCountWeights n2 = (iunits + 1) * ounits)) ∧
  (LAYERS n3 = 3%nat ∧ UNITS n3 0 = ounits ∧ UNITS n3 1 = hunits + 1 ∧
   UNITS n3 2 = iunits + 1 ∧
   (0 ≤ iunits → 0 ≤ hunits → 0 ≤ ounits →
    fits_int (iunits + 1) → fits_int (hunits + 1) →
    fits_int ((hunits + 1) * ounits) → fits_int ((iunits + 1) * hunits) →
    AnnCountWeights n3 = (hunits + 1) * ounits + (iunits + 1) * hunits)) ∧
  (LAYERS n4 = 4%nat ∧ UNITS n4 0 = ounits ∧ UNITS n4 1 = hunits2 + 1 ∧
   UNITS n4 2 = hunits + 1 ∧ UNITS n4 3 = iunits + 1 ∧
   (0 ≤ iunits → 0 ≤ hunits → 0 ≤ hunits2 → 0 ≤ ounits →
    fits_int (iunits + 1) → fits_int (hunits + 1) → fits_int (hunits2 + 1) →
    fits_int ((hunits2 + 1) * ounits) → fits_int ((hunits + 1) * hunits2) →
    fits_int ((iunits + 1) * hunits) →
    AnnCountWeights n4 =
      (hunits2 + 1) * ounits + (hunits + 1) * hunits2 +
      (iunits + 1) * hunits)).
Proof.
  cbv zeta. unfold AnnCreateNet2, AnnCreateNet3, AnnCreateNet4.
  assert (Hpos : ∀ a b, 0 ≤ a → 0 ≤ b → 0 ≤ (a + 1) * b)
    by (intros a b Ha Hb; apply Z.mul_nonneg_nonneg; lia).
  repeat match goal with |- _ ∧ _ => split end;
    try (apply (AnnCreateNet_lay _ _ rnd junk));
    try (rewrite AnnCreateNet_UNITS by lia; unfold created_units, b2z;
         simpl; lia).
  - intros Hi Ho Fi Fio.
    rewrite AnnCountWeights_mod.
    + rewrite count_sum_created. unfold created_units, b2z, sum_Z. simpl.
      pose proof (Hpos _ _ Hi Ho). unfold fits_int in Fio.
      rewrite to_size_t_small; lia.
    + apply count_fits_created. intros i Hl.
      destruct i as [|[|i]]; [lia | | lia].
      unfold created_units, b2z, fits_int in *. simpl.
      split; [intros Hlt|]; lia.
  - intros Hi Hh Ho Fi Fh Fho Fih.
    rewrite AnnCountWeights_mod.
    + rewrite count_sum_created. unfold created_units, b2z, sum_Z. simpl.
      pose proof (Hpos _ _ Hh Ho). pose proof (Hpos _ _ Hi Hh).
      unfold fits_int in Fho, Fih.
      rewrite to_size_t_small; lia.
    + apply count_fits_created. intros i Hl.
      destruct i as [|[|[|i]]]; [lia | | | lia];
        unfold created_units, b2z, fits_int in *; simpl;
        (split; [intros Hlt|]); lia.
  - intros Hi Hh Hh2 Ho Fi Fh Fh2 Fh2o Fhh2 Fih.
    rewrite AnnCountWeights_mod.
    + rewrite count_sum_created. unfold created_units, b2z, sum_Z. simpl.
      pose proof (Hpos _ _ Hh2 Ho). pose proof (Hpos _ _ Hh Hh2).
      pose proof (Hpos _ _ Hi Hh).
      unfold fits_int in Fh2o, Fhh2, Fih.
      rewrite to_size_t_small; lia.
    + apply count_fits_created. intros i Hl.
      destruct i as [|[|[|[|i]]]]; [lia | | | | lia];
        unfold created_units, b2z, fits_int in *; simpl;
        (split; [intros Hlt|]); lia.
Qed.

(** X21: a net that [AnnCreateNet] built and [AnnTrain] trained is cloned
    whole: the clone has the layers of the source, array by array, and
    its flags and RPROP parameters; only [learn_rate] is whatever the
    fresh block held. *)
Theorem AnnClone_of_trained {FE : FloatExp F} layers us rnd junk
    input desired maxerr maxepochs setlen algo junk' :
  let net :=
    (AnnTrain (AnnCreateNet layers us rnd junk) input desired maxerr
       maxepochs setlen algo).1 in
  AnnClone net junk' = set_learn_rate junk' net.
Proof.
  cbv zeta. apply AnnClone_layers.
  destruct (train_loop_states (count_of maxepochs)
              (AnnCreateNet layers us rnd junk) input desired maxerr
              setlen algo (fadd maxerr (of_int 1))) as (k & _ & _ & _ & Heq).
  unfold AnnTrain. rewrite Heq.
  eapply wf_net_frame; [|apply AnnCreateNet_wf].
  apply (train_states_frame input desired setlen algo
           (AnnCreateNet layers us rnd junk, fadd maxerr (of_int 1)) k).
Qed.



End CreatedNets.

(** X23: a net that [AnnCreateNet] or [AnnClone] returned and that
    [AnnFree] then frees leaves the heap with exactly the blocks it held
    before the net was made; [AnnFree] itself reports no failure. *)
Theorem AnnFree_returns_all :
  (∀ layers units h net,
     (Alloc.AnnCreateNet layers units h).1 = Some net →
     let h' := Alloc.AnnFree net (Alloc.AnnCreateNet layers units h).2 in
     Alloc.live h' = Alloc.live h ∧ Alloc.nfail h' = Alloc.nfail h) ∧
  (∀ src_units h net,
     (Alloc.AnnClone src_units h).1 = Some net →
     let h' := Alloc.AnnFree net (Alloc.AnnClone src_units h).2 in
     Alloc.live h' = Alloc.live h ∧ Alloc.nfail h' = Alloc.nfail h).
Proof.
  split.
  - intros layers units h net Hnet. cbv zeta.
    pose proof (AllocFacts.AnnCreateNet_spec layers units h) as Hs.
    destruct (Alloc.AnnCreateNet layers units h) as [[net'|] h1];
      cbn [fst snd] in *; [|discriminate].
    injection Hnet as ->. destruct Hs as (Hn & _ & Hl & Hd).
    rewrite AllocFacts.AnnFree_live, AllocFacts.AnnFree_nfail, Hl.
    split; [|exact Hn].
    rewrite difference_union_distr_l_L, difference_diag_L, (left_id_L ∅ (∪)).
    apply difference_disjoint_L. symmetry. exact Hd.
  - intros src_units h net Hnet. cbv zeta.
    pose proof (AllocFacts.AnnClone_spec src_units h) as Hs.
    destruct (Alloc.AnnClone src_units h) as [[net'|] h1];
      cbn [fst snd] in *; [|discriminate].
    injection Hnet as ->. destruct Hs as (Hn & _ & Hl & Hd).
    rewrite AllocFacts.AnnFree_live, AllocFacts.AnnFree_nfail, Hl.
    split; [|exact Hn].
    rewrite difference_union_distr_l_L, difference_diag_L, (left_id_L ∅ (∪)).
    apply difference_disjoint_L. symmetry. exact Hd.
Qed.

(** * What back-propagation depends on, and the batch of an RPROP epoch *)
Section GradientInputs.
Context {F : Type} {FO : FloatOps F}.
Implicit Types (net s : Ann F) (l cur prev : AnnLayer F) (desired : list F).

Lemma list_eq_rd (a b : list F) :
  length a = length b →
  (∀ k, (k < length a)%nat → rd a k = rd b k) → a = b.
Proof.
  intros Hlen H. apply list_eq. intros k.
  destruct (decide (k < length a)%nat) as [Hlt|Hge].
  - specialize (H k Hlt). unfold rd in H.
    destruct (lookup_lt_is_Some_2 a k Hlt) as [x Hx].
    destruct (lookup_lt_is_Some_2 b k) as [y Hy]; [lia|].
    rewrite Hx, Hy in *. simpl in H. congruence.
  - rewrite !lookup_ge_None_2 by lia. reflexivity.
Qed.

Lemma error_signal_eq cur cur' i :
  error cur' = error cur → output cur' = output cur →
  error_signal cur' i = error_signal cur i.
Proof. intros He Ho. unfold error_signal. rewrite He, Ho. reflexivity. Qed.

(** [back] on layers that agree on what it reads. *)
Lemma back_agree cur cur' n prev prev' :
  error cur' = error cur → output cur' = output cur →
  units prev' = units prev → weight prev' = weight prev →
  output prev' = output prev →
  length (error prev') = length (error prev) →
  length (gradient prev') = length (gradient prev) →
  (∀ k, (count_of (units prev) ≤ k)%nat → error prev' !! k = error prev !! k) →
  (∀ k, (n * count_of (units prev) ≤ k)%nat →
        gradient prev' !! k = gradient prev !! k) →
  error (back cur' n prev') = error (back cur n prev) ∧
  gradient (back cur' n prev') = gradient (back cur n prev).
Proof.
  intros He Ho Hu Hw Hop Hle Hlg Hke Hkg.
  unfold back. cbv zeta. simpl. rewrite Hu, Hw, Hop.
  set (p := count_of (units prev)) in *.
  assert (Hsig : ∀ i, error_signal cur' i = error_signal cur i)
    by (intros i; apply error_signal_eq; assumption).
  split.
  - apply list_eq_rd.
    { rewrite !err_accs_length, !length_set_loop. exact Hle. }
    intros k Hk. rewrite err_accs_length, length_set_loop in Hk.
    destruct (decide (k < p)%nat) as [Hlt|Hge].
    + rewrite !(err_accs_rd _ _ _ _ _ k Hlt)
        by (rewrite length_set_loop; lia).
      rewrite !rd_set_loop by lia.
      apply for_loop_ext. intros i acc _. rewrite Hsig. reflexivity.
    + unfold rd. rewrite !err_accs_rest by lia.
      rewrite !(for_loop_insert_lookup (λ _ _, fzero)).
      destruct (decide _) as [?|_]; [lia|]. rewrite Hke by lia. reflexivity.
  - apply list_eq_rd.
    { rewrite !grad_rows_length. exact Hlg. }
    intros m Hm. rewrite grad_rows_length in Hm.
    destruct (decide (m < n * p)%nat) as [Hlt|Hge].
    + assert (Hp : (0 < p)%nat) by nia.
      pose proof (Nat.div_mod_eq m p) as Hdm.
      pose proof (Nat.mod_upper_bound m p ltac:(lia)) as Hmod.
      assert (Hdiv : (m / p < n)%nat).
      { apply Nat.Div0.div_lt_upper_bound. lia. }
      replace m with (m / p * p + m mod p)%nat by lia.
      rewrite !(grad_rows_rd _ _ _ _ _ (m / p)%nat (m mod p)%nat Hdiv Hmod)
        by lia.
      rewrite Hsig. reflexivity.
    + unfold rd. rewrite !grad_rows_rest by lia. rewrite Hkg by lia.
      reflexivity.
Qed.

Lemma same_gradient_inputs_arrays net s desired :
  same_gradient_inputs net s →
  ∀ i, error (lay (AnnCalculateGradients s desired) i) =
       error (lay (AnnCalculateGradients net desired) i) ∧
       gradient (lay (AnnCalculateGradients s desired) i) =
       gradient (lay (AnnCalculateGradients net desired) i).
Proof.
  intros [HL H].
  destruct (AnnCalculateGradients_lay net desired) as [Hn0 Hnj].
  destruct (AnnCalculateGradients_lay s desired) as [Hs0 Hsj].
  cbv zeta in Hn0, Hnj, Hs0, Hsj.
  assert (Hout : ∀ i, output (lay (AnnCalculateGradients s desired) i) =
                      output (lay (AnnCalculateGradients net desired) i)).
  { intros i.
    rewrite !(net_frame_output _ _ _ i (AnnCalculateGradients_frame _ desired))
      by reflexivity.
    apply (H i). }
  intros i. induction i as [|j IH].
  - destruct (decide (0 < LAYERS net)%nat) as [Hpos|Hz].
    2:{ rewrite !lay_ge by (rewrite ?AnnCalculateGradients_LAYERS; lia).
        split; reflexivity. }
    rewrite Hn0, Hs0.
    destruct (H 0%nat) as (Hu & Hw & Ho & Hle & Hlg & Hke & Hkg).
    split.
    + apply list_eq. intros k.
      rewrite !AnnCalculateOutputError_lookup by lia.
      unfold OUTPUT_UNITS, UNITS. rewrite Hu, Ho.
      destruct (decide _) as [Hlt|Hge].
      * destruct (decide (k < length (error (lay net 0)))%nat) as [Hin|Hno].
        -- destruct (lookup_lt_is_Some_2 _ _ Hin) as [x ->].
           destruct (lookup_lt_is_Some_2 (error (lay s 0)) k) as [y ->];
             [lia|]. reflexivity.
        -- rewrite !lookup_ge_None_2 by lia. reflexivity.
      * apply Hke. unfold err_written, UNITS. lia.
    + rewrite !(net_frame_gradient _ _ _ 0%nat
                  (AnnCalculateOutputError_frame _ desired)) by reflexivity.
      apply list_eq. intros k. apply Hkg. unfold grad_written. lia.
  - destruct (decide (S j < LAYERS net)%nat) as [Hlt|Hge].
    2:{ rewrite !lay_ge by (rewrite ?AnnCalculateGradients_LAYERS; lia).
        split; reflexivity. }
    rewrite (Hnj j Hlt), (Hsj j ltac:(lia)).
    destruct IH as [IHe IHg].
    destruct (H (S j)) as (Hu & Hw & Ho & Hle & Hlg & Hke & Hkg).
    assert (Hb : back_bound s j = back_bound net j).
    { unfold back_bound, UNITS. destruct (H j) as (-> & _). reflexivity. }
    rewrite Hb.
    apply back_agree; try assumption. apply Hout.
Qed.

(** X3: what back-propagation leaves behind is determined by the unit
    counts, the weights and the outputs, and by the error and gradient
    entries that it does not write: two nets that agree on these have
    the same errors and the same gradients in every layer after
    [AnnCalculateGradients], whatever errors and gradients they held
    before in the entries that are written. *)
Theorem AnnCalculateGradients_reads net s desired :
  same_gradient_inputs net s →
  ∀ i, error (lay (AnnCalculateGradients s desired) i) =
       error (lay (AnnCalculateGradients net desired) i) ∧
       gradient (lay (AnnCalculateGradients s desired) i) =
       gradient (lay (AnnCalculateGradients net desired) i).
Proof. apply same_gradient_inputs_arrays. Qed.

End GradientInputs.

Section Batch.
Context {F : Type} {FO : FloatOps F} {FE : FloatExp F} {HD : NNHeader F}.
Implicit Types (net s : Ann F) (l : AnnLayer F) (input desired x d : list F).






End Batch.

(** * The theorems above at work on the example networks *)

(** Bounds on the example nets over the reals, which must not be
    evaluated as a whole. *)
Ltac concrete := cbn; unfold count_of, WEIGHTS, UNITS, lay; cbn; lia.

Lemma R_header_by_shape (net : Ann R) :
  input_units_by_shape (HD := R_header) net.
Proof.
  intros s HL Hu. simpl. unfold UNITS. rewrite HL, Hu. reflexivity.
Qed.

Lemma wf_net_net_sim : wf_net net_sim.
Proof.
  intros i l Hl. destruct i as [|[|i]]; simpl in Hl; try discriminate;
    injection Hl as <-; unfold wf_layer; simpl; split_and!; reflexivity.
Qed.

Lemma AnnSimulate_reads_witness :
  same_inputs (sim_written net_sim) net_sim net_sim_stale ∧
  ∀ i, output (lay (AnnSimulate net_sim_stale) i) =
       output (lay (AnnSimulate net_sim) i).
Proof.
  assert (H : same_inputs (sim_written net_sim) net_sim net_sim_stale).
  { split; [reflexivity|]. intros i.
    destruct i as [|[|i]]; (split_and!; [reflexivity ..|]); intros k Hk.
    - cbn in Hk. unfold count_of in Hk.
      destruct k as [|[|k]]; [lia | lia | reflexivity].
    - reflexivity.
    - reflexivity. }
  split; [exact H | exact (AnnSimulate_reads net_sim net_sim_stale H)].
Defined.

Lemma AnnSetInput_writes_witness :
  let net' := AnnSetInput (HD := R_header) net_sim [3%R] in
  (0%nat ≠ (LAYERS net_sim - 1)%nat) ∧ lay net' 0 = lay net_sim 0 ∧
  rd (output (lay net' (LAYERS net_sim - 1))) 0 = rd [3%R] 0 ∧
  output (lay net' (LAYERS net_sim - 1)) !! 1%nat =
  output (lay net_sim (LAYERS net_sim - 1)) !! 1%nat.
Proof.
  destruct (AnnSetInput_writes (HD := R_header) net_sim [3%R])
    as (_ & Hother & Hin & Hrest).
  assert (H0 : 0%nat ≠ (LAYERS net_sim - 1)%nat) by concrete.
  cbv zeta. split_and!.
  - exact H0.
  - exact (Hother 0%nat H0).
  - apply Hin; concrete.
  - apply Hrest. concrete.
Defined.

Lemma AnnTestClassError_unlabelled_witness :
  (0 < count_of (OUTPUT_UNITS net_grad))%nat ∧
  AnnTestClassError net_grad [0%Q] = 1.
Proof.
  assert (H0 : (0 < count_of (OUTPUT_UNITS net_grad))%nat)
    by (vm_compute; lia).
  split; [exact H0|].
  apply (AnnTestClassError_unlabelled net_grad [0%Q] H0).
  intros k Hk. vm_compute in Hk.
  destruct k as [|k]; [reflexivity | lia].
Defined.

Lemma AnnTestClassError_correct_witness :
  let out := output (lay net_class 0) in
  (1 < count_of (OUTPUT_UNITS net_class))%nat ∧
  feq (rd [0%Q; 1%Q] 1) (of_int 1) = true ∧
  (AnnTestClassError net_class [0%Q; 1%Q] = 0 ↔
   (∀ k, (k < count_of (OUTPUT_UNITS net_class))%nat →
         flt (rd out 1) (rd out k) = false) ∧
   (∀ k, (k < 1)%nat → flt (rd out k) (rd out 1) = true)).
Proof.
  assert (H1 : (1 < count_of (OUTPUT_UNITS net_class))%nat)
    by (vm_compute; lia).
  assert (H2 : feq (rd [0%Q; 1%Q] 1) (of_int 1) = true) by reflexivity.
  cbv zeta. split; [exact H1|]. split; [exact H2|].
  apply (AnnTestClassError_correct net_class [0%Q; 1%Q] 1%nat H1 H2).
  - intros k Hk. destruct k as [|k]; [reflexivity | lia].
  - intros a b c Ha Hb Hc. vm_compute in Ha, Hb, Hc.
    destruct a as [|[|a]]; [| |lia]; destruct b as [|[|b]]; [| |lia | | |lia];
      destruct c as [|[|c]]; try lia; vm_compute; congruence.
Defined.

Lemma AnnTestError_examples_witness :
  input_units_by_shape (HD := R_header) net_sim ∧
  0 ≤
    for_loop (count_of 1)
      (λ j c,
         c + AnnTestClassError
               (AnnSimulateError (HD := R_header) net_sim
                  (drop (j * count_of (INPUT_UNITS (NNHeader := R_header) net_sim))
                     [0%R])
                  (drop (j * count_of (OUTPUT_UNITS net_sim)) [1%R; 1%R])).1
               (drop (j * count_of (OUTPUT_UNITS net_sim)) [1%R; 1%R])) 0
    ≤ Z.of_nat (count_of 1).
Proof.
  split; [apply R_header_by_shape|].
  exact (proj2 (AnnTestError_examples (HD := R_header) net_sim [0%R]
                  [1%R; 1%R] 1 true true (R_header_by_shape net_sim))).
Defined.


Lemma AnnCalculateOutputError_values_witness :
  (0 < count_of (OUTPUT_UNITS net_grad))%nat ∧
  rd (error (lay (AnnCalculateOutputError net_grad [1%Q]) 0)) 0 =
  fmul (fdiv (of_int 2) (of_int (OUTPUT_UNITS net_grad)))
       (fsub (rd (output (lay net_grad 0)) 0) (rd [1%Q] 0)).
Proof.
  assert (H0 : (0 < count_of (OUTPUT_UNITS net_grad))%nat)
    by (vm_compute; lia).
  split; [exact H0|].
  destruct (AnnCalculateOutputError_values net_grad [1%Q]) as (_ & _ & H & _).
  apply (H 0%nat H0). vm_compute. lia.
Defined.

Lemma AnnCalculateGradients_backprop_witness :
  let n' := AnnCalculateGradients net_grad [1%Q] in
  let o := rd (output (lay net_grad 1)) 0 in
  (2 < LAYERS net_grad)%nat ∧
  rd (gradient (lay n' 2)) (0 * count_of (UNITS net_grad 2) + 0) =
  fmul (fmul (rd (error (lay n' 1)) 0) (fmul o (fsub fone o)))
       (rd (output (lay net_grad 2)) 0).
Proof.
  assert (HL : (2 < LAYERS net_grad)%nat) by (vm_compute; lia).
  cbv zeta. split; [exact HL|].
  destruct (AnnCalculateGradients_backprop net_grad [1%Q]) as [_ H].
  destruct (H 1%nat HL) as (Hg & _).
  apply (Hg 0%nat 0%nat); vm_compute; lia.
Defined.

Lemma AnnCalculateGradients_reads_witness :
  same_gradient_inputs net_grad net_grad_stale ∧
  ∀ i, error (lay (AnnCalculateGradients net_grad_stale [1%Q]) i) =
       error (lay (AnnCalculateGradients net_grad [1%Q]) i) ∧
       gradient (lay (AnnCalculateGradients net_grad_stale [1%Q]) i) =
       gradient (lay (AnnCalculateGradients net_grad [1%Q]) i).
Proof.
  assert (H : same_gradient_inputs net_grad net_grad_stale).
  { split; [reflexivity|]. intros i.
    destruct i as [|[|[|i]]]; (split_and!; [reflexivity ..| |]);
      intros k Hk; vm_compute in Hk;
      repeat (destruct k as [|k]; [lia|]); reflexivity. }
  split; [exact H|].
  exact (AnnCalculateGradients_reads net_grad net_grad_stale [1%Q] H).
Defined.



Lemma AnnTrain_shape_witness :
  wf_net net_sim ∧
  wf_net (AnnTrain (HD := R_header) net_sim [0%R] [1%R; 1%R] 0%R 1 1 1).1.
Proof.
  split; [exact wf_net_net_sim|].
  exact (proj2 (AnnTrain_shape (HD := R_header) net_sim [0%R] [1%R; 1%R]
                  0%R 1 1 1) wf_net_net_sim).
Defined.


Lemma AnnCreateNet_wrappers_witness :
  0 ≤ 2 ∧ 0 ≤ 1 ∧ fits_int (2 + 1) ∧
  fits_int ((2 + 1) * 1) ∧ fits_int ((2 + 1) * 2) ∧
  AnnCountWeights
    (AnnCreateNet3 (HD := Q_header) 2 2 1
       (λ c, inject_Z (Z.of_nat c + 1)) (7 # 1)%Q) = 9.
Proof.
  assert (H2 : 0 ≤ 2) by lia.
  assert (H1 : 0 ≤ 1) by lia.
  assert (F3 : fits_int (2 + 1)) by (unfold fits_int; lia).
  assert (Fo : fits_int ((2 + 1) * 1)) by (unfold fits_int; lia).
  assert (Fh : fits_int ((2 + 1) * 2)) by (unfold fits_int; lia).
  split_and!; [exact H2 | exact H1 | exact F3 | exact Fo | exact Fh |].
  destruct (AnnCreateNet_wrappers (HD := Q_header) 2 2 2 1
              (λ c, inject_Z (Z.of_nat c + 1)) (7 # 1)%Q)
    as (_ & (_ & _ & _ & _ & H) & _).
  exact (H H2 H2 H1 F3 F3 Fo Fh).
Defined.


Lemma AnnFree_returns_all_witness :
  ∃ net,
    (Alloc.AnnCreateNet 2 [1; 1] heap_free).1 = Some net ∧
    Alloc.live (Alloc.AnnFree net (Alloc.AnnCreateNet 2 [1; 1] heap_free).2) =
    Alloc.live heap_free.
Proof.
  destruct (Alloc.AnnCreateNet 2 [1; 1] heap_free) as [[net|] h'] eqn:E.
  - exists net. split; [reflexivity|].
    pose proof (proj1 AnnFree_returns_all 2%nat [1; 1] heap_free net) as H.
    rewrite E in H. exact (proj1 (H eq_refl)).
  - exfalso. vm_compute in E. discriminate.
Defined.

(** * The two builds of the forward pass *)
Section AVX.
Context {F : Type} {FO : FloatOps F} {FA : FloatAddLaws F}.
Implicit Types (net : Ann F) (w o : list F).

Lemma fadd_swap (a b c : F) : fadd a (fadd b c) = fadd b (fadd a c).
Proof. rewrite <- !fadd_assoc, (fadd_comm a b). reflexivity. Qed.

(** Adding a horizontal sum is adding the eight lanes in order. *)
Lemma avx_horizontal_sum_fold (A : F) (x : nat → F) :
  fadd A (avx_horizontal_sum x) =
  fadd (fadd (fadd (fadd (fadd (fadd (fadd (fadd A (x 0%nat)) (x 1%nat))
    (x 2%nat)) (x 3%nat)) (x 4%nat)) (x 5%nat)) (x 6%nat)) (x 7%nat).
Proof.
  unfold avx_horizontal_sum. cbv zeta. cbn [Nat.add].
  rewrite !fadd_assoc. f_equal. f_equal.
  rewrite (fadd_swap (x 6%nat) (x 1%nat)).
  rewrite (fadd_swap (x 2%nat) (x 1%nat)).
  rewrite (fadd_swap (x 4%nat) (x 1%nat)). f_equal.
  rewrite (fadd_swap (x 4%nat) (x 2%nat)). f_equal.
  rewrite (fadd_swap (x 5%nat) (x 3%nat)).
  rewrite (fadd_swap (x 6%nat) (x 3%nat)).
  rewrite (fadd_swap (x 4%nat) (x 3%nat)). f_equal. f_equal.
  apply fadd_swap.
Qed.

Lemma for_from_continue {St : Type} lo hi (body : nat → St → St) s :
  (lo ≤ hi)%nat →
  for_from lo hi body (for_loop lo body s) = for_loop hi body s.
Proof.
  intros Hle. induction hi as [|hi IH].
  - assert (lo = 0%nat) as -> by lia. reflexivity.
  - destruct (decide (lo ≤ hi)%nat) as [Hle'|Hgt].
    + rewrite for_from_S by exact Hle'. rewrite IH by exact Hle'.
      rewrite for_loop_S. reflexivity.
    + assert (lo = S hi) as -> by lia. apply for_from_nil. lia.
Qed.

Lemma avx_blocks w off o n :
  for_loop n
    (λ x A,
       let prod i := fmul (rd w (off + (8 * x + i))) (rd o (8 * x + i)) in
       fadd A (avx_horizontal_sum prod))
    fzero =
  for_loop (8 * n) (λ k A, fadd A (fmul (rd w (off + k)) (rd o k))) fzero.
Proof.
  induction n as [|n IH]; [reflexivity|].
  rewrite for_loop_S, IH. cbv zeta.
  replace (8 * S n)%nat
    with (S (S (S (S (S (S (S (S (8 * n)))))))))%nat by lia.
  rewrite !for_loop_S, avx_horizontal_sum_fold.
  replace (8 * n + 0)%nat with (8 * n)%nat by lia.
  replace (8 * n + 1)%nat with (S (8 * n)) by lia.
  replace (8 * n + 2)%nat with (S (S (8 * n))) by lia.
  replace (8 * n + 3)%nat with (S (S (S (8 * n)))) by lia.
  replace (8 * n + 4)%nat with (S (S (S (S (8 * n))))) by lia.
  replace (8 * n + 5)%nat with (S (S (S (S (S (8 * n)))))) by lia.
  replace (8 * n + 6)%nat with (S (S (S (S (S (S (8 * n))))))) by lia.
  replace (8 * n + 7)%nat with (S (S (S (S (S (S (S (8 * n)))))))) by lia.
  reflexivity.
Qed.

Lemma dot_avx_dot (units : Z) w off o :
  dot_avx units w off o = dot (count_of units) w off o.
Proof.
  unfold dot_avx, dot. cbv zeta. rewrite avx_blocks.
  apply for_from_continue. unfold count_of.
  destruct (Z.le_gt_cases 0 units) as [Hpos|Hneg].
  - pose proof (Z.quot_pos units 8 Hpos ltac:(lia)) as Hq.
    pose proof (Z.mul_quot_le units 8 Hpos ltac:(lia)) as Hm. lia.
  - assert (Hq : units ÷ 8 ≤ 0).
    { rewrite <- (Z.opp_involutive units), Z.quot_opp_l by lia.
      pose proof (Z.quot_pos (- units) 8 ltac:(lia) ltac:(lia)). lia. }
    lia.
Qed.

Context {FE : FloatExp F}.

Lemma for_down_ext {St : Type} n (body body' : nat → St → St) s :
  (∀ i s, body i s = body' i s) → for_down n body s = for_down n body' s.
Proof.
  intros H. revert s. induction n as [|n IH]; intros s; [reflexivity|].
  rewrite !for_down_S, H. apply IH.
Qed.

(** X24: in exact arithmetic the build with [USE_AVX] computes what the
    plain build computes: when addition is associative and commutative,
    the forward pass that sums the products eight at a time through
    [avx_horizontal_sum], and the rest one by one, leaves the net that
    the scalar loop leaves.  (Addition on [float] is not associative;
    nothing is said here about the two builds on [float].) *)
Theorem AnnSimulate_avx_exact net : AnnSimulate_avx net = AnnSimulate net.
Proof.
  unfold AnnSimulate_avx, AnnSimulate. apply for_down_ext. intros i s.
  unfold sim_layer_avx, sim_layer. apply for_loop_ext. intros j s' _.
  unfold sim_unit_avx, sim_unit. cbv zeta. rewrite dot_avx_dot. reflexivity.
Qed.

End AVX.

Lemma AnnSimulate_avx_exact_witness :
  AnnSimulate_avx net_sim = AnnSimulate net_sim.
Proof. exact (AnnSimulate_avx_exact (FA := R_add_laws) net_sim). Defined.
